(** * MeasureColocalization: the colocalization metrics engine

    A shallow embedding of [cellprofiler/modules/measurecolocalization.py]
    ([run_image_pair_images] and [run_image_pair_objects]) and the
    properties of its metrics.

    Pixel intensities are modelled by Rocq's primitive binary64 floats, so
    NaN, the infinities and division by zero behave as they do in the
    program.  An image carries the dtype of its pixel array, [float32] or
    [float64]: numpy compares an array with a threshold in the dtype of the
    array, and the embedding follows it where the percentage thresholds are
    applied; the Costes thresholds and all sums, means and quotients are
    computed in binary64 (for a [float32] array numpy accumulates them in
    [float32], which changes their rounding).  Arrays are flattened to lists in row-major
    order and an image keeps its shape; boolean masks are lists of [bool];
    label maps and ranks are lists of [Z].  A Python exception that escapes a
    function is the result [None]. *)

From Stdlib Require Import String ZArith List Bool Lia Floats Permutation Sorted.
Import ListNotations.

Set Warnings "-inexact-float".

#[local] Open Scope string_scope.
#[local] Open Scope list_scope.
#[local] Open Scope float_scope.

Notation "x <- e ;; k" :=
  (match e with Some x => k | None => None end)
  (at level 61, e at next level, right associativity, only parsing).

Notation "' p <- e ;; k" :=
  (match e with Some p => k | None => None end)
  (at level 61, p pattern, e at next level, right associativity, only parsing).

(** ** The numpy primitives the module calls *)

Module NumPy.

(** An [int64] converted to [float64] (round to nearest even). *)
Definition Z2F (z : Z) : float :=
  SF2Prim (binary_normalize prec emax z 0 false).

Definition len {A} (xs : list A) : float := Z2F (Z.of_nat (length xs)).

(** The dtype of a pixel array. *)
Inductive dtype : Type := float32 | float64.

(** [numpy.float32(x)]: the binary32 value nearest to [x], ties to even, an
    infinity beyond the binary32 range; it is held as the binary64 float of
    the same value. *)
Definition to_float32 (x : float) : float :=
  match Prim2SF x with
  | S754_finite s m e =>
      SF2Prim (binary_normalize 24 128 (if s then Z.neg m else Z.pos m) e s)
  | _ => x
  end.

(** A float64 scalar as numpy (before 2.0) combines it with an array of
    dtype [d]: with a [float32] array the scalar is converted to [float32]
    when its value lies within (-3.4e38, 3.4e38) or is not finite, and the
    operation is done in [float32]; otherwise the array is promoted and the
    scalar kept. *)
Definition astype (d : dtype) (t : float) : float :=
  match d with
  | float64 => t
  | float32 => if (-3.4e38 <? t) && (t <? 3.4e38) then to_float32 t else t
  end.

(** [c * a] for a float64 scalar [c] and an entry [x] of an array of dtype
    [d]: a [float32] array is multiplied in [float32] by the converted
    scalar. *)
Definition scale (d : dtype) (c x : float) : float :=
  match d with
  | float64 => c * x
  | float32 =>
      if (-3.4e38 <? c) && (c <? 3.4e38) then to_float32 (to_float32 c * x)
      else c * x
  end.

(** [xs[mask]]: the entries of [xs] where the boolean mask is true. *)
Fixpoint bool_index {A} (xs : list A) (mask : list bool) : list A :=
  match xs, mask with
  | x :: xs', m :: mask' =>
      if m then x :: bool_index xs' mask' else bool_index xs' mask'
  | _, _ => []
  end.

(** Elementwise binary operation on two arrays of one shape. *)
Fixpoint map2 {A B C} (f : A -> B -> C) (xs : list A) (ys : list B) : list C :=
  match xs, ys with
  | x :: xs', y :: ys' => f x y :: map2 f xs' ys'
  | _, _ => []
  end.

(** [numpy.any]. *)
Definition any (mask : list bool) : bool := existsb (fun b => b) mask.

(** [a.sum()], accumulated left to right from 0.0; the sum of an empty array
    is 0.0.  (numpy adds long arrays in blocks, which changes the rounding
    of the total only.) *)
Definition sum (xs : list float) : float := fold_left PrimFloat.add xs 0.

(** [a != b] on floats. *)
Definition neq (x y : float) : bool := negb (x =? y).

(** The order numpy sorts and reduces floats by: NaN is the largest. *)
Definition np_lt (x y : float) : bool :=
  (x <? y) || (negb (PrimFloat.is_nan x) && PrimFloat.is_nan y).

(** One step of a maximum or minimum reduction; both propagate NaN. *)
Definition fmax (m x : float) : float := if np_lt m x then x else m.
Definition fmin (m x : float) : float :=
  if PrimFloat.is_nan m then m
  else if PrimFloat.is_nan x then x
  else if x <? m then x else m.

(** [numpy.max(a)] and [numpy.min(a)]; they raise on an empty array. *)
Definition amax (xs : list float) : option float :=
  match xs with
  | [] => None
  | x :: xs' => Some (fold_left fmax xs' x)
  end.

Definition amin (xs : list float) : option float :=
  match xs with
  | [] => None
  | x :: xs' => Some (fold_left fmin xs' x)
  end.

(** [a.max()] on an integer array. *)
Definition imax (xs : list Z) : option Z :=
  match xs with
  | [] => None
  | x :: xs' => Some (fold_left Z.max xs' x)
  end.

(** [numpy.mean(a)]: 0.0 / 0 = NaN on an empty array. *)
Definition mean (xs : list float) : float := sum xs / len xs.

(** [numpy.var(a, ddof=1)]: the sum of squared deviations over
    [max(n - 1, 0)]. *)
Definition var1 (xs : list float) : float :=
  let m := mean xs in
  sum (map (fun x => (x - m) * (x - m)) xs)
  / Z2F (Z.max (Z.of_nat (length xs) - 1) 0).

(** [numpy.cumsum] of a boolean array, as integers. *)
Fixpoint cumsum_from (acc : Z) (bs : list bool) : list Z :=
  match bs with
  | [] => []
  | b :: bs' =>
      let acc' := (acc + if b then 1 else 0)%Z in
      acc' :: cumsum_from acc' bs'
  end.

Definition cumsum (bs : list bool) : list Z := cumsum_from 0 bs.

(** [a[i] = v] for an index within the array. *)
Fixpoint set_nth {A} (i : nat) (v : A) (xs : list A) : list A :=
  match xs, i with
  | [], _ => []
  | _ :: xs', O => v :: xs'
  | x :: xs', S i' => x :: set_nth i' v xs'
  end.

(** [a[idx] = vals]: the assignments are made in order. *)
Definition scatter {A} (a : list A) (idx : list nat) (vals : list A) : list A :=
  fold_left (fun acc iv => set_nth (fst iv) (snd iv) acc) (combine idx vals) a.

(** A stable sort: insertion from the right keeps equal keys in their
    original order. *)
Fixpoint insert_by {A} (lt : A -> A -> bool) (x : A) (l : list A) : list A :=
  match l with
  | [] => [x]
  | y :: l' => if lt y x then y :: insert_by lt x l' else x :: l
  end.

Definition sort_by {A} (lt : A -> A -> bool) (l : list A) : list A :=
  fold_right (insert_by lt) [] l.

(** The indices that sort [keys] in the order [lt], stably. *)
Definition argsort {K} (lt : K -> K -> bool) (keys : list K) : list nat :=
  map fst
    (sort_by (fun p q => lt (snd p) (snd q))
       (combine (seq 0 (length keys)) keys)).

(** [numpy.lexsort([a])]: a stable argsort of [a]. *)
Definition lexsort1 (a : list float) : list nat := argsort np_lt a.

(** [numpy.lexsort((labels, a))]: the last key, [a], is the primary one and
    [labels] breaks its ties. *)
Definition lex_lt (p q : float * Z) : bool :=
  np_lt (fst p) (fst q) || (negb (np_lt (fst q) (fst p)) && (snd p <? snd q)%Z).

Definition lexsort2 (labels : list Z) (a : list float) : list nat :=
  argsort lex_lt (combine a labels).

(** [a[idx]] for an integer index array within bounds. *)
Definition take (a : list float) (idx : list nat) : list float :=
  map (fun i => nth i a nan) idx.

(** [numpy.median(a)] of a non-empty array: NaN if any entry is NaN,
    otherwise the middle of the sorted array. *)
Definition median (xs : list float) : option float :=
  match xs with
  | [] => None
  | _ =>
      if existsb PrimFloat.is_nan xs then Some nan
      else
        let s := sort_by np_lt xs in
        let n := length xs in
        if Nat.even n
        then Some ((nth (n / 2 - 1) s nan + nth (n / 2) s nan) / 2)
        else Some (nth (n / 2) s nan)
  end.

End NumPy.

(** ** The scipy.ndimage reductions grouped by label *)

Module Ndimage.

(** The entries of [input] whose label is [l]. *)
Definition select {A} (input : list A) (labels : list Z) (l : Z) : list A :=
  NumPy.bool_index input (map (Z.eqb l) labels).

(** The grouped reductions below are those of scipy.ndimage on an array that
    is not empty; on an empty one scipy.ndimage raises [ValueError] (it takes
    the minimum of the labels first), which [checked] adds where the module
    calls a reduction without testing that pixels are left. *)
Definition checked {A} (labels : list Z) (result : A) : option A :=
  match labels with
  | [] => None
  | _ :: _ => Some result
  end.

(** [scipy.ndimage.sum(input, labels, index)]: one total per label of
    [index], 0.0 for a label without pixels. *)
Definition sum (input : list float) (labels index : list Z) : list float :=
  map (fun l => NumPy.sum (select input labels l)) index.

(** [scipy.ndimage.sum(1, labels, index)]: the pixel count of each label. *)
Definition count (labels index : list Z) : list Z :=
  map (fun l => Z.of_nat (length (select labels labels l))) index.

(** [scipy.ndimage.mean]: total over count, NaN for a label without pixels. *)
Definition mean (input : list float) (labels index : list Z) : list float :=
  map (fun l => NumPy.sum (select input labels l)
                / NumPy.len (select input labels l)) index.

(** [scipy.ndimage.maximum]: 0.0 for a label without pixels. *)
Definition maximum (input : list float) (labels index : list Z) : list float :=
  map (fun l => match NumPy.amax (select input labels l) with
                | Some m => m
                | None => 0
                end) index.

(** [a[i]] for one integer index: a negative index counts from the end and
    an index outside the array raises [IndexError]. *)
Definition item (a : list float) (i : Z) : option float :=
  let n := Z.of_nat (length a) in
  if (0 <=? i)%Z && (i <? n)%Z then nth_error a (Z.to_nat i)
  else if (- n <=? i)%Z && (i <? 0)%Z then nth_error a (Z.to_nat (n + i))
  else None.

(** [a[labels - 1]]: the per-object value of each pixel's own object. *)
Fixpoint of_label (a : list float) (labels : list Z) : option (list float) :=
  match labels with
  | [] => Some []
  | l :: labels' =>
      match item a (l - 1), of_label a labels' with
      | Some v, Some vs => Some (v :: vs)
      | _, _ => None
      end
  end.

End Ndimage.

(** [numpy.arange(n_objects) + 1]. *)
Definition lrange_of (n_objects : nat) : list Z :=
  map (fun k => Z.of_nat k + 1)%Z (seq 0 n_objects).

(** ** Settings, images and the library routines taken as given *)

Record settings : Type := Settings {
  thr : float;
  do_corr_and_slope : bool;
  do_manders : bool;
  do_rwc : bool;
  do_overlap : bool;
  do_costes : bool
}.

(** An image: the shape and the dtype of its pixel array, the pixels and the
    mask, both flattened. *)
Record image : Type := Image {
  shape : list nat;
  dtype : NumPy.dtype;
  pixel_data : list float;
  mask : list bool
}.

Record objects : Type := Objects {
  segmented : list Z;
  count : nat
}.

(** What [scipy.stats.pearsonr] gives back: it raises [ValueError] or returns
    the coefficient (possibly NaN). *)
Inductive pearson_result : Type :=
| ValueError
| PearsonR (r : float).

(** What a [crop_image_similarly] gives back: the cropped array, or it
    raises, [ValueError] or another exception. *)
Inductive crop_result (A : Type) : Type :=
| Cropped (a : A)
| CropValueError
| CropError.

Arguments Cropped {A} a.
Arguments CropValueError {A}.
Arguments CropError {A}.

(** The routines of other packages the module calls.  The cropping helpers
    of [cellprofiler.image] and [cellprofiler.object] take the array with
    its shape.  [numpy.corrcoef] returns a number on every pair of samples
    (NaN on a degenerate one).  [scipy.linalg.lstsq], of which the module
    keeps the slope coefficient, raises on an entry that is not finite and
    when its solver fails: [None].  [scipy.stats.pearsonr] raises
    [ValueError] or returns. *)
Record library : Type := Library {
  crop_image_similarly :
    forall A : Type, image -> list nat -> list A -> crop_result (list A);
  objects_crop_image_similarly :
    forall A : Type, objects -> list nat -> list A -> crop_result (list A);
  size_similarly :
    forall A : Type, list Z -> list nat -> list A -> list A * list bool;
  corrcoef : list float -> list float -> float;
  lstsq_slope : list float -> list float -> option float;
  pearsonr : list float -> list float -> pearson_result
}.

(** A row of the displayed statistics table; the value is ["%.3f" % x] or
    the placeholder ["-"]. *)
Inductive cell : Type :=
| Fmt3 (x : float)
| Dash.

Definition row : Type := (string * string * string * string * cell)%type.

(** ** Alignment and the paired valid samples *)

(** [numpy.product(pixel_data.shape)]. *)
Definition pixel_count (im : image) : nat := fold_right Nat.mul 1%nat (shape im).

(** The two images and masks once the larger is cropped like the smaller. *)
Record aligned : Type := Aligned {
  first_pixel_data : list float;
  first_mask : list bool;
  second_pixel_data : list float;
  second_mask : list bool
}.

(** A crop whose exception, if any, escapes. *)
Definition cropped {A} (r : crop_result A) : option A :=
  match r with
  | Cropped a => Some a
  | CropValueError | CropError => None
  end.

(** numpy broadcasting of two shapes, both read from the last axis on:
    two extents combine when they are equal or one of them is 1. *)
Fixpoint broadcast_shapes (s1 s2 : list nat) : option (list nat) :=
  match s1, s2 with
  | [], _ => Some s2
  | _, [] => Some s1
  | a :: s1', b :: s2' =>
      if (a =? b)%nat || (b =? 1)%nat
      then option_map (cons a) (broadcast_shapes s1' s2')
      else if (a =? 1)%nat then option_map (cons b) (broadcast_shapes s1' s2')
      else None
  end.

(** The flat index, in an array of shape [s], of the entry that is
    broadcast to the flat index [k] of the shape [b]. *)
Fixpoint broadcast_index (b s : list nat) (k : nat) : nat :=
  match b, s with
  | n :: b', a :: s' =>
      ((if (a =? 1)%nat then 0 else k mod n) + a * broadcast_index b' s' (k / n))%nat
  | _, _ => 0%nat
  end.

(** [mask & ~isnan(pixel_data)] of one image. *)
Definition valid_pixels (im : image) : list bool :=
  NumPy.map2 andb (mask im) (map (fun x => negb (PrimFloat.is_nan x)) (pixel_data im)).

(** [numpy.any] of the validity mask of two images of different shapes,
    which raises when the shapes do not broadcast. *)
Definition any_broadcast (first_image second_image : image) : option bool :=
  let s1 := rev (shape first_image) in
  let s2 := rev (shape second_image) in
  b <- broadcast_shapes s1 s2 ;;
  Some (existsb (fun k => nth (broadcast_index b s1 k) (valid_pixels first_image) false
                          && nth (broadcast_index b s2 k) (valid_pixels second_image) false)
                (seq 0 (fold_right Nat.mul 1%nat b))).

(** Lines 417-430 and 730-743.  The larger image is cropped like the
    smaller, which may raise.  Two images of one pixel count are combined as
    they are.  With different shapes the validity mask is a broadcast one or
    raises; nothing can be indexed by it, so the samples raise when it holds
    a valid pixel, and when it holds none the arrays are left empty. *)
Definition align (L : library) (first_image second_image : image)
    : option aligned :=
  let first_pixel_count := pixel_count first_image in
  let second_pixel_count := pixel_count second_image in
  if (first_pixel_count <? second_pixel_count)%nat then
    second_pixel_data <-
      cropped (crop_image_similarly L _ first_image (shape second_image)
                 (pixel_data second_image)) ;;
    second_mask <-
      cropped (crop_image_similarly L _ first_image (shape second_image)
                 (mask second_image)) ;;
    Some (Aligned (pixel_data first_image) (mask first_image)
                  second_pixel_data second_mask)
  else if (second_pixel_count <? first_pixel_count)%nat then
    first_pixel_data <-
      cropped (crop_image_similarly L _ second_image (shape first_image)
                 (pixel_data first_image)) ;;
    first_mask <-
      cropped (crop_image_similarly L _ second_image (shape first_image)
                 (mask first_image)) ;;
    Some (Aligned first_pixel_data first_mask
                  (pixel_data second_image) (mask second_image))
  else if list_eq_dec Nat.eq_dec (shape first_image) (shape second_image) then
    Some (Aligned (pixel_data first_image) (mask first_image)
                  (pixel_data second_image) (mask second_image))
  else
    any_valid <- any_broadcast first_image second_image ;;
    if any_valid then None else Some (Aligned [] [] [] []).

(** [first_mask & second_mask & ~isnan(first_pixel_data)
     & ~isnan(second_pixel_data)] (lines 430-435 and 743-748). *)
Definition valid_mask (al : aligned) : list bool :=
  NumPy.map2 andb
    (NumPy.map2 andb
       (NumPy.map2 andb (first_mask al) (second_mask al))
       (map (fun x => negb (PrimFloat.is_nan x)) (first_pixel_data al)))
    (map (fun x => negb (PrimFloat.is_nan x)) (second_pixel_data al)).

(** [fi = first_pixel_data[mask]] and [si = second_pixel_data[mask]]. *)
Definition valid_samples (al : aligned) : list float * list float :=
  (NumPy.bool_index (first_pixel_data al) (valid_mask al),
   NumPy.bool_index (second_pixel_data al) (valid_mask al)).

(** ** The threshold family over a whole image *)

Definition sq (x : float) : float := x * x.

Record thresholded : Type := Thresholded {
  combined_thresh : list bool;
  fi_thresh : list float;
  si_thresh : list float;
  tot_fi_thr : float;
  tot_si_thr : float
}.

(** Thresholds as a percentage of the maximum intensity of each channel
    (lines 467-475).  [d1] and [d2] are the dtypes of the two pixel arrays:
    a threshold is a float64 scalar, the product of a Python float and a
    numpy scalar, and the array is compared with it in its own dtype. *)
Definition threshold_images (d1 d2 : NumPy.dtype) (p : float)
    (fi si : list float) : option thresholded :=
  max_fi <- NumPy.amax fi ;;
  max_si <- NumPy.amax si ;;
  let thr_fi := p * max_fi / 100 in
  let thr_si := p * max_si / 100 in
  let fi_above := map (fun f => NumPy.astype d1 thr_fi <? f) fi in
  let si_above := map (fun s => NumPy.astype d2 thr_si <? s) si in
  let combined_thresh := NumPy.map2 andb fi_above si_above in
  Some (Thresholded combined_thresh
          (NumPy.bool_index fi combined_thresh)
          (NumPy.bool_index si combined_thresh)
          (NumPy.sum (NumPy.bool_index fi fi_above))
          (NumPy.sum (NumPy.bool_index si si_above))).

(** Manders coefficients [M1], [M2] (lines 477-482). *)
Definition manders_images (td : thresholded) : float * float :=
  (NumPy.sum (fi_thresh td) / tot_fi_thr td,
   NumPy.sum (si_thresh td) / tot_si_thr td).

(** The rank image of [a] for the sorting permutation [Rank]: a new rank
    starts wherever two neighbours of the sorted array differ. *)
Definition rank_image (a : list float) (Rank : list nat) : list Z :=
  let Rank_U :=
    false :: NumPy.map2 NumPy.neq (NumPy.take a (removelast Rank))
                                  (NumPy.take a (tl Rank)) in
  let Rank_S := NumPy.cumsum Rank_U in
  NumPy.scatter (repeat 0%Z (length a)) Rank Rank_S.

(** [weight = ((R - Di) * 1.0) / R] with [R = max(ranks) + 1]. *)
Definition rank_weights (Rank_im1 Rank_im2 : list Z) : option (list float) :=
  m1 <- NumPy.imax Rank_im1 ;;
  m2 <- NumPy.imax Rank_im2 ;;
  let R := (Z.max m1 m2 + 1)%Z in
  let Di := NumPy.map2 (fun r1 r2 => Z.abs (r1 - r2)) Rank_im1 Rank_im2 in
  Some (map (fun d => (NumPy.Z2F (R - d) * 1) / NumPy.Z2F R) Di).

(** Rank-weighted colocalization [RWC1], [RWC2] (lines 501-521). *)
Definition rwc_images (fi si : list float) (td : thresholded) : option (float * float) :=
  let Rank_im1 := rank_image fi (NumPy.lexsort1 fi) in
  let Rank_im2 := rank_image si (NumPy.lexsort1 si) in
  weight <- rank_weights Rank_im1 Rank_im2 ;;
  let weight_thresh := NumPy.bool_index weight (combined_thresh td) in
  Some (NumPy.sum (NumPy.map2 PrimFloat.mul (fi_thresh td) weight_thresh) / tot_fi_thr td,
        NumPy.sum (NumPy.map2 PrimFloat.mul (si_thresh td) weight_thresh) / tot_si_thr td).

(** Overlap coefficient and [K1], [K2] (lines 539-546). *)
Definition overlap_images (td : thresholded) : float * float * float :=
  let prod := NumPy.sum (NumPy.map2 PrimFloat.mul (fi_thresh td) (si_thresh td)) in
  let fsq := NumPy.sum (map sq (fi_thresh td)) in
  let ssq := NumPy.sum (map sq (si_thresh td)) in
  (prod / sqrt (fsq * ssq), prod / fsq, prod / ssq).

(** ** Costes' automated threshold search

    [run_image_pair_images] and [run_image_pair_objects] hold the same
    statements for the line fit and the search; they are embedded once. *)

(** The decrement and bound of the search loop, 0.003921568627. *)
Definition costes_step : float := 0.003921568627.

(** The pixels the regression line is fitted on: those where either
    intensity is positive. *)
Definition nonzero_samples (fi si : list float) : list float * list float :=
  let nonZero := NumPy.map2 orb (map (fun f => 0 <? f) fi) (map (fun s => 0 <? s) si) in
  (NumPy.bool_index fi nonZero, NumPy.bool_index si nonZero).

(** [covar = 0.5 * (zvar - (xvar + yvar))]. *)
Definition costes_covar (fi si : list float) : float :=
  let '(x, y) := nonzero_samples fi si in
  let xvar := NumPy.var1 x in
  let yvar := NumPy.var1 y in
  let z := NumPy.map2 PrimFloat.add x y in
  let zvar := NumPy.var1 z in
  0.5 * (zvar - (xvar + yvar)).

(** The slope [a = num / denom] from the variances and [covar]. *)
Definition costes_slope (xvar yvar covar : float) : float :=
  let denom := 2 * covar in
  let num := (yvar - xvar)
             + sqrt ((yvar - xvar) * (yvar - xvar) + 4 * (covar * covar)) in
  num / denom.

(** The regression line [si = a * fi + b] fitted by orthogonal regression. *)
Definition costes_line (fi si : list float) : float * float :=
  let '(x, y) := nonzero_samples fi si in
  let xvar := NumPy.var1 x in
  let yvar := NumPy.var1 y in
  let xmean := NumPy.mean x in
  let ymean := NumPy.mean y in
  let a := costes_slope xvar yvar (costes_covar fi si) in
  let b := ymean - a * xmean in
  (a, b).

(** The loop variables after the search: the last threshold pair assigned
    ([None] while no iteration has run) and the number of iterations run. *)
Record costes_state : Type := CostesState {
  cs_thr : option (float * float);
  cs_iterations : nat
}.

(** [while i > 0.003921568627: ...] (lines 579-590 and 1131-1142); [fuel]
    bounds the number of times the loop body may run, and the result is
    [None] when the fuel runs out while the loop test still holds. *)
Fixpoint costes_loop (pearsonr : list float -> list float -> pearson_result)
    (fi si : list float) (a b : float)
    (fuel : nat) (i : float) (st : costes_state) : option costes_state :=
  if costes_step <? i then
    match fuel with
    | O => None
    | S fuel' =>
        let Thr_fi_c := i in
        let Thr_si_c := (a * i) + b in
        let combt :=
          NumPy.map2 orb (map (fun f => f <? Thr_fi_c) fi)
                         (map (fun s => s <? Thr_si_c) si) in
        let st' := CostesState (Some (Thr_fi_c, Thr_si_c)) (S (cs_iterations st)) in
        match pearsonr (NumPy.bool_index fi combt) (NumPy.bool_index si combt) with
        | ValueError => Some st'
        | PearsonR r =>
            if r <=? 0 then Some st'
            else costes_loop pearsonr fi si a b fuel' (i - costes_step) st'
        end
    end
  else Some st.

(** The value of [i] after [k] decrements. *)
Fixpoint costes_i (k : nat) : float :=
  match k with
  | O => 1
  | S k' => costes_i k' - costes_step
  end.

(** Line fit, then the search from [i = 1]; the threshold pair is unbound
    ([None]) if the loop body never ran. *)
Definition costes_search (L : library) (fuel : nat) (fi si : list float)
    : option (float * float) :=
  let '(a, b) := costes_line fi si in
  st <- costes_loop (pearsonr L) fi si a b fuel 1 (CostesState None 0) ;;
  cs_thr st.

(** Manders coefficients [C1], [C2] above the Costes thresholds
    (lines 592-603). *)
Definition costes_images (L : library) (fuel : nat) (fi si : list float)
    : option (float * float) :=
  '(Thr_fi_c, Thr_si_c) <- costes_search L fuel fi si ;;
  let combined_thresh_c :=
    NumPy.map2 andb (map (fun f => Thr_fi_c <? f) fi)
                    (map (fun s => Thr_si_c <? s) si) in
  let fi_thresh_c := NumPy.bool_index fi combined_thresh_c in
  let si_thresh_c := NumPy.bool_index si combined_thresh_c in
  let tot_fi_thr_c := NumPy.sum (NumPy.bool_index fi (map (fun f => Thr_fi_c <? f) fi)) in
  let tot_si_thr_c := NumPy.sum (NumPy.bool_index si (map (fun s => Thr_si_c <? s) si)) in
  Some (NumPy.sum fi_thresh_c / tot_fi_thr_c, NumPy.sum si_thresh_c / tot_si_thr_c).

(** ** Measurement names *)

Definition fmt2 (prefix first second : string) : string :=
  (prefix ++ first ++ "_" ++ second)%string.

Definition F_CORRELATION_FORMAT := fmt2 "Correlation_Correlation_".
Definition F_SLOPE_FORMAT := fmt2 "Correlation_Slope_".
Definition F_OVERLAP_FORMAT := fmt2 "Correlation_Overlap_".
Definition F_K_FORMAT := fmt2 "Correlation_K_".
Definition F_MANDERS_FORMAT := fmt2 "Correlation_Manders_".
Definition F_RWC_FORMAT := fmt2 "Correlation_RWC_".
Definition F_COSTES_FORMAT := fmt2 "Correlation_Costes_".

(** ** [run_image_pair_images] *)

(** The local variables of the metric families; a family that was not
    computed leaves its variables unbound ([None]). *)
Record image_values : Type := ImageValues {
  iv_corr_slope : option (float * float);
  iv_overlap : option (float * float * float);
  iv_manders : option (float * float);
  iv_rwc : option (float * float);
  iv_costes : option (float * float)
}.

(** [if flag: ...], for a computation that may raise. *)
Definition when {A} (flag : bool) (c : option A) : option (option A) :=
  if flag then v <- c ;; Some (Some v) else Some None.

(** The branch [if numpy.any(mask)]. *)
Definition image_values_of (L : library) (s : settings) (d1 d2 : NumPy.dtype)
    (fuel : nat) (fi si : list float) : option image_values :=
  corr_slope <- when (do_corr_and_slope s)
                     (let corr := corrcoef L fi si in
                      slope <- lstsq_slope L fi si ;;
                      Some (corr, slope)) ;;
  td <- when (do_manders s || do_rwc s || do_overlap s)
             (threshold_images d1 d2 (thr s) fi si) ;;
  manders <- when (do_manders s) (td' <- td ;; Some (manders_images td')) ;;
  rwc <- when (do_rwc s) (td' <- td ;; rwc_images fi si td') ;;
  overlap <- when (do_overlap s) (td' <- td ;; Some (overlap_images td')) ;;
  costes <- when (do_costes s) (costes_images L fuel fi si) ;;
  Some (ImageValues corr_slope overlap manders rwc costes).

(** The branch taken when no pixel is valid: every variable is NaN. *)
Definition image_values_nan : image_values :=
  ImageValues (Some (nan, nan)) (Some (nan, nan, nan)) (Some (nan, nan))
              (Some (nan, nan)) (Some (nan, nan)).

Definition image_rows (first_image_name second_image_name : string)
    (v : image_values) : list row :=
  let f := first_image_name in
  let g := second_image_name in
  (match iv_corr_slope v with
   | Some (corr, slope) =>
       [(f, g, "-", "Correlation", Fmt3 corr); (f, g, "-", "Slope", Fmt3 slope)]
   | None => []
   end
   ++ match iv_manders v with
      | Some (M1, M2) =>
          [(f, g, "-", "Manders Coefficient", Fmt3 M1);
           (g, f, "-", "Manders Coefficient", Fmt3 M2)]
      | None => []
      end
   ++ match iv_rwc v with
      | Some (RWC1, RWC2) =>
          [(f, g, "-", "RWC Coefficient", Fmt3 RWC1);
           (g, f, "-", "RWC Coefficient", Fmt3 RWC2)]
      | None => []
      end
   ++ match iv_overlap v with
      | Some (overlap, _, _) => [(f, g, "-", "Overlap Coefficient", Fmt3 overlap)]
      | None => []
      end
   ++ match iv_costes v with
      | Some (C1, C2) =>
          [(f, g, "-", "Manders Coefficient (Costes)", Fmt3 C1);
           (g, f, "-", "Manders Coefficient (Costes)", Fmt3 C2)]
      | None => []
      end).

(** The image measurements added to the workspace, in order. *)
Definition image_measurements (s : settings)
    (first_image_name second_image_name : string) (v : image_values)
    : list (string * float) :=
  let f := first_image_name in
  let g := second_image_name in
  (match do_corr_and_slope s, iv_corr_slope v with
   | true, Some (corr, slope) =>
       [(F_CORRELATION_FORMAT f g, corr); (F_SLOPE_FORMAT f g, slope)]
   | _, _ => []
   end
   ++ match do_overlap s, iv_overlap v with
      | true, Some (overlap, K1, K2) =>
          [(F_OVERLAP_FORMAT f g, overlap); (F_K_FORMAT f g, K1); (F_K_FORMAT g f, K2)]
      | _, _ => []
      end
   ++ match do_manders s, iv_manders v with
      | true, Some (M1, M2) => [(F_MANDERS_FORMAT f g, M1); (F_MANDERS_FORMAT g f, M2)]
      | _, _ => []
      end
   ++ match do_rwc s, iv_rwc v with
      | true, Some (RWC1, RWC2) => [(F_RWC_FORMAT f g, RWC1); (F_RWC_FORMAT g f, RWC2)]
      | _, _ => []
      end
   ++ match do_costes s, iv_costes v with
      | true, Some (C1, C2) => [(F_COSTES_FORMAT f g, C1); (F_COSTES_FORMAT g f, C2)]
      | _, _ => []
      end).

(** The statistics rows returned and the measurements recorded. *)
Definition run_image_pair_images (L : library) (s : settings) (fuel : nat)
    (first_image_name second_image_name : string)
    (first_image second_image : image)
    : option (list row * list (string * float)) :=
  al <- align L first_image second_image ;;
  let mask := valid_mask al in
  if NumPy.any mask then
    let '(fi, si) := valid_samples al in
    v <- image_values_of L s (dtype first_image) (dtype second_image) fuel fi si ;;
    Some (image_rows first_image_name second_image_name v,
          image_measurements s first_image_name second_image_name v)
  else
    Some ([], image_measurements s first_image_name second_image_name
                image_values_nan).

(** ** The metric families within objects *)

(** The [except ValueError] branch of lines 704-709: the image and its mask
    resized to the label matrix, the pixels outside masked. *)
Definition resized_to_labels (L : library) (objs : objects) (im : image)
    : list float * list bool :=
  let '(pixels, _) :=
    size_similarly L _ (segmented objs) (shape im) (pixel_data im) in
  let '(msk, m1) := size_similarly L _ (segmented objs) (shape im) (mask im) in
  (pixels, NumPy.map2 (fun m keep : bool => if keep then m else false) msk m1).

(** An image and its mask brought to the label matrix (lines 701-722):
    cropped like the objects or, when that raises [ValueError], resized;
    another exception of the crop escapes. *)
Definition to_labels (L : library) (objs : objects) (im : image)
    : option (list float * list bool) :=
  match objects_crop_image_similarly L _ objs (shape im) (pixel_data im) with
  | Cropped pixels =>
      match objects_crop_image_similarly L _ objs (shape im) (mask im) with
      | Cropped msk => Some (pixels, msk)
      | CropValueError => Some (resized_to_labels L objs im)
      | CropError => None
      end
  | CropValueError => Some (resized_to_labels L objs im)
  | CropError => None
  end.

(** The pixels inside objects: [first_pixels], [second_pixels], [labels]. *)
Record object_pixels : Type := ObjectPixels {
  first_pixels : list float;
  second_pixels : list float;
  labels : list Z
}.

Definition object_samples (L : library) (objs : objects)
    (first_image second_image : image) : option object_pixels :=
  '(first_px, first_msk) <- to_labels L objs first_image ;;
  '(second_px, second_msk) <- to_labels L objs second_image ;;
  let mask :=
    NumPy.map2 andb
      (NumPy.map2 andb (map (fun l => (0 <? l)%Z) (segmented objs)) first_msk)
      second_msk in
  Some (ObjectPixels (NumPy.bool_index first_px mask)
                     (NumPy.bool_index second_px mask)
                     (NumPy.bool_index (segmented objs) mask)).

Definition zeros (n : nat) : list float := repeat 0 n.

(** Per-object Pearson correlation, NaN for an object without pixels
    (lines 774-807).  With no pixel left in any object the first reduction
    raises, and so does the indexing by [labels - 1] for a label above the
    object count. *)
Definition correlation_objects (op : object_pixels) (lrange : list Z)
    : option (list float) :=
  mean1 <- Ndimage.checked (labels op)
             (Ndimage.mean (first_pixels op) (labels op) lrange) ;;
  mean2 <- Ndimage.checked (labels op)
             (Ndimage.mean (second_pixels op) (labels op) lrange) ;;
  mean1_of <- Ndimage.of_label mean1 (labels op) ;;
  mean2_of <- Ndimage.of_label mean2 (labels op) ;;
  let x := NumPy.map2 PrimFloat.sub (first_pixels op) mean1_of in
  let y := NumPy.map2 PrimFloat.sub (second_pixels op) mean2_of in
  let std1 := map sqrt (Ndimage.sum (map sq x) (labels op) lrange) in
  let std2 := map sqrt (Ndimage.sum (map sq y) (labels op) lrange) in
  std1_of <- Ndimage.of_label std1 (labels op) ;;
  std2_of <- Ndimage.of_label std2 (labels op) ;;
  let corr :=
    Ndimage.sum
      (NumPy.map2 PrimFloat.div (NumPy.map2 PrimFloat.mul x y)
         (NumPy.map2 PrimFloat.mul std1_of std2_of))
      (labels op) lrange in
  Some (NumPy.map2 (fun c n => if (n =? 0)%Z then nan else c)
                   corr (Ndimage.count (labels op) lrange)).

Record thresholded_objects : Type := ThresholdedObjects {
  o_combined_thresh : list bool;
  o_fi_thresh : list float;
  o_si_thresh : list float;
  o_tot_fi_thr : list float;
  o_tot_si_thr : list float
}.

(** Thresholds as a percentage of the maximum intensity of each object
    (lines 839-862).  [d1] and [d2] are the dtypes of the two pixel arrays:
    the array of maxima has the dtype of the pixels and is multiplied by the
    Python float [thr / 100] in that dtype.  The maxima raise with no pixel
    left in any object, the indexing by [labels - 1] for a label above the
    object count, and the two totals when no pixel of the channel reaches
    its threshold. *)
Definition threshold_objects (d1 d2 : NumPy.dtype) (p : float)
    (op : object_pixels) (lrange : list Z) : option thresholded_objects :=
  max1 <- Ndimage.checked (labels op)
            (Ndimage.maximum (first_pixels op) (labels op) lrange) ;;
  let tff := map (NumPy.scale d1 (p / 100)) max1 in
  max2 <- Ndimage.checked (labels op)
            (Ndimage.maximum (second_pixels op) (labels op) lrange) ;;
  let tss := map (NumPy.scale d2 (p / 100)) max2 in
  tff_of <- Ndimage.of_label tff (labels op) ;;
  tss_of <- Ndimage.of_label tss (labels op) ;;
  let f_above := NumPy.map2 (fun f t => t <=? f) (first_pixels op) tff_of in
  let s_above := NumPy.map2 (fun s t => t <=? s) (second_pixels op) tss_of in
  let combined_thresh := NumPy.map2 andb f_above s_above in
  tot_fi_thr <- Ndimage.checked (NumPy.bool_index (labels op) f_above)
                  (Ndimage.sum (NumPy.bool_index (first_pixels op) f_above)
                               (NumPy.bool_index (labels op) f_above) lrange) ;;
  tot_si_thr <- Ndimage.checked (NumPy.bool_index (labels op) s_above)
                  (Ndimage.sum (NumPy.bool_index (second_pixels op) s_above)
                               (NumPy.bool_index (labels op) s_above) lrange) ;;
  Some (ThresholdedObjects combined_thresh
          (NumPy.bool_index (first_pixels op) combined_thresh)
          (NumPy.bool_index (second_pixels op) combined_thresh)
          tot_fi_thr tot_si_thr).

Definition manders_objects (op : object_pixels) (lrange : list Z)
    (td : thresholded_objects) : list float * list float :=
  if NumPy.any (o_combined_thresh td) then
    let lab := NumPy.bool_index (labels op) (o_combined_thresh td) in
    (NumPy.map2 PrimFloat.div (Ndimage.sum (o_fi_thresh td) lab lrange) (o_tot_fi_thr td),
     NumPy.map2 PrimFloat.div (Ndimage.sum (o_si_thresh td) lab lrange) (o_tot_si_thr td))
  else (zeros (length lrange), zeros (length lrange)).

(** The rank images and weights are taken over all the object pixels at
    once; only the final sums are grouped by label. *)
Definition rwc_weights_objects (op : object_pixels) : option (list float) :=
  let Rank_im1 := rank_image (first_pixels op)
                    (NumPy.lexsort2 (labels op) (first_pixels op)) in
  let Rank_im2 := rank_image (second_pixels op)
                    (NumPy.lexsort2 (labels op) (second_pixels op)) in
  rank_weights Rank_im1 Rank_im2.

Definition rwc_objects (op : object_pixels) (lrange : list Z)
    (td : thresholded_objects) : option (list float * list float) :=
  weight <- rwc_weights_objects op ;;
  let weight_thresh := NumPy.bool_index weight (o_combined_thresh td) in
  if NumPy.any (o_combined_thresh td) then
    let lab := NumPy.bool_index (labels op) (o_combined_thresh td) in
    Some
      (NumPy.map2 PrimFloat.div
         (Ndimage.sum (NumPy.map2 PrimFloat.mul (o_fi_thresh td) weight_thresh) lab lrange)
         (o_tot_fi_thr td),
       NumPy.map2 PrimFloat.div
         (Ndimage.sum (NumPy.map2 PrimFloat.mul (o_si_thresh td) weight_thresh) lab lrange)
         (o_tot_si_thr td))
  else Some (zeros (length lrange), zeros (length lrange)).

Definition overlap_objects (op : object_pixels) (lrange : list Z)
    (td : thresholded_objects) : list float * list float * list float :=
  if NumPy.any (o_combined_thresh td) then
    let lab := NumPy.bool_index (labels op) (o_combined_thresh td) in
    let fpsq := Ndimage.sum (map sq (o_fi_thresh td)) lab lrange in
    let spsq := Ndimage.sum (map sq (o_si_thresh td)) lab lrange in
    let pdt := map sqrt (NumPy.map2 PrimFloat.mul fpsq spsq) in
    let prod :=
      Ndimage.sum (NumPy.map2 PrimFloat.mul (o_fi_thresh td) (o_si_thresh td)) lab lrange in
    (NumPy.map2 PrimFloat.div prod pdt,
     NumPy.map2 PrimFloat.div prod fpsq,
     NumPy.map2 PrimFloat.div prod spsq)
  else (zeros (length lrange), zeros (length lrange), zeros (length lrange)).

(** Per-object Manders coefficients above one threshold pair
    [(thr_fi_c, thr_si_c)] (lines 1144-1180). *)
Definition costes_manders_objects (thr_c : float * float) (op : object_pixels)
    (lrange : list Z) : list float * list float :=
  let '(thr_fi_c, thr_si_c) := thr_c in
  let fi_above_thr := map (fun f => thr_fi_c <? f) (first_pixels op) in
  let si_above_thr := map (fun s => thr_si_c <? s) (second_pixels op) in
  let combined_thresh_c := NumPy.map2 andb fi_above_thr si_above_thr in
  let fi_thresh_c := NumPy.bool_index (first_pixels op) combined_thresh_c in
  let si_thresh_c := NumPy.bool_index (second_pixels op) combined_thresh_c in
  let f_ge := map (fun f => thr_fi_c <=? f) (first_pixels op) in
  let s_ge := map (fun s => thr_si_c <=? s) (second_pixels op) in
  let tot_fi_thr_c :=
    if NumPy.any fi_above_thr then
      Ndimage.sum (NumPy.bool_index (first_pixels op) f_ge)
                  (NumPy.bool_index (labels op) f_ge) lrange
    else zeros (length lrange) in
  let tot_si_thr_c :=
    if NumPy.any si_above_thr then
      Ndimage.sum (NumPy.bool_index (second_pixels op) s_ge)
                  (NumPy.bool_index (labels op) s_ge) lrange
    else zeros (length lrange) in
  if NumPy.any combined_thresh_c then
    let lab := NumPy.bool_index (labels op) combined_thresh_c in
    (NumPy.map2 PrimFloat.div (Ndimage.sum fi_thresh_c lab lrange) tot_fi_thr_c,
     NumPy.map2 PrimFloat.div (Ndimage.sum si_thresh_c lab lrange) tot_si_thr_c)
  else (zeros (length lrange), zeros (length lrange)).

(** The Costes search runs on the whole-image samples [fi], [si]; its
    threshold pair is then applied to the pixels of every object. *)
Definition costes_objects (L : library) (fuel : nat) (fi si : list float)
    (op : object_pixels) (lrange : list Z) : option (list float * list float) :=
  thr_c <- costes_search L fuel fi si ;;
  Some (costes_manders_objects thr_c op lrange).

(** ** [run_image_pair_objects] *)

(** The per-object vectors of the metric families; a family that was not
    computed leaves its variables unbound ([None]). *)
Record object_values : Type := ObjectValues {
  ov_corr : option (list float);
  ov_manders : option (list float * list float);
  ov_rwc : option (list float * list float);
  ov_overlap : option (list float * list float * list float);
  ov_costes : option (list float * list float)
}.

(** The four summary rows of one per-object vector. *)
Definition summary_rows (a b object_name what : string) (v : list float)
    : option (list row) :=
  med <- NumPy.median v ;;
  mn <- NumPy.amin v ;;
  mx <- NumPy.amax v ;;
  Some [(a, b, object_name, String.append "Mean " what, Fmt3 (NumPy.mean v));
        (a, b, object_name, String.append "Median " what, Fmt3 med);
        (a, b, object_name, String.append "Min " what, Fmt3 mn);
        (a, b, object_name, String.append "Max " what, Fmt3 mx)].

(** [n_objects == 0]: every vector is [numpy.zeros((0,))]. *)
Definition object_values_empty : object_values :=
  ObjectValues (Some []) (Some ([], [])) (Some ([], [])) (Some ([], [], []))
               (Some ([], [])).

(** No valid pixel in the image pair: every vector is the same
    [n_objects]-long vector of NaN. *)
Definition object_values_nan (n_objects : nat) : object_values :=
  let corr := repeat nan n_objects in
  ObjectValues (Some corr) (Some (corr, corr)) (Some (corr, corr))
               (Some (corr, corr, corr)) (Some (corr, corr)).

(** The last branch: the families that were asked for, and their rows. *)
Definition object_values_of (L : library) (s : settings) (d1 d2 : NumPy.dtype)
    (fuel : nat) (f g object_name : string) (fi si : list float)
    (op : object_pixels) (n_objects : nat)
    : option (list row * object_values) :=
  let lrange := lrange_of n_objects in
  corr <- when (do_corr_and_slope s) (correlation_objects op lrange) ;;
  rows_corr <- match corr with
               | Some c => summary_rows f g object_name "Correlation coeff" c
               | None => Some []
               end ;;
  td <- when (do_manders s || do_rwc s || do_overlap s)
             (threshold_objects d1 d2 (thr s) op lrange) ;;
  manders <- when (do_manders s)
                  (td' <- td ;; Some (manders_objects op lrange td')) ;;
  rows_manders <- match manders with
                  | Some (M1, M2) =>
                      r1 <- summary_rows f g object_name "Manders coeff" M1 ;;
                      r2 <- summary_rows g f object_name "Manders coeff" M2 ;;
                      Some (r1 ++ r2)
                  | None => Some []
                  end ;;
  rwc <- when (do_rwc s) (td' <- td ;; rwc_objects op lrange td') ;;
  rows_rwc <- match rwc with
              | Some (RWC1, RWC2) =>
                  r1 <- summary_rows f g object_name "RWC coeff" RWC1 ;;
                  r2 <- summary_rows g f object_name "RWC coeff" RWC2 ;;
                  Some (r1 ++ r2)
              | None => Some []
              end ;;
  overlap <- when (do_overlap s)
                  (td' <- td ;; Some (overlap_objects op lrange td')) ;;
  rows_overlap <- match overlap with
                  | Some (ov, _, _) => summary_rows f g object_name "Overlap coeff" ov
                  | None => Some []
                  end ;;
  costes <- when (do_costes s) (costes_objects L fuel fi si op lrange) ;;
  rows_costes <- match costes with
                 | Some (C1, C2) =>
                     r1 <- summary_rows f g object_name "Manders coeff (Costes)" C1 ;;
                     r2 <- summary_rows g f object_name "Manders coeff (Costes)" C2 ;;
                     Some (r1 ++ r2)
                 | None => Some []
                 end ;;
  Some (rows_corr ++ rows_manders ++ rows_rwc ++ rows_overlap ++ rows_costes,
        ObjectValues corr manders rwc overlap costes).

(** The object measurements added to the workspace, in order. *)
Definition object_measurements (s : settings) (f g : string) (v : object_values)
    : list (string * list float) :=
  match do_corr_and_slope s, ov_corr v with
  | true, Some corr => [(F_CORRELATION_FORMAT f g, corr)]
  | _, _ => []
  end
  ++ match do_manders s, ov_manders v with
     | true, Some (M1, M2) => [(F_MANDERS_FORMAT f g, M1); (F_MANDERS_FORMAT g f, M2)]
     | _, _ => []
     end
  ++ match do_rwc s, ov_rwc v with
     | true, Some (RWC1, RWC2) => [(F_RWC_FORMAT f g, RWC1); (F_RWC_FORMAT g f, RWC2)]
     | _, _ => []
     end
  ++ match do_overlap s, ov_overlap v with
     | true, Some (overlap, K1, K2) =>
         [(F_OVERLAP_FORMAT f g, overlap); (F_K_FORMAT f g, K1); (F_K_FORMAT g f, K2)]
     | _, _ => []
     end
  ++ match do_costes s, ov_costes v with
     | true, Some (C1, C2) => [(F_COSTES_FORMAT f g, C1); (F_COSTES_FORMAT g f, C2)]
     | _, _ => []
     end.

(** The rows returned when there is no object. *)
Definition no_object_rows (f g object_name : string) : list row :=
  [(f, g, object_name, "Mean correlation", Dash);
   (f, g, object_name, "Median correlation", Dash);
   (f, g, object_name, "Min correlation", Dash);
   (f, g, object_name, "Max correlation", Dash)].

(** The three branches on the object count and the validity mask. *)
Definition object_branches (L : library) (s : settings) (d1 d2 : NumPy.dtype)
    (fuel : nat) (f g object_name : string) (al : aligned) (op : object_pixels)
    (n_objects : nat) : option (list row * object_values) :=
  if (n_objects =? 0)%nat then Some ([], object_values_empty)
  else if negb (NumPy.any (valid_mask al)) then Some ([], object_values_nan n_objects)
  else
    let '(fi, si) := valid_samples al in
    object_values_of L s d1 d2 fuel f g object_name fi si op n_objects.

(** The statistics rows returned and the measurements recorded. *)
Definition run_image_pair_objects (L : library) (s : settings) (fuel : nat)
    (first_image_name second_image_name object_name : string)
    (first_image second_image : image) (objs : objects)
    : option (list row * list (string * list float)) :=
  op <- object_samples L objs first_image second_image ;;
  al <- align L first_image second_image ;;
  let n_objects := count objs in
  '(result, v) <- object_branches L s (dtype first_image) (dtype second_image)
                    fuel first_image_name second_image_name object_name
                    al op n_objects ;;
  let recorded := object_measurements s first_image_name second_image_name v in
  if (n_objects =? 0)%nat
  then Some (no_object_rows first_image_name second_image_name object_name, recorded)
  else Some (result, recorded).

(** ** An instance of the library routines

    Used to run the embedding on concrete images; the theorems that hold for
    every library do not depend on it.  A crop keeps the leading pixels.
    [corrcoef] follows the steps of numpy.corrcoef.  [lstsq_slope] stands in
    for the slope of scipy.linalg.lstsq, whose LAPACK solver is not
    reproduced: its result differs from the stand-in's in the last bits. *)

Module Reference.

Definition crop (A : Type) (im : image) (shp : list nat) (a : list A)
    : crop_result (list A) :=
  if (length a <? pixel_count im)%nat then CropValueError
  else Cropped (firstn (pixel_count im) a).

Definition objects_crop (A : Type) (objs : objects) (shp : list nat) (a : list A)
    : crop_result (list A) :=
  if (length a <? length (segmented objs))%nat then CropValueError
  else Cropped (firstn (length (segmented objs)) a).

Definition resize (A : Type) (lab : list Z) (shp : list nat) (a : list A)
    : list A * list bool :=
  (firstn (length lab) a, repeat true (Nat.min (length lab) (length a))).

Definition clip (r : float) : float :=
  if 1 <? r then 1 else if r <? -1 then -1 else r.

(** Pearson's coefficient: the sum of the products of the deviations over
    the root of the product of their sums of squares, clipped to [-1, 1];
    it takes at least two samples. *)
Definition pearson (xs ys : list float) : float :=
  let xm := map (fun x => x - NumPy.mean xs) xs in
  let ym := map (fun y => y - NumPy.mean ys) ys in
  clip (NumPy.sum (NumPy.map2 PrimFloat.mul xm ym)
        / sqrt (NumPy.sum (map sq xm) * NumPy.sum (map sq ym))).

Definition pearsonr (xs ys : list float) : pearson_result :=
  if (length xs <? 2)%nat then ValueError else PearsonR (pearson xs ys).

(** [numpy.corrcoef((xs, ys))[1, 0]]: the covariance matrix of the centred
    samples, scaled by [1 / (n - 1)], its entry divided by the standard
    deviation of [ys] and then by that of [xs], and clipped to [-1, 1]. *)
Definition corrcoef (xs ys : list float) : float :=
  let xm := map (fun x => x - NumPy.mean xs) xs in
  let ym := map (fun y => y - NumPy.mean ys) ys in
  let fact := 1 / NumPy.Z2F (Z.max (Z.of_nat (length xs) - 1) 0) in
  let c10 := NumPy.sum (NumPy.map2 PrimFloat.mul ym xm) * fact in
  let d0 := NumPy.sum (map sq xm) * fact in
  let d1 := NumPy.sum (map sq ym) * fact in
  clip (c10 / sqrt d1 / sqrt d0).

(** The slope of the least-squares line [A * fi + B = si] by the normal
    equations and, for a constant [fi], of the solution of least norm;
    [None] on an entry that is not finite, where scipy.linalg.lstsq raises
    [ValueError]. *)
Definition lstsq_slope (fi si : list float) : option float :=
  if forallb PrimFloat.is_finite fi && forallb PrimFloat.is_finite si then
    let xm := map (fun x => x - NumPy.mean fi) fi in
    let ym := map (fun y => y - NumPy.mean si) si in
    let sxx := NumPy.sum (map sq xm) in
    if sxx =? 0 then
      let c := NumPy.mean fi in
      Some (c * NumPy.mean si / (c * c + 1))
    else Some (NumPy.sum (NumPy.map2 PrimFloat.mul xm ym) / sxx)
  else None.

Definition lib : library :=
  Library crop objects_crop resize corrcoef lstsq_slope pearsonr.

End Reference.

(** ** Dense ranks, as the specification words them *)

(** Whether some entry of [xs] equals [x]. *)
Definition occurs (x : float) (xs : list float) : bool :=
  existsb (fun y => y =? x) xs.

(** The number of distinct values of an array. *)
Fixpoint distinct (xs : list float) : nat :=
  match xs with
  | [] => O
  | x :: xs' => if occurs x xs' then distinct xs' else S (distinct xs')
  end.

(** The number of distinct values of [xs] strictly smaller than [x]. *)
Definition distinct_below (x : float) (xs : list float) : nat :=
  distinct (filter (fun y => y <? x) xs).

(** The dense ranks of an array. *)
Definition dense_ranks (xs : list float) : list Z :=
  map (fun x => Z.of_nat (distinct_below x xs)) xs.

(** An array of [n] entries, [x] everywhere but [y] at index [j]. *)
Definition spike {A} (x y : A) (n j : nat) : list A :=
  repeat x j ++ y :: repeat x (n - S j).

(** ** The measurements of the selected families

    Every per-object measurement of a selected family is recorded with the
    value [v]. *)
Definition every_metric_is (s : settings) (f g : string) (v : list float)
    (recorded : list (string * list float)) : Prop :=
  (do_corr_and_slope s = true -> In (F_CORRELATION_FORMAT f g, v) recorded)
  /\ (do_manders s = true ->
      In (F_MANDERS_FORMAT f g, v) recorded /\ In (F_MANDERS_FORMAT g f, v) recorded)
  /\ (do_rwc s = true ->
      In (F_RWC_FORMAT f g, v) recorded /\ In (F_RWC_FORMAT g f, v) recorded)
  /\ (do_overlap s = true ->
      In (F_OVERLAP_FORMAT f g, v) recorded
      /\ In (F_K_FORMAT f g, v) recorded /\ In (F_K_FORMAT g f, v) recorded)
  /\ (do_costes s = true ->
      In (F_COSTES_FORMAT f g, v) recorded /\ In (F_COSTES_FORMAT g f, v) recorded).

(** ** Predicates on floats used in the statements *)

Definition notnan (x : float) : Prop := PrimFloat.is_nan x = false.

(** [x <= y] for floats that are not NaN. *)
Definition fle (x y : float) : Prop := (y <? x) = false.

Definition finite_nonzero (x : float) : bool :=
  PrimFloat.is_finite x && negb (PrimFloat.is_zero x).

(** NaN on the specification side of a float. *)
Definition sf_nan (x : spec_float) : bool :=
  match x with S754_nan => true | _ => false end.

(** ** The module: its settings and what it declares

    The settings object of [MeasureColocalization] as a record: the image
    and object groups, the choice of where to measure, and the threshold and
    metric flags.  A [HiddenCount] setting is the length of the list of
    groups it counts. *)

(** The constants of [cellprofiler.measurement] and [cellprofiler.setting]
    the module refers to. *)
Record constants : Type := Constants {
  IMAGE : string;
  COLTYPE_FLOAT : string;
  NONE : string
}.

Definition M_IMAGES : string := "Across entire image".
Definition M_OBJECTS : string := "Within objects".
Definition M_IMAGES_AND_OBJECTS : string := "Both".

(** The exceptions the settings code raises. *)
Inductive exception : Type :=
| ExcValueError
| ExcIndexError
| ExcNotImplementedError.

Inductive outcome (A : Type) : Type :=
| Returned (a : A)
| Raised (e : exception).

Arguments Returned {A} a.
Arguments Raised {A} e.

(** A group of [image_groups]: the image name and which of the optional
    entries (dividers, remove button) the group holds. *)
Record image_group : Type := ImageGroup {
  ig_divider : bool;
  image_name : string;
  ig_extra_divider : bool;
  ig_remover : bool
}.

Record object_group : Type := ObjectGroup {
  og_divider : bool;
  object_name : string;
  og_remover : bool
}.

Record module_settings : Type := ModuleSettings {
  image_groups : list image_group;
  object_groups : list object_group;
  images_or_objects : string;
  do_all : bool;
  metrics : settings
}.

Definition image_count (m : module_settings) : nat := length (image_groups m).
Definition object_count (m : module_settings) : nat := length (object_groups m).

(** [add_image] (lines 227-258). *)
Definition add_image (K : constants) (can_delete : bool) (m : module_settings)
    : module_settings :=
  let group :=
    ImageGroup can_delete (NONE K) (length (image_groups m) =? 0)%nat can_delete in
  ModuleSettings (image_groups m ++ [group]) (object_groups m)
                 (images_or_objects m) (do_all m) (metrics m).

(** [add_object] (lines 260-285). *)
Definition add_object (K : constants) (can_delete : bool) (m : module_settings)
    : module_settings :=
  let group := ObjectGroup can_delete (NONE K) can_delete in
  ModuleSettings (image_groups m) (object_groups m ++ [group])
                 (images_or_objects m) (do_all m) (metrics m).

(** [create_settings] (lines 115-225): two images and one object, none of
    them removable, a threshold of 15 percent and every metric selected. *)
Definition create_settings (K : constants) : module_settings :=
  add_object K false
    (add_image K false
       (add_image K false
          (ModuleSettings [] [] M_IMAGES true
             (Settings 15 true true true true true)))).

(** The value of a setting, as [settings()] lists them. *)
Inductive setting : Type :=
| CountSetting (n : nat)
| NameSetting (name : string)
| FloatSetting (x : float)
| ChoiceSetting (choice : string)
| BinarySetting (b : bool).

(** [settings] (lines 287-302). *)
Definition settings_of (m : module_settings) : list setting :=
  [CountSetting (image_count m); CountSetting (object_count m)]
  ++ map (fun g => NameSetting (image_name g)) (image_groups m)
  ++ [FloatSetting (thr (metrics m))]
  ++ [ChoiceSetting (images_or_objects m)]
  ++ map (fun g => NameSetting (object_name g)) (object_groups m)
  ++ [BinarySetting (do_all m);
      BinarySetting (do_corr_and_slope (metrics m));
      BinarySetting (do_manders (metrics m));
      BinarySetting (do_rwc (metrics m));
      BinarySetting (do_overlap (metrics m));
      BinarySetting (do_costes (metrics m))].

(** [help_settings] (lines 347-356): it shows the first image and the
    first object group, and indexing an empty list raises. *)
Definition help_settings (m : module_settings) : outcome (list setting) :=
  match nth_error (image_groups m) 0 with
  | None => Raised ExcIndexError
  | Some image_group0 =>
      match nth_error (object_groups m) 0 with
      | None => Raised ExcIndexError
      | Some object_group0 =>
          Returned [ChoiceSetting (images_or_objects m);
                    FloatSetting (thr (metrics m));
                    NameSetting (image_name image_group0);
                    NameSetting (object_name object_group0);
                    BinarySetting (do_all m)]
      end
  end.

(** The index a Python slice [l[k:]] or [l[:k]] starts or stops at: a
    negative [k] counts from the end, and the index is clipped to the list. *)
Definition slice_index {A} (l : list A) (k : Z) : nat :=
  Z.to_nat (if (k <? 0)%Z then Z.max 0 (k + Z.of_nat (length l)) else k).

Definition slice_to {A} (l : list A) (k : Z) : list A := firstn (slice_index l k) l.
Definition slice_from {A} (l : list A) (k : Z) : list A := skipn (slice_index l k) l.

(** [while len(self.image_groups) < image_count: self.add_image()]. *)
Fixpoint add_images_while (K : constants) (fuel : nat) (image_count : Z)
    (m : module_settings) : module_settings :=
  match fuel with
  | O => m
  | S fuel' =>
      if (Z.of_nat (length (image_groups m)) <? image_count)%Z
      then add_images_while K fuel' image_count (add_image K true m)
      else m
  end.

Fixpoint add_objects_while (K : constants) (fuel : nat) (object_count : Z)
    (m : module_settings) : module_settings :=
  match fuel with
  | O => m
  | S fuel' =>
      if (Z.of_nat (length (object_groups m)) <? object_count)%Z
      then add_objects_while K fuel' object_count (add_object K true m)
      else m
  end.

(** [prepare_settings] (lines 304-320); [int] is Python's conversion of a
    setting value to an integer, [None] when it raises [ValueError].  The two
    loops add one group per iteration, so [image_count] and [object_count]
    iterations are enough. *)
Definition prepare_settings (K : constants) (int : string -> option Z)
    (setting_values : list string) (m : module_settings)
    : outcome module_settings :=
  match nth_error setting_values 0 with
  | None => Raised ExcIndexError
  | Some v0 =>
      match int v0 with
      | None => Raised ExcValueError
      | Some image_count =>
          match nth_error setting_values 1 with
          | None => Raised ExcIndexError
          | Some v1 =>
              match int v1 with
              | None => Raised ExcValueError
              | Some object_count =>
                  if (image_count <? 2)%Z then Raised ExcValueError
                  else
                    let m1 :=
                      ModuleSettings (slice_to (image_groups m) image_count)
                        (object_groups m) (images_or_objects m) (do_all m)
                        (metrics m) in
                    let m2 := add_images_while K (Z.to_nat image_count) image_count m1 in
                    let m3 :=
                      ModuleSettings (image_groups m2)
                        (slice_to (object_groups m2) object_count)
                        (images_or_objects m2) (do_all m2) (metrics m2) in
                    Returned (add_objects_while K (Z.to_nat object_count)
                                object_count m3)
              end
          end
      end
  end.

(** [get_image_pairs] (lines 358-368): the pairs [(i, j)] with [i < j], in
    the order of the two loops. *)
Definition get_image_pairs (m : module_settings) : list (string * string) :=
  let name i := image_name (nth i (image_groups m) (ImageGroup false "" false false)) in
  flat_map
    (fun i => map (fun j => (name i, name j))
                  (seq (i + 1) (image_count m - (i + 1))))
    (seq 0 (image_count m - 1)).

(** [wants_images] and [wants_objects] (lines 370-376). *)
Definition wants_images (m : module_settings) : bool :=
  String.eqb (images_or_objects m) M_IMAGES
  || String.eqb (images_or_objects m) M_IMAGES_AND_OBJECTS.

Definition wants_objects (m : module_settings) : bool :=
  String.eqb (images_or_objects m) M_OBJECTS
  || String.eqb (images_or_objects m) M_IMAGES_AND_OBJECTS.

(** The workspace: the images and the objects by name ([None] makes the
    lookup raise). *)
Record workspace : Type := Workspace {
  image_set : string -> option image;
  object_set : string -> option objects
}.

(** The value of a measurement added to the workspace: a number for an
    image, one number per object for objects. *)
Inductive measured : Type :=
| Scalar (x : float)
| PerObject (v : list float).

(** A measurement added to the workspace: the object name ([IMAGE] for an
    image measurement), the feature name and the value. *)
Definition measurement : Type := (string * string * measured)%type.

(** [run_image_pair_images] from the workspace (lines 407-411): the images
    are looked up by name. *)
Definition run_images (K : constants) (L : library) (s : settings) (fuel : nat)
    (w : workspace) (first_image_name second_image_name : string)
    : option (list row * list measurement) :=
  first_image <- image_set w first_image_name ;;
  second_image <- image_set w second_image_name ;;
  '(rows, recorded) <-
    run_image_pair_images L s fuel first_image_name second_image_name
      first_image second_image ;;
  Some (rows, map (fun nv => (IMAGE K, fst nv, Scalar (snd nv))) recorded).

(** [run_image_pair_objects] from the workspace (lines 686-699). *)
Definition run_objects (L : library) (s : settings) (fuel : nat)
    (w : workspace) (first_image_name second_image_name object_name : string)
    : option (list row * list measurement) :=
  first_image <- image_set w first_image_name ;;
  second_image <- image_set w second_image_name ;;
  objs <- object_set w object_name ;;
  '(rows, recorded) <-
    run_image_pair_objects L s fuel first_image_name second_image_name
      object_name first_image second_image objs ;;
  Some (rows, map (fun nv => (object_name, fst nv, PerObject (snd nv))) recorded).

(** [statistics += f(x)] for each [x] of a list, where [f] also records
    measurements and may raise. *)
Fixpoint for_each {A} (f : A -> option (list row * list measurement))
    (xs : list A) : option (list row * list measurement) :=
  match xs with
  | [] => Some ([], [])
  | x :: xs' =>
      '(rows, recorded) <- f x ;;
      '(rows', recorded') <- for_each f xs' ;;
      Some (rows ++ rows', recorded ++ recorded')
  end.

(** The body of the loop of [run] over the image pairs. *)
Definition run_pair (K : constants) (L : library) (m : module_settings)
    (fuel : nat) (w : workspace) (pair : string * string)
    : option (list row * list measurement) :=
  let '(first_image_name, second_image_name) := pair in
  '(rows, recorded) <-
    (if wants_images m
     then run_images K L (metrics m) fuel w first_image_name second_image_name
     else Some ([], [])) ;;
  '(rows', recorded') <-
    (if wants_objects m
     then for_each (run_objects L (metrics m) fuel w first_image_name
                      second_image_name)
                   (map object_name (object_groups m))
     else Some ([], [])) ;;
  Some (rows ++ rows', recorded ++ recorded').

(** [run] (lines 378-396): the statistics table and the measurements added
    to the workspace, in order. *)
Definition run (K : constants) (L : library) (m : module_settings) (fuel : nat)
    (w : workspace) : option (list row * list measurement) :=
  for_each (run_pair K L m fuel w) (get_image_pairs m).

(** A column definition: the object name, the feature name and the type. *)
Definition column : Type := (string * string * string)%type.

(** The columns of one image pair for one object name; [slope] tells the
    image columns, which have the slope, from the object ones. *)
Definition pair_columns (K : constants) (s : settings) (slope : bool)
    (name first_image second_image : string) : list column :=
  (if do_corr_and_slope s
   then (name, F_CORRELATION_FORMAT first_image second_image, COLTYPE_FLOAT K)
        :: (if slope
            then [(name, F_SLOPE_FORMAT first_image second_image, COLTYPE_FLOAT K)]
            else [])
   else [])
  ++ (if do_overlap s
      then [(name, F_OVERLAP_FORMAT first_image second_image, COLTYPE_FLOAT K);
            (name, F_K_FORMAT first_image second_image, COLTYPE_FLOAT K);
            (name, F_K_FORMAT second_image first_image, COLTYPE_FLOAT K)]
      else [])
  ++ (if do_manders s
      then [(name, F_MANDERS_FORMAT first_image second_image, COLTYPE_FLOAT K);
            (name, F_MANDERS_FORMAT second_image first_image, COLTYPE_FLOAT K)]
      else [])
  ++ (if do_rwc s
      then [(name, F_RWC_FORMAT first_image second_image, COLTYPE_FLOAT K);
            (name, F_RWC_FORMAT second_image first_image, COLTYPE_FLOAT K)]
      else [])
  ++ (if do_costes s
      then [(name, F_COSTES_FORMAT first_image second_image, COLTYPE_FLOAT K);
            (name, F_COSTES_FORMAT second_image first_image, COLTYPE_FLOAT K)]
      else []).

(** [get_measurement_columns] (lines 1330-1475). *)
Definition get_measurement_columns (K : constants) (m : module_settings)
    : list column :=
  let name i := object_name (nth i (object_groups m) (ObjectGroup false "" false)) in
  flat_map
    (fun pair : string * string =>
       let '(first_image, second_image) := pair in
       (if wants_images m
        then pair_columns K (metrics m) true (IMAGE K) first_image second_image
        else [])
       ++ (if wants_objects m
           then flat_map
                  (fun i => pair_columns K (metrics m) false (name i)
                              first_image second_image)
                  (seq 0 (object_count m))
           else []))
    (get_image_pairs m).

(** [x in xs] for strings. *)
Definition str_in (x : string) (xs : list string) : bool :=
  existsb (String.eqb x) xs.

(** [get_categories] (lines 1477-1488). *)
Definition get_categories (K : constants) (m : module_settings)
    (object_name' : string) : list string :=
  if (String.eqb object_name' (IMAGE K) && wants_images m)
     || (negb (String.eqb object_name' (IMAGE K))
         && wants_objects m
         && str_in object_name' (map object_name (object_groups m)))
  then ["Correlation"]
  else [].

(** [get_measurements] (lines 1490-1507). *)
Definition get_measurements (K : constants) (m : module_settings)
    (object_name' category : string) : list string :=
  if list_eq_dec string_dec (get_categories K m object_name') [category] then
    (if do_corr_and_slope (metrics m)
     then if String.eqb object_name' (IMAGE K)
          then ["Correlation"; "Slope"]
          else ["Correlation"]
     else [])
    ++ (if do_overlap (metrics m) then ["Overlap"; "K"] else [])
    ++ (if do_manders (metrics m) then ["Manders"] else [])
    ++ (if do_rwc (metrics m) then ["RWC"] else [])
    ++ (if do_costes (metrics m) then ["Costes"] else [])
  else [].

(** [get_measurement_images] (lines 1509-1518). *)
Definition get_measurement_images (K : constants) (m : module_settings)
    (object_name' category measurement' : string) : list string :=
  if str_in measurement' (get_measurements K m object_name' category) then
    flat_map
      (fun pair : string * string =>
         let '(i1, i2) := pair in
         String.append i1 (String.append "_" i2)
         :: (if str_in measurement' ["K"; "Manders"; "RWC"; "Costes"]
             then [String.append i2 (String.append "_" i1)]
             else []))
      (get_image_pairs m)
  else [].

(** [upgrade_settings] (lines 1520-1542). *)
Definition upgrade_settings (int : string -> option Z)
    (setting_values : list string) (variable_revision_number : Z)
    (from_matlab : bool) : outcome (list string * Z * bool) :=
  if from_matlab then Raised ExcNotImplementedError
  else if (variable_revision_number <? 2)%Z then Raised ExcNotImplementedError
  else if (variable_revision_number =? 2)%Z then
    match nth_error setting_values 0 with
    | None => Raised ExcIndexError
    | Some v0 =>
        match int v0 with
        | None => Raised ExcValueError
        | Some image_count =>
            let idx_thr := (image_count + 2)%Z in
            Returned (slice_to setting_values idx_thr ++ ["15.0"]
                      ++ slice_from setting_values idx_thr,
                      3%Z, from_matlab)
        end
    end
  else Returned (setting_values, variable_revision_number, from_matlab).

(** Python's [int] on a string of decimal digits with an optional minus
    sign, to run the settings code on concrete values. *)
Fixpoint int_digits (s : string) (acc : Z) : option Z :=
  match s with
  | EmptyString => Some acc
  | String c s' =>
      let d := (Z.of_N (Ascii.N_of_ascii c) - 48)%Z in
      if ((0 <=? d) && (d <=? 9))%Z then int_digits s' (10 * acc + d)%Z else None
  end.

Definition int_decimal (s : string) : option Z :=
  match s with
  | EmptyString => None
  | String c s' =>
      if N.eqb (Ascii.N_of_ascii c) 45 then
        match s' with
        | EmptyString => None
        | _ => option_map Z.opp (int_digits s' 0)
        end
      else int_digits s 0
  end.

(** An instance of the constants, to run the code on concrete values. *)
Definition cellprofiler_constants : constants :=
  Constants "Image" "float" "None".

(** ** A module and a workspace to run the code on *)

Module Example.

Definition DNA : image :=
  Image [1; 4]%nat NumPy.float64 [0.125; 0.5; 1; 0.25] [true; true; true; true].
Definition Actin : image :=
  Image [1; 4]%nat NumPy.float32 [0.25; 0.375; 0.75; 0.125] [true; true; true; true].
Definition Nuclei : objects := Objects [1; 1; 2; 2]%Z 2.

(** Two images and one object set, measured across the images and within
    the objects, every metric selected. *)
Definition both : module_settings :=
  ModuleSettings
    [ImageGroup false "DNA" true false; ImageGroup false "Actin" false false]
    [ObjectGroup false "Nuclei" false]
    M_IMAGES_AND_OBJECTS true (Settings 15 true true true true true).

(** The same module measuring across the images only. *)
Definition images_only : module_settings :=
  ModuleSettings (image_groups both) (object_groups both) M_IMAGES true
                 (metrics both).

Definition images_and_objects : workspace :=
  Workspace
    (fun name => if String.eqb name "DNA" then Some DNA
                 else if String.eqb name "Actin" then Some Actin
                 else None)
    (fun name => if String.eqb name "Nuclei" then Some Nuclei else None).

End Example.

(** * Properties *)

(** ** Facts about binary64 arithmetic *)

Module F64.

(** Comparison on the specification side *)

Lemma SFcompare_nan x y :
  SFcompare x y = None <-> sf_nan x = true \/ sf_nan y = true.
Proof.
  destruct x as [ | [] | | [] ? ?], y as [ | [] | | [] ? ?]; simpl;
    split; intros H; try discriminate; auto;
    destruct H; discriminate.
Qed.

Lemma SFcompare_refl x : sf_nan x = false -> SFcompare x x = Some Eq.
Proof.
  destruct x as [ | [] | | [] m e]; simpl; try discriminate; auto;
  intros _; rewrite Z.compare_refl, Pos.compare_cont_refl; reflexivity.
Qed.

Lemma SFcompare_antisym x y :
  SFcompare y x = option_map CompOpp (SFcompare x y).
Proof.
  destruct x as [ | [] | | [] m e], y as [ | [] | | [] m' e']; simpl; auto;
  rewrite (Z.compare_antisym e e'); destruct (e ?= e')%Z; simpl; auto;
  change (Pos.compare_cont Eq m' m) with (Pos.compare m' m);
  change (Pos.compare_cont Eq m m') with (Pos.compare m m');
  rewrite (Pos.compare_antisym m m'); destruct (m ?= m')%positive; auto.
Qed.

Lemma SFcompare_lt_trans x y z :
  SFcompare x y = Some Lt -> SFcompare y z = Some Lt -> SFcompare x z = Some Lt.
Proof.
  destruct x as [ | [] | | [] m e], y as [ | [] | | [] m' e'],
           z as [ | [] | | [] m'' e'']; simpl; try discriminate; auto;
  change (Pos.compare_cont Eq) with Pos.compare;
  destruct (Z.compare_spec e e'), (Z.compare_spec e' e''), (Z.compare_spec e e'');
    try discriminate; try lia; auto; subst;
  destruct (Pos.compare_spec m m'), (Pos.compare_spec m' m''), (Pos.compare_spec m m'');
    simpl; try discriminate; try lia; auto.
Qed.

Lemma SFcompare_eq_l x y z :
  SFcompare x y = Some Eq -> SFcompare x z = SFcompare y z.
Proof.
  destruct x as [ | [] | | [] m e], y as [ | [] | | [] m' e'],
           z as [ | [] | | [] m'' e'']; simpl; try discriminate; auto;
  change (Pos.compare_cont Eq) with Pos.compare;
  destruct (Z.compare_spec e e'); try discriminate; subst;
  destruct (Pos.compare_spec m m'); simpl; try discriminate; subst; auto.
Qed.

Lemma SFcompare_eq_r x y z :
  SFcompare x y = Some Eq -> SFcompare z x = SFcompare z y.
Proof.
  intros H. rewrite (SFcompare_antisym x z), (SFcompare_antisym y z).
  now rewrite (SFcompare_eq_l x y z H).
Qed.

(** Comparison of binary64 floats *)
Lemma is_nan_spec x : PrimFloat.is_nan x = sf_nan (Prim2SF x).
Proof.
  unfold PrimFloat.is_nan. rewrite eqb_spec. unfold SFeqb.
  destruct (sf_nan (Prim2SF x)) eqn:E.
  - assert (H : SFcompare (Prim2SF x) (Prim2SF x) = None)
      by (apply SFcompare_nan; auto).
    now rewrite H.
  - now rewrite SFcompare_refl.
Qed.

Lemma ltb_irrefl x : (x <? x) = false.
Proof.
  rewrite ltb_spec. unfold SFltb.
  destruct (sf_nan (Prim2SF x)) eqn:E.
  - assert (H : SFcompare (Prim2SF x) (Prim2SF x) = None)
      by (apply SFcompare_nan; auto).
    now rewrite H.
  - now rewrite SFcompare_refl.
Qed.

Lemma ltb_asym x y : (x <? y) = true -> (y <? x) = false.
Proof.
  rewrite !ltb_spec. unfold SFltb. rewrite (SFcompare_antisym (Prim2SF x) (Prim2SF y)).
  destruct (SFcompare (Prim2SF x) (Prim2SF y)) as [[]|]; simpl; auto; discriminate.
Qed.

Lemma ltb_trans x y z : (x <? y) = true -> (y <? z) = true -> (x <? z) = true.
Proof.
  rewrite !ltb_spec. unfold SFltb. intros H1 H2.
  rewrite (SFcompare_lt_trans (Prim2SF x) (Prim2SF y) (Prim2SF z)); auto.
  - destruct (SFcompare (Prim2SF x) (Prim2SF y)) as [[]|]; auto; discriminate.
  - destruct (SFcompare (Prim2SF y) (Prim2SF z)) as [[]|]; auto; discriminate.
Qed.

Lemma leb_ltb_eqb x y : (x <=? y) = (x <? y) || (x =? y).
Proof.
  rewrite leb_spec, ltb_spec, eqb_spec. unfold SFleb, SFltb, SFeqb.
  destruct (SFcompare (Prim2SF x) (Prim2SF y)) as [[]|]; reflexivity.
Qed.

Lemma ltb_eqb_excl x y : (x <? y) && (x =? y) = false.
Proof.
  rewrite ltb_spec, eqb_spec. unfold SFltb, SFeqb.
  destruct (SFcompare (Prim2SF x) (Prim2SF y)) as [[]|]; reflexivity.
Qed.

Lemma eqb_sym x y : (x =? y) = (y =? x).
Proof.
  rewrite !eqb_spec. unfold SFeqb. rewrite (SFcompare_antisym (Prim2SF x)).
  destruct (SFcompare (Prim2SF x) (Prim2SF y)) as [[]|]; reflexivity.
Qed.

Lemma eqb_refl x : PrimFloat.is_nan x = false -> (x =? x) = true.
Proof. unfold PrimFloat.is_nan. now destruct (x =? x). Qed.

Lemma eqb_ltb_l x y z : (x =? y) = true -> (x <? z) = (y <? z).
Proof.
  rewrite !ltb_spec, eqb_spec. unfold SFltb, SFeqb. intros H.
  rewrite (SFcompare_eq_l (Prim2SF x) (Prim2SF y)); auto.
  destruct (SFcompare (Prim2SF x) (Prim2SF y)) as [[]|]; auto; discriminate.
Qed.

Lemma eqb_ltb_r x y z : (x =? y) = true -> (z <? x) = (z <? y).
Proof.
  rewrite !ltb_spec, eqb_spec. unfold SFltb, SFeqb. intros H.
  rewrite (SFcompare_eq_r (Prim2SF x) (Prim2SF y)); auto.
  destruct (SFcompare (Prim2SF x) (Prim2SF y)) as [[]|]; auto; discriminate.
Qed.

Lemma eqb_eqb_l x y z : (x =? y) = true -> (x =? z) = (y =? z).
Proof.
  rewrite !eqb_spec. unfold SFeqb. intros H.
  rewrite (SFcompare_eq_l (Prim2SF x) (Prim2SF y)); auto.
  destruct (SFcompare (Prim2SF x) (Prim2SF y)) as [[]|]; auto; discriminate.
Qed.

(** Two floats that are not NaN are ordered or equal. *)
Lemma trichotomy x y :
  PrimFloat.is_nan x = false -> PrimFloat.is_nan y = false ->
  (x =? y) = negb (x <? y) && negb (y <? x).
Proof.
  rewrite !is_nan_spec, !ltb_spec, eqb_spec. unfold SFltb, SFeqb. intros Hx Hy.
  rewrite (SFcompare_antisym (Prim2SF x) (Prim2SF y)).
  destruct (SFcompare (Prim2SF x) (Prim2SF y)) as [[]|] eqn:E; auto.
  apply SFcompare_nan in E. destruct E; congruence.
Qed.

Lemma ltb_nan_l x y : PrimFloat.is_nan x = true -> (x <? y) = false.
Proof.
  rewrite is_nan_spec, ltb_spec. unfold SFltb. intros H.
  assert (E : SFcompare (Prim2SF x) (Prim2SF y) = None) by (apply SFcompare_nan; auto).
  now rewrite E.
Qed.

Lemma ltb_nan_r x y : PrimFloat.is_nan y = true -> (x <? y) = false.
Proof.
  rewrite is_nan_spec, ltb_spec. unfold SFltb. intros H.
  assert (E : SFcompare (Prim2SF x) (Prim2SF y) = None) by (apply SFcompare_nan; auto).
  now rewrite E.
Qed.



Lemma finite_nonzero_spec x :
  finite_nonzero x = true -> exists s m e, Prim2SF x = S754_finite s m e.
Proof.
  unfold finite_nonzero, PrimFloat.is_finite, PrimFloat.is_zero, PrimFloat.is_infinity.
  rewrite is_nan_spec, !eqb_spec, abs_spec.
  destruct (Prim2SF x) as [ [] | [] | | s m e]; simpl; try discriminate; eauto.
Qed.

Lemma div_eucl_div_mod a b : Z.div_eucl a b = ((a / b)%Z, (a mod b)%Z).
Proof. unfold Z.div, Z.modulo. now destruct (Z.div_eucl a b). Qed.

Lemma SFdiv_self s m e :
  SF64div (S754_finite s m e) (S754_finite s m e)
  = S754_finite false 4503599627370496 (-52).
Proof.
  unfold SF64div, SFdiv.
  assert (E : SFdiv_core_binary prec emax (Z.pos m) e (Z.pos m) e
              = (9007199254740992%Z, (-53)%Z, SpecFloat.loc_Exact)).
  { unfold SFdiv_core_binary.
    replace (Zdigits2 (Z.pos m) + e - (Zdigits2 (Z.pos m) + e))%Z with 0%Z by lia.
    replace (e - e)%Z with 0%Z by lia.
    cbn -[Z.div_eucl Z.shiftl Z.mul Z.pow_pos Pos.iter].
    change IntDef.Z.div_eucl with Z.div_eucl.
    change IntDef.Z.shiftl with Z.shiftl.
    rewrite div_eucl_div_mod, Z.shiftl_mul_pow2 by lia.
    rewrite (Z.mul_comm (Z.pos m)), Z.div_mul, Z.mod_mul by lia.
    unfold new_location, new_location_even, new_location_odd.
    now destruct (IntDef.Z.even (Z.pos m)). }
  rewrite E. destruct s; reflexivity.
Qed.

(** A finite non-zero float divided by itself is exactly 1. *)
Lemma div_self x : finite_nonzero x = true -> x / x = 1.
Proof.
  intros H. destruct (finite_nonzero_spec x H) as (s & m & e & E).
  apply Prim2SF_inj. rewrite div_spec, E, SFdiv_self. reflexivity.
Qed.


Lemma SFmul_one s m e :
  valid_binary (S754_finite s m e) = true ->
  SF64mul (S754_finite s m e) (S754_finite false 4503599627370496 (-52))
  = S754_finite s m e.
Proof.
  simpl. unfold bounded, canonical_mantissa. intros H.
  apply andb_true_iff in H as [Hc Hb]. apply Z.eqb_eq in Hc.
  unfold SF64mul, SFmul. rewrite xorb_false_r.
  rewrite (Pos.mul_comm m).
  change (4503599627370496 * m)%positive
    with (Pos.iter xO m 52%positive).
  unfold binary_round_aux, shr_fexp.
  assert (D : (Zdigits2 (Z.pos (Pos.iter xO m 52)) + (e + -52)
               = Z.pos (digits2_pos m) + e)%Z).
  { cbn [Pos.iter Zdigits2 digits2_pos]. lia. }
  rewrite D, Hc.
  replace (e - (e + -52))%Z with 52%Z by lia.
  cbn [Pos.iter shr shr_record_of_loc SpecFloat.iter_pos shr_1 orb].
  cbn [shr_m loc_of_shr_record round_nearest_even Zdigits2].
  replace (e + -52 + 52)%Z with e by lia.
  rewrite Hc, Z.sub_diag. cbn [shr shr_m]. now rewrite Hb.
Qed.

(** Multiplying by 1.0 changes no float. *)
Lemma mul_one x : x * 1 = x.
Proof.
  apply Prim2SF_inj. rewrite mul_spec.
  change (Prim2SF 1) with (S754_finite false 4503599627370496 (-52)).
  pose proof (Prim2SF_valid x) as V.
  destruct (Prim2SF x) as [ [] | [] | | s m e] eqn:E; try reflexivity.
  now apply SFmul_one.
Qed.

Lemma finite_nonzero_intro x s m e :
  Prim2SF x = S754_finite s m e -> finite_nonzero x = true.
Proof.
  intros E.
  unfold finite_nonzero, PrimFloat.is_finite, PrimFloat.is_zero, PrimFloat.is_infinity.
  rewrite is_nan_spec, !eqb_spec, abs_spec, E.
  now destruct s.
Qed.

Lemma digits2_iter_xO m d :
  Z.pos (digits2_pos (Pos.iter xO m d)) = (Z.pos (digits2_pos m) + Z.pos d)%Z.
Proof.
  induction d as [|d IH] using Pos.peano_ind.
  - simpl. lia.
  - rewrite Pos.iter_succ. simpl digits2_pos.
    change (PosDef.Pos.succ ?p) with (Pos.succ p). lia.
Qed.

(** An integer in [1, 2^53) converts to a finite non-zero float. *)
Lemma Z2F_finite_nonzero z :
  (0 < z < 2 ^ 53)%Z -> finite_nonzero (NumPy.Z2F z) = true.
Proof.
  intros Hz. destruct z as [|p|p]; try lia.
  assert (Hd : (Z.pos (digits2_pos p) <= 53)%Z).
  { destruct (Z_le_gt_dec (Z.pos (digits2_pos p)) 53) as [|G]; auto.
    exfalso.
    assert (Hlow : (2 ^ (Z.pos (digits2_pos p) - 1) <= Z.pos p)%Z).
    { clear. induction p as [p IH|p IH|]; simpl digits2_pos;
        change (PosDef.Pos.succ ?q) with (Pos.succ q);
        rewrite ?Pos2Z.inj_succ; try reflexivity;
        replace (Z.succ (Z.pos (digits2_pos p)) - 1)%Z
          with (Z.succ (Z.pos (digits2_pos p) - 1)) by lia;
        rewrite Z.pow_succ_r by lia; lia. }
    assert ((2 ^ 53 <= 2 ^ (Z.pos (digits2_pos p) - 1))%Z)
      by (apply Z.pow_le_mono_r; lia).
    lia. }
  unfold NumPy.Z2F, binary_normalize, binary_round.
  assert (E : exists mz ez,
             shl_align p 0 (fexp prec emax (Z.pos (digits2_pos p) + 0)) = (mz, ez)
             /\ (Z.pos (digits2_pos mz) + ez = 53 + ez)%Z
             /\ (-52 <= ez <= 0)%Z).
  { unfold shl_align, fexp, SpecFloat.emin.
    change IntDef.Z.max with Z.max. change prec with 53%Z. change emax with 1024%Z.
    rewrite Z.add_0_r, Z.sub_0_r.
    rewrite Z.max_l by lia.
    destruct (Z.pos (digits2_pos p) - 53)%Z as [|q|q] eqn:Eq; try lia.
    - exists p, 0%Z. repeat split; lia.
    - exists (Pos.iter xO p q), (Z.neg q). split; [reflexivity|].
      rewrite digits2_iter_xO. lia. }
  destruct E as (mz & ez & -> & Hdz & Hez).
  assert (Hf : fexp prec emax (Z.pos (digits2_pos mz) + ez) = ez).
  { unfold fexp, SpecFloat.emin. change IntDef.Z.max with Z.max.
    change prec with 53%Z. change emax with 1024%Z.
    rewrite Z.max_l by lia. lia. }
  assert (R : binary_round_aux prec emax false (Z.pos mz) ez SpecFloat.loc_Exact
              = S754_finite false mz ez).
  { unfold binary_round_aux, shr_fexp.
    cbn [Zdigits2 shr_record_of_loc]. rewrite Hf, Z.sub_diag.
    cbn [shr shr_m loc_of_shr_record round_nearest_even Zdigits2].
    rewrite Hf, Z.sub_diag. cbn [shr shr_m].
    replace (ez <=? emax - prec)%Z with true; auto.
    symmetry. apply Z.leb_le. change (emax - prec)%Z with 971%Z. lia. }
  rewrite R.
  apply (finite_nonzero_intro _ false mz ez).
  apply Prim2SF_SF2Prim. simpl. unfold bounded, canonical_mantissa.
  rewrite Hf, Z.eqb_refl. simpl.
  apply Z.leb_le. change (emax - prec)%Z with 971%Z. lia.
Qed.

(** Shapes of a float on the specification side *)
Lemma eqb_zero_spec x : (x =? 0) = true -> exists s, Prim2SF x = S754_zero s.
Proof.
  rewrite eqb_spec. change (Prim2SF 0) with (S754_zero false).
  destruct (Prim2SF x) as [ s | [] | | [] m e]; simpl; try discriminate; eauto.
Qed.

Lemma is_finite_spec x :
  PrimFloat.is_finite x = true ->
  (exists s, Prim2SF x = S754_zero s) \/ (exists s m e, Prim2SF x = S754_finite s m e).
Proof.
  unfold PrimFloat.is_finite, PrimFloat.is_infinity.
  rewrite is_nan_spec, eqb_spec, abs_spec.
  destruct (Prim2SF x) as [ s | [] | | s m e]; simpl; try discriminate; eauto 6.
Qed.

Lemma is_infinity_spec x :
  PrimFloat.is_infinity x = true <-> exists s, Prim2SF x = S754_infinity s.
Proof.
  unfold PrimFloat.is_infinity. rewrite eqb_spec, abs_spec.
  destruct (Prim2SF x) as [ s | [] | | s m e]; simpl; split;
    try discriminate; eauto; intros [s' H]; discriminate.
Qed.

Lemma nan_or_inf_spec x :
  PrimFloat.is_nan x || PrimFloat.is_infinity x = true <->
  Prim2SF x = S754_nan \/ exists s, Prim2SF x = S754_infinity s.
Proof.
  unfold PrimFloat.is_infinity. rewrite is_nan_spec, eqb_spec, abs_spec.
  destruct (Prim2SF x) as [ s | [] | | s m e]; simpl; split;
    try discriminate; eauto; intros [H|[s' H]]; discriminate.
Qed.

(** Dividing by zero gives NaN or an infinity. *)
Lemma div_by_zero n d :
  (d =? 0) = true ->
  PrimFloat.is_nan (n / d) || PrimFloat.is_infinity (n / d) = true.
Proof.
  intros H. apply eqb_zero_spec in H as [s E].
  apply nan_or_inf_spec. rewrite div_spec, E.
  destruct (Prim2SF n) as [ s' | s' | | s' m e]; simpl; eauto.
Qed.

Lemma mul_zero_r x c :
  PrimFloat.is_finite x = true -> (c =? 0) = true -> (x * c =? 0) = true.
Proof.
  intros Hx Hc. apply eqb_zero_spec in Hc as [s E].
  rewrite eqb_spec, mul_spec, E.
  destruct (is_finite_spec x Hx) as [[s' ->]|(s' & m & e & ->)]; simpl; reflexivity.
Qed.

(** A line [a * i + b] with [b = ymean - a * xmean] whose slope is NaN or
    infinite has no value at a finite positive [i]. *)
Lemma degenerate_line a xmean ymean i :
  PrimFloat.is_nan a || PrimFloat.is_infinity a = true ->
  PrimFloat.is_finite xmean = true -> (xmean <? 0) = false ->
  PrimFloat.is_finite ymean = true ->
  PrimFloat.is_finite i = true -> (0 <? i) = true ->
  PrimFloat.is_nan (a * i + (ymean - a * xmean)) = true.
Proof.
  intros Ha Hx Hx0 Hy Hi Hi0.
  rewrite is_nan_spec, add_spec, sub_spec, !mul_spec.
  rewrite ltb_spec in Hx0, Hi0. change (Prim2SF 0) with (S754_zero false) in *.
  apply nan_or_inf_spec in Ha.
  destruct (is_finite_spec _ Hx) as [[sx Ex]|(sx & mx & ex & Ex)];
  destruct (is_finite_spec _ Hy) as [[sy Ey]|(sy & my & ey & Ey)];
  destruct (is_finite_spec _ Hi) as [[s_i Ei]|(s_i & m_i & e_i & Ei)];
  destruct Ha as [Ea|[sa Ea]];
  rewrite Ex, Ey, Ei, Ea in *; clear Ex Ey Ei Ea;
  try reflexivity; try discriminate;
  try (destruct sx; try discriminate); try (destruct s_i; try discriminate);
  destruct sa; try destruct sy; reflexivity.
Qed.

End F64.

(** ** Sorting *)


Lemma np_lt_notnan x y : notnan y -> NumPy.np_lt x y = (x <? y).
Proof.
  unfold notnan, NumPy.np_lt. intros ->. now rewrite andb_false_r, orb_false_r.
Qed.

Lemma np_lt_asym x y : NumPy.np_lt x y = true -> NumPy.np_lt y x = false.
Proof.
  unfold NumPy.np_lt. intros H.
  destruct (PrimFloat.is_nan x) eqn:Ex, (PrimFloat.is_nan y) eqn:Ey; simpl in *;
    rewrite ?orb_false_r, ?orb_true_r in *;
    try (rewrite F64.ltb_nan_l in H by auto; discriminate);
    try (apply F64.ltb_nan_l; assumption);
    try (apply F64.ltb_asym; assumption).
Qed.

Lemma fle_trans x y z : notnan x -> notnan y -> fle x y -> fle y z -> fle x z.
Proof.
  unfold fle, notnan. intros Hx Hy Hxy Hyz.
  destruct (z <? x) eqn:E; auto.
  pose proof (F64.trichotomy x y Hx Hy) as T. rewrite Hxy in T.
  destruct (x <? y) eqn:E1; simpl in T.
  - rewrite (F64.ltb_trans z x y E E1) in Hyz. discriminate.
  - rewrite <- (F64.eqb_ltb_r x y z T), E in Hyz. discriminate.
Qed.

(** *** Insertion sort *)
Section Sort.
Context {A : Type} (lt : A -> A -> bool).
Hypothesis lt_asym : forall x y, lt x y = true -> lt y x = false.

Lemma insert_by_perm x l : Permutation (NumPy.insert_by lt x l) (x :: l).
Proof.
  induction l as [|y l IH]; simpl; auto.
  destruct (lt y x); auto.
  rewrite IH. apply perm_swap.
Qed.

Lemma sort_by_perm l : Permutation (NumPy.sort_by lt l) l.
Proof.
  induction l as [|x l IH]; simpl; auto.
  rewrite insert_by_perm. now constructor.
Qed.

Lemma insert_by_sorted x l :
  Sorted (fun a b => lt b a = false) l ->
  Sorted (fun a b => lt b a = false) (NumPy.insert_by lt x l).
Proof.
  induction l as [|y l IH]; simpl; intros H.
  - repeat constructor.
  - destruct (lt y x) eqn:E.
    + inversion H as [|? ? Hs Hh]; subst. constructor; auto.
      destruct l as [|z l]; simpl.
      * constructor. now apply lt_asym.
      * destruct (lt z x); constructor.
        -- now inversion Hh.
        -- now apply lt_asym.
    + constructor; auto.
Qed.

Lemma sort_by_sorted l : Sorted (fun a b => lt b a = false) (NumPy.sort_by lt l).
Proof.
  induction l as [|x l IH]; simpl.
  - constructor.
  - now apply insert_by_sorted.
Qed.
End Sort.

Lemma Sorted_map {A B} (f : A -> B) (R : B -> B -> Prop) l :
  Sorted (fun a b => R (f a) (f b)) l -> Sorted R (map f l).
Proof.
  induction 1 as [|a l Hs IH Hh]; simpl; constructor; auto.
  destruct Hh; simpl; constructor; auto.
Qed.

Lemma Sorted_weaken {A} (R R' : A -> A -> Prop) l :
  (forall a b, R a b -> R' a b) -> Sorted R l -> Sorted R' l.
Proof.
  intros HR. induction 1 as [|a l Hs IH Hh]; constructor; auto.
  destruct Hh; constructor; auto.
Qed.

Lemma fle_strongly_sorted l :
  Forall notnan l -> Sorted fle l -> StronglySorted fle l.
Proof.
  induction l as [|a l IH]; intros Hn Hs; constructor;
    inversion Hn as [|? ? Ha Hl]; inversion Hs as [|? ? Hs' Hh]; subst.
  - auto.
  - specialize (IH Hl Hs'). clear Hs Hs' Hn.
    destruct l as [|b l]; constructor.
    + now inversion Hh.
    + inversion IH as [|? ? _ Hb]; subst. inversion Hh; subst.
      inversion Hl as [|? ? Hbn Hln]; subst.
      rewrite Forall_forall in *. intros c Hc.
      apply (fle_trans a b c); auto.
Qed.

(** *** Counting distinct values *)

Lemma occurs_In x l : occurs x l = true <-> exists y, In y l /\ (y =? x) = true.
Proof. unfold occurs. apply existsb_exists. Qed.

Lemma occurs_eqb x y l : (x =? y) = true -> occurs x l = occurs y l.
Proof.
  intros H. unfold occurs. induction l as [|z l IH]; simpl; auto.
  rewrite IH. f_equal.
  rewrite (F64.eqb_sym z x), (F64.eqb_sym z y). now apply F64.eqb_eqb_l.
Qed.

Lemma occurs_perm x l l' : Permutation l l' -> occurs x l = occurs x l'.
Proof.
  unfold occurs. induction 1; simpl; auto.
  - now rewrite IHPermutation.
  - now rewrite !orb_assoc, (orb_comm (y =? x)).
  - congruence.
Qed.

Lemma occurs_filter (P : float -> bool) x l :
  (forall y, In y l -> (y =? x) = true -> P y = true) ->
  occurs x (filter P l) = occurs x l.
Proof.
  unfold occurs. induction l as [|z l IH]; simpl; intros H; auto.
  destruct (P z) eqn:E; simpl.
  - rewrite IH; auto.
  - rewrite IH; auto.
    destruct (z =? x) eqn:Ez; auto.
    rewrite H in E; auto. discriminate.
Qed.

Lemma distinct_perm l l' : Permutation l l' -> distinct l = distinct l'.
Proof.
  induction 1 as [|x l l' Hp IH|x y l|l l' l'' _ IH1 _ IH2]; simpl; auto.
  - now rewrite (occurs_perm x l l' Hp), IH.
  - unfold occurs at 1 3. simpl. fold (occurs y l) (occurs x l).
    rewrite (F64.eqb_sym y x).
    destruct (x =? y) eqn:E; simpl.
    + now rewrite (occurs_eqb x y l E).
    + destruct (occurs x l), (occurs y l); reflexivity.
  - congruence.
Qed.

Lemma filter_perm {A} (f : A -> bool) l l' :
  Permutation l l' -> Permutation (filter f l) (filter f l').
Proof.
  induction 1; simpl; auto.
  - destruct (f x); auto.
  - destruct (f x), (f y); auto. apply perm_swap.
  - etransitivity; eauto.
Qed.

Lemma distinct_below_perm x l l' :
  Permutation l l' -> distinct_below x l = distinct_below x l'.
Proof. intros H. apply distinct_perm, filter_perm, H. Qed.

(** Widening the filter by one value that occurs adds one distinct value. *)
Lemma distinct_filter_split (P Q : float -> bool) c l :
  (forall y, In y l -> P y = Q y || (y =? c)) ->
  (forall y, In y l -> Q y = true -> (y =? c) = false) ->
  (forall y y', In y l -> In y' l -> (y =? y') = true -> Q y = Q y') ->
  distinct (filter P l)
  = (distinct (filter Q l) + if occurs c l then 1 else 0)%nat.
Proof.
  induction l as [|a l IH]; intros HP HQ HR; simpl; auto.
  assert (IH' : distinct (filter P l)
                = (distinct (filter Q l) + if occurs c l then 1 else 0)%nat).
  { apply IH; intros; [apply HP | apply HQ | apply HR]; simpl; auto. }
  clear IH.
  assert (HPR : forall y, In y l -> (y =? a) = true -> P y = P a).
  { intros y Hy E. rewrite !HP by (simpl; auto).
    rewrite (HR y a) by (simpl; auto). f_equal. now apply F64.eqb_eqb_l. }
  rewrite (HP a) by (simpl; auto).
  replace (occurs c (a :: l)) with ((a =? c) || occurs c l) by reflexivity.
  destruct (Q a) eqn:Ea; simpl.
  - rewrite (HQ a) by (simpl; auto). simpl.
    rewrite !occurs_filter.
    + destruct (occurs a l); lia.
    + intros y Hy E. rewrite (HR y a); simpl; auto.
    + intros y Hy E. rewrite (HPR y Hy E), HP, Ea; simpl; auto.
  - destruct (a =? c) eqn:Ec; simpl.
    + rewrite occurs_filter.
      * rewrite (occurs_eqb a c l Ec). destruct (occurs c l); lia.
      * intros y Hy E. rewrite (HPR y Hy E), HP, Ea, Ec; simpl; auto.
    + lia.
Qed.

Lemma StronglySorted_app_inv {A} (R : A -> A -> Prop) l1 l2 :
  StronglySorted R (l1 ++ l2) ->
  StronglySorted R l2 /\ forall x y, In x l1 -> In y l2 -> R x y.
Proof.
  induction l1 as [|a l1 IH]; simpl; intros H.
  - split; auto. intros x y [].
  - inversion H as [|? ? Hs Hf]; subst. destruct (IH Hs) as [H2 H12].
    split; auto. intros x y [->|Hx] Hy; auto.
    rewrite Forall_forall in Hf. apply Hf, in_or_app. now right.
Qed.

(** In a sorted array, the next position sees one more distinct smaller
    value exactly when it differs from its left neighbour. *)
Lemma distinct_below_next pre prev v rest l :
  l = pre ++ prev :: v :: rest ->
  Forall notnan l -> StronglySorted fle l ->
  Z.of_nat (distinct_below v l)
  = (Z.of_nat (distinct_below prev l) + if NumPy.neq prev v then 1 else 0)%Z.
Proof.
  intros El Hn Hs. rewrite Forall_forall in Hn.
  assert (Hprev : In prev l) by (subst; apply in_or_app; simpl; auto).
  assert (Hv : In v l) by (subst; apply in_or_app; simpl; auto).
  assert (Hs' := Hs). rewrite El in Hs'.
  apply StronglySorted_app_inv in Hs' as [Hs2 Hpre].
  inversion Hs2 as [|? ? Hs3 Hf]; subst. rewrite Forall_forall in Hf.
  inversion Hs3 as [|? ? _ Hf']; subst. rewrite Forall_forall in Hf'.
  set (l := pre ++ prev :: v :: rest) in *.
  assert (Hpv : fle prev v) by (apply Hf; simpl; auto).
  unfold NumPy.neq. destruct (prev =? v) eqn:E; simpl.
  - rewrite Z.add_0_r. f_equal. unfold distinct_below. f_equal.
    apply filter_ext. intros y. symmetry. now apply F64.eqb_ltb_r.
  - assert (Hlt : (prev <? v) = true).
    { pose proof (F64.trichotomy prev v (Hn _ Hprev) (Hn _ Hv)) as T.
      rewrite E, Hpv in T. now destruct (prev <? v). }
    unfold distinct_below.
    rewrite (distinct_filter_split (fun y => y <? v) (fun y => y <? prev) prev).
    + assert (Ho : occurs prev l = true).
      { apply occurs_In. exists prev. split; auto. apply F64.eqb_refl, Hn, Hprev. }
      rewrite Ho. lia.
    + intros y Hy.
      assert (Hcase : fle y prev \/ fle v y).
      { unfold l in Hy. apply in_app_or in Hy as [Hy|[<-|[<-|Hy]]].
        - left. apply Hpre; simpl; auto.
        - left. apply F64.ltb_irrefl.
        - right. apply F64.ltb_irrefl.
        - right. apply Hf'; auto. }
      destruct Hcase as [Hle|Hge]; unfold fle in *.
      * pose proof (F64.trichotomy y prev (Hn _ Hy) (Hn _ Hprev)) as T.
        rewrite Hle in T. simpl in T. rewrite andb_true_r in T. rewrite T.
        destruct (y <? prev) eqn:E1; simpl.
        -- now apply (F64.ltb_trans y prev v).
        -- simpl in T. now rewrite (F64.eqb_ltb_l y prev v T).
      * rewrite Hge. symmetry. apply orb_false_intro.
        -- destruct (y <? prev) eqn:E1; auto.
           rewrite (F64.ltb_trans y prev v E1 Hlt) in Hge. discriminate.
        -- destruct (y =? prev) eqn:E1; auto.
           rewrite (F64.eqb_ltb_l y prev v E1), Hlt in Hge. discriminate.
    + intros y _ Hy. pose proof (F64.ltb_eqb_excl y prev) as X.
      rewrite Hy in X. now destruct (y =? prev).
    + intros y y' _ _ Hy. now apply F64.eqb_ltb_l.
Qed.

Lemma distinct_below_head v rest :
  Forall notnan (v :: rest) -> StronglySorted fle (v :: rest) ->
  distinct_below v (v :: rest) = 0%nat.
Proof.
  intros Hn Hs. inversion Hs as [|? ? _ Hf]; subst.
  unfold distinct_below. simpl. rewrite F64.ltb_irrefl.
  induction Hf as [|y l Hy Hl IH]; simpl; auto.
  rewrite Hy. apply IH.
  - inversion Hn as [|? ? Hv Hr]; subst. inversion Hr; subst. now constructor.
  - inversion Hs as [|? ? Hs' Hf']; subst. inversion Hs'; subst.
    inversion Hf'; subst. now constructor.
Qed.

(** The running count of the sorted array is its dense rank. *)
Lemma cumsum_ranks rest : forall pre prev l,
  l = pre ++ prev :: rest ->
  Forall notnan l -> StronglySorted fle l ->
  NumPy.cumsum_from (Z.of_nat (distinct_below prev l))
    (NumPy.map2 NumPy.neq (removelast (prev :: rest)) rest)
  = map (fun v => Z.of_nat (distinct_below v l)) rest.
Proof.
  induction rest as [|v rest IH]; intros pre prev l El Hn Hs.
  - reflexivity.
  - change (removelast (prev :: v :: rest)) with (prev :: removelast (v :: rest)).
    simpl NumPy.map2. simpl NumPy.cumsum_from.
    rewrite <- (distinct_below_next pre prev v rest l El Hn Hs).
    simpl map. f_equal.
    apply (IH (pre ++ [prev])); auto.
    now rewrite <- app_assoc.
Qed.

(** *** Writing the ranks back *)

Lemma set_nth_length {A} i (v : A) l : length (NumPy.set_nth i v l) = length l.
Proof.
  revert i. induction l as [|x l IH]; intros [|i]; simpl; auto.
Qed.

Lemma nth_set_nth {A} i j (v d : A) l :
  (i < length l)%nat ->
  nth j (NumPy.set_nth i v l) d = if (j =? i)%nat then v else nth j l d.
Proof.
  revert i j. induction l as [|x l IH]; intros [|i] [|j] H; simpl in *;
    try lia; auto.
  apply IH. lia.
Qed.

Lemma scatter_length {A} (l : list A) idx vals :
  length (NumPy.scatter l idx vals) = length l.
Proof.
  unfold NumPy.scatter. revert l vals.
  induction idx as [|i idx IH]; intros l [|v vals]; simpl; auto.
  now rewrite IH, set_nth_length.
Qed.

Lemma nth_scatter {A} (h : nat -> A) idx : forall l j d,
  Forall (fun i => (i < length l)%nat) idx ->
  nth j (NumPy.scatter l idx (map h idx)) d
  = if existsb (Nat.eqb j) idx then h j else nth j l d.
Proof.
  unfold NumPy.scatter.
  induction idx as [|i idx IH]; intros l j d Hi; simpl; auto.
  inversion Hi as [|? ? Hlt Hrest]; subst.
  rewrite IH.
  - rewrite nth_set_nth by auto.
    destruct (j =? i)%nat eqn:E; simpl.
    + apply Nat.eqb_eq in E. subst. now destruct (existsb (Nat.eqb i) idx).
    + reflexivity.
  - rewrite set_nth_length. auto.
Qed.

Lemma take_seq a : NumPy.take a (seq 0 (length a)) = a.
Proof.
  unfold NumPy.take. apply nth_ext with (d := nan) (d' := nan).
  - now rewrite length_map, length_seq.
  - intros n Hn. rewrite length_map, length_seq in Hn.
    rewrite (nth_indep _ nan (nth 0 a nan)) by (now rewrite length_map, length_seq).
    rewrite (map_nth (fun i => nth i a nan) (seq 0 (length a)) 0%nat n).
    now rewrite seq_nth.
Qed.

Lemma removelast_map {A B} (f : A -> B) l :
  removelast (map f l) = map f (removelast l).
Proof.
  induction l as [|x [|y l] IH]; simpl in *; auto. now rewrite IH.
Qed.

(** The rank image of an array without NaN, for any permutation that sorts
    it, is the array of its dense ranks. *)
Theorem rank_image_dense a Rank :
  Forall notnan a ->
  Permutation Rank (seq 0 (length a)) ->
  Sorted fle (NumPy.take a Rank) ->
  rank_image a Rank = dense_ranks a.
Proof.
  intros Hn Hp Hs.
  assert (Hpa : Permutation (NumPy.take a Rank) a).
  { rewrite <- (take_seq a) at 2. apply Permutation_map, Hp. }
  assert (Hnv : Forall notnan (NumPy.take a Rank)).
  { rewrite Forall_forall in *. intros x Hx. apply Hn.
    now apply (Permutation_in _ Hpa). }
  pose proof (fle_strongly_sorted _ Hnv Hs) as Hss.
  assert (Hidx : Forall (fun i => (i < length a)%nat) Rank).
  { rewrite Forall_forall. intros i Hi.
    apply (Permutation_in _ Hp), in_seq in Hi. lia. }
  assert (ES : combine Rank
                 (NumPy.cumsum
                    (false :: NumPy.map2 NumPy.neq (NumPy.take a (removelast Rank))
                                                   (NumPy.take a (tl Rank))))
               = combine Rank
                   (map (fun i => Z.of_nat (distinct_below (nth i a nan) a)) Rank)).
  { destruct Rank as [|r0 rs]; auto. f_equal.
    unfold NumPy.take at 1. rewrite <- removelast_map.
    change (map (fun i => nth i a nan) (r0 :: rs)) with (NumPy.take a (r0 :: rs)).
    replace (NumPy.take a (tl (r0 :: rs))) with (tl (NumPy.take a (r0 :: rs)))
      by reflexivity.
    remember (NumPy.take a (r0 :: rs)) as vs eqn:Evs.
    assert (Evs' := Evs). simpl in Evs'.
    destruct vs as [|v0 rest]; [discriminate|]. simpl tl.
    unfold NumPy.cumsum. simpl NumPy.cumsum_from.
    pose proof (cumsum_ranks rest [] v0 (v0 :: rest) eq_refl Hnv Hss) as C.
    rewrite distinct_below_head in C by auto. simpl Z.of_nat in C.
    change (match rest with [] => [] | _ :: _ => v0 :: removelast rest end)
      with (removelast (v0 :: rest)).
    rewrite C.
    transitivity (map (fun v => Z.of_nat (distinct_below v a)) (v0 :: rest)).
    { simpl. rewrite <- (distinct_below_perm v0 _ _ Hpa), distinct_below_head by auto.
      simpl. f_equal. apply map_ext. intros v. f_equal.
      apply distinct_below_perm, Hpa. }
    rewrite Evs. unfold NumPy.take. now rewrite map_map.
  }
  unfold rank_image, NumPy.scatter. rewrite ES.
  fold (NumPy.scatter (repeat 0%Z (length a)) Rank
          (map (fun i => Z.of_nat (distinct_below (nth i a nan) a)) Rank)).
  apply nth_ext with (d := 0%Z) (d' := 0%Z).
  - unfold dense_ranks. now rewrite scatter_length, repeat_length, length_map.
  - intros j Hj. rewrite scatter_length, repeat_length in Hj.
    rewrite nth_scatter by (now rewrite repeat_length).
    assert (Hin : existsb (Nat.eqb j) Rank = true).
    { apply existsb_exists. exists j. split; [|apply Nat.eqb_refl].
      apply (Permutation_in _ (Permutation_sym Hp)), in_seq. lia. }
    rewrite Hin. unfold dense_ranks.
    rewrite (nth_indep _ 0%Z (Z.of_nat (distinct_below nan a)))
      by (now rewrite length_map).
    now rewrite (map_nth (fun x => Z.of_nat (distinct_below x a)) a nan j).
Qed.

Lemma map_fst_combine {A B} (l1 : list A) (l2 : list B) :
  length l1 = length l2 -> map fst (combine l1 l2) = l1.
Proof.
  revert l2. induction l1 as [|x l1 IH]; intros [|y l2] H; simpl in *;
    try discriminate; auto.
  f_equal. apply IH. lia.
Qed.

Lemma argsort_perm {K} (lt : K -> K -> bool) keys :
  Permutation (NumPy.argsort lt keys) (seq 0 (length keys)).
Proof.
  unfold NumPy.argsort.
  rewrite <- (map_fst_combine (seq 0 (length keys)) keys) at 2
    by apply length_seq.
  apply Permutation_map, sort_by_perm.
Qed.

Lemma in_enumerate {K} (keys : list K) i k d :
  In (i, k) (combine (seq 0 (length keys)) keys) -> nth i keys d = k.
Proof.
  intros H. apply (In_nth _ _ (0%nat, d)) in H as (n & Hn & E).
  rewrite length_combine, length_seq, Nat.min_id in Hn.
  rewrite combine_nth in E by apply length_seq.
  rewrite seq_nth in E by auto. simpl in E.
  now inversion E; subst.
Qed.

(** The keys read through the sorting permutation are the sorted keys. *)
Lemma argsort_keys {K} (lt : K -> K -> bool) keys d :
  map (fun i => nth i keys d) (NumPy.argsort lt keys)
  = map snd (NumPy.sort_by (fun p q => lt (snd p) (snd q))
               (combine (seq 0 (length keys)) keys)).
Proof.
  unfold NumPy.argsort. rewrite map_map. apply map_ext_in.
  intros [i k] H. simpl.
  apply (Permutation_in _ (sort_by_perm _ _)) in H.
  now apply in_enumerate.
Qed.

Lemma lex_lt_asym p q : NumPy.lex_lt p q = true -> NumPy.lex_lt q p = false.
Proof.
  unfold NumPy.lex_lt. destruct p as [a l], q as [b m]; simpl.
  destruct (NumPy.np_lt a b) eqn:E; simpl.
  - intros _. now rewrite (np_lt_asym a b E).
  - intros H. apply andb_true_iff in H as [H1 H2].
    apply negb_true_iff in H1. rewrite H1. simpl.
    apply Z.ltb_lt in H2. apply Z.ltb_ge. lia.
Qed.

Lemma np_lt_fle x y : NumPy.np_lt y x = false -> fle x y.
Proof. unfold NumPy.np_lt, fle. intros H. now apply orb_false_elim in H. Qed.

Lemma lexsort1_sorted a : Sorted fle (NumPy.take a (NumPy.lexsort1 a)).
Proof.
  unfold NumPy.take, NumPy.lexsort1. rewrite argsort_keys.
  apply Sorted_map.
  eapply Sorted_weaken; [|apply sort_by_sorted].
  - intros p q H. apply np_lt_fle, H.
  - intros p q. apply np_lt_asym.
Qed.

Lemma nth_combine_fst {A B} (l1 : list A) (l2 : list B) i d1 d2 :
  length l1 = length l2 -> fst (nth i (combine l1 l2) (d1, d2)) = nth i l1 d1.
Proof. intros H. now rewrite combine_nth. Qed.

Lemma lexsort2_sorted lab a :
  length lab = length a -> Sorted fle (NumPy.take a (NumPy.lexsort2 lab a)).
Proof.
  intros Hl. unfold NumPy.take, NumPy.lexsort2.
  rewrite (map_ext (fun i => nth i a nan)
                   (fun i => fst (nth i (combine a lab) (nan, 0%Z))))
    by (intros i; now rewrite nth_combine_fst).
  rewrite <- (map_map (fun i => nth i (combine a lab) (nan, 0%Z)) fst).
  rewrite argsort_keys, map_map.
  apply Sorted_map.
  eapply Sorted_weaken; [|apply sort_by_sorted].
  - intros p q H. simpl in H. apply np_lt_fle.
    unfold NumPy.lex_lt in H. now apply orb_false_elim in H.
  - intros p q. apply lex_lt_asym.
Qed.

Theorem lexsort1_rank a :
  Forall notnan a -> rank_image a (NumPy.lexsort1 a) = dense_ranks a.
Proof.
  intros H. apply rank_image_dense; auto.
  - apply argsort_perm.
  - apply lexsort1_sorted.
Qed.

Theorem lexsort2_rank lab a :
  length lab = length a -> Forall notnan a ->
  rank_image a (NumPy.lexsort2 lab a) = dense_ranks a.
Proof.
  intros Hl H. apply rank_image_dense; auto.
  - unfold NumPy.lexsort2.
    replace (length a) with (length (combine a lab))
      by (rewrite length_combine; lia).
    apply argsort_perm.
  - now apply lexsort2_sorted.
Qed.

(** ** The Costes search loop *)

Lemma costes_i_255 : (costes_step <? costes_i 255) = false.
Proof. vm_compute. reflexivity. Qed.

Lemma costes_i_good :
  forallb (fun k => (costes_step <? costes_i k) && PrimFloat.is_finite (costes_i k)
                    && (0 <? costes_i k))
          (seq 0 255) = true.
Proof. vm_compute. reflexivity. Qed.

Section Loop.
Variable pearsonr : list float -> list float -> pearson_result.
Variables fi si : list float.
Variables a b : float.

Lemma costes_loop_O i st :
  costes_loop pearsonr fi si a b 0 i st
  = if costes_step <? i then None else Some st.
Proof. reflexivity. Qed.

Lemma costes_loop_S fuel i st :
  costes_loop pearsonr fi si a b (S fuel) i st
  = if costes_step <? i then
      let combt := NumPy.map2 orb (map (fun f => f <? i) fi)
                                  (map (fun s => s <? a * i + b) si) in
      let st' := CostesState (Some (i, a * i + b)) (S (cs_iterations st)) in
      match pearsonr (NumPy.bool_index fi combt) (NumPy.bool_index si combt) with
      | ValueError => Some st'
      | PearsonR r =>
          if r <=? 0 then Some st'
          else costes_loop pearsonr fi si a b fuel (i - costes_step) st'
      end
    else Some st.
Proof. reflexivity. Qed.

(** The loop started at the [k]-th value of [i] with the fuel to reach the
    255th ends: at once if the loop test fails, otherwise after at most
    [255 - k] iterations on the threshold pair of an [i] it visited. *)
Lemma costes_loop_ends fuel : forall k st,
  (k + fuel = 255)%nat ->
  exists st',
    costes_loop pearsonr fi si a b fuel (costes_i k) st = Some st'
    /\ (cs_iterations st' <= cs_iterations st + fuel)%nat
    /\ (((costes_step <? costes_i k) = false /\ st' = st)
        \/ ((costes_step <? costes_i k) = true
            /\ (cs_iterations st < cs_iterations st')%nat
            /\ exists j, (k <= j < 255)%nat
                 /\ cs_thr st' = Some (costes_i j, a * costes_i j + b))).
Proof.
  induction fuel as [|fuel IH]; intros k st Hk.
  - assert (k = 255)%nat by lia. subst k.
    rewrite costes_loop_O, costes_i_255. exists st. split; auto. split; [lia|].
    left. auto.
  - rewrite costes_loop_S. destruct (costes_step <? costes_i k) eqn:Et.
    + cbv zeta. match goal with
      | |- context [pearsonr ?x ?y] => destruct (pearsonr x y) as [|r]
      end.
      * eexists. split; [reflexivity|]. simpl. split; [lia|].
        right. split; auto. split; [lia|]. exists k. split; [lia|reflexivity].
      * destruct (r <=? 0).
        -- eexists. split; [reflexivity|]. simpl. split; [lia|].
           right. split; auto. split; [lia|]. exists k. split; [lia|reflexivity].
        -- change (costes_i k - costes_step) with (costes_i (S k)).
           destruct (IH (S k) (CostesState (Some (costes_i k, a * costes_i k + b))
                                           (S (cs_iterations st))))
             as (st' & E & Hit & Hthr); [lia|].
           exists st'. split; [exact E|]. simpl in Hit. split; [lia|].
           right. split; auto.
           destruct Hthr as [[_ ->]|(_ & Hlt & j & Hj & Ej)]; simpl.
           ++ split; [lia|]. exists k. split; [lia|reflexivity].
           ++ simpl in Hlt. split; [lia|]. exists j. split; [lia|exact Ej].
    + exists st. split; auto. split; [lia|]. left. auto.
Qed.

End Loop.

(** ** Arrays *)

Lemma map2_length {A B C} (f : A -> B -> C) xs ys :
  length (NumPy.map2 f xs ys) = Nat.min (length xs) (length ys).
Proof.
  revert ys. induction xs as [|x xs IH]; intros [|y ys]; simpl; auto.
Qed.

Lemma nth_map2 {A B C} (f : A -> B -> C) xs ys k da db dc :
  (k < length xs)%nat -> (k < length ys)%nat ->
  nth k (NumPy.map2 f xs ys) dc = f (nth k xs da) (nth k ys db).
Proof.
  revert ys k. induction xs as [|x xs IH]; intros [|y ys] [|k] Hx Hy;
    simpl in *; try lia; auto.
  apply IH; lia.
Qed.

Lemma map2_same {A C} (f : A -> A -> C) xs :
  NumPy.map2 f xs xs = map (fun x => f x x) xs.
Proof. induction xs as [|x xs IH]; simpl; congruence. Qed.

Lemma bool_index_none {A} (xs : list A) msk :
  NumPy.any msk = false -> NumPy.bool_index xs msk = [].
Proof.
  revert msk. induction xs as [|x xs IH]; intros [|[] msk] H; simpl in *;
    auto; discriminate.
Qed.

Lemma bool_index_Forall {A} (P : A -> Prop) xs msk :
  (forall k, (k < length xs)%nat -> (k < length msk)%nat ->
             nth k msk false = true -> forall d, P (nth k xs d)) ->
  Forall P (NumPy.bool_index xs msk).
Proof.
  revert msk. induction xs as [|x xs IH]; intros [|m msk] H; simpl; auto.
  assert (Forall P (NumPy.bool_index xs msk)).
  { apply IH. intros k Hk Hm E d. apply (H (S k)); simpl; auto; lia. }
  destruct m; auto. constructor; auto.
  apply (H 0%nat) with (d := x); simpl; auto; lia.
Qed.

(** ** The validity mask *)

Lemma valid_mask_nth al k :
  (k < length (first_mask al))%nat -> (k < length (second_mask al))%nat ->
  (k < length (first_pixel_data al))%nat ->
  (k < length (second_pixel_data al))%nat ->
  nth k (valid_mask al) false
  = nth k (first_mask al) false && nth k (second_mask al) false
    && negb (PrimFloat.is_nan (nth k (first_pixel_data al) nan))
    && negb (PrimFloat.is_nan (nth k (second_pixel_data al) nan)).
Proof.
  intros H1 H2 H3 H4. unfold valid_mask.
  rewrite (nth_map2 _ _ _ _ false false);
    rewrite ?map2_length, ?length_map; try lia.
  rewrite (nth_map2 _ _ _ _ false false);
    rewrite ?map2_length, ?length_map; try lia.
  rewrite (nth_map2 _ _ _ _ false false); try lia.
  rewrite (nth_indep (map _ (first_pixel_data al)) false
                     (negb (PrimFloat.is_nan nan)))
    by (rewrite length_map; lia).
  rewrite (map_nth (fun x => negb (PrimFloat.is_nan x))).
  rewrite (nth_indep (map _ (second_pixel_data al)) false
                     (negb (PrimFloat.is_nan nan)))
    by (rewrite length_map; lia).
  now rewrite (map_nth (fun x => negb (PrimFloat.is_nan x))).
Qed.

Lemma valid_mask_length al :
  length (valid_mask al)
  = Nat.min (Nat.min (Nat.min (length (first_mask al)) (length (second_mask al)))
                     (length (first_pixel_data al)))
            (length (second_pixel_data al)).
Proof. unfold valid_mask. now rewrite !map2_length, !length_map. Qed.

(** The valid samples of either image hold no NaN. *)
Lemma valid_samples_notnan al :
  Forall notnan (fst (valid_samples al)) /\ Forall notnan (snd (valid_samples al)).
Proof.
  unfold valid_samples; simpl. split; apply bool_index_Forall;
    intros k Hk Hm E d; rewrite valid_mask_length in Hm;
    rewrite valid_mask_nth in E by lia;
    rewrite (nth_indep _ d nan) by lia;
    repeat (apply andb_true_iff in E as [E ?]);
    unfold notnan; now apply negb_true_iff.
Qed.

Lemma infinity_notnan x : PrimFloat.is_infinity x = true -> PrimFloat.is_nan x = false.
Proof.
  intros H. apply F64.is_infinity_spec in H as [s E].
  now rewrite F64.is_nan_spec, E.
Qed.

(** C2 (as amended): the mask that selects the paired samples is the
    conjunction of the two image masks with "is not NaN" of both intensity
    arrays, so a NaN pixel of either image is excluded, and an infinite
    intensity does not exclude a pixel. *)
Theorem valid_mask_excludes_nan_only al k :
  (k < length (first_mask al))%nat -> (k < length (second_mask al))%nat ->
  (k < length (first_pixel_data al))%nat ->
  (k < length (second_pixel_data al))%nat ->
  nth k (valid_mask al) false
  = nth k (first_mask al) false && nth k (second_mask al) false
    && negb (PrimFloat.is_nan (nth k (first_pixel_data al) nan))
    && negb (PrimFloat.is_nan (nth k (second_pixel_data al) nan))
  /\ valid_samples al
     = (NumPy.bool_index (first_pixel_data al) (valid_mask al),
        NumPy.bool_index (second_pixel_data al) (valid_mask al))
  /\ (nth k (first_mask al) false = true -> nth k (second_mask al) false = true ->
      PrimFloat.is_infinity (nth k (first_pixel_data al) nan) = true ->
      PrimFloat.is_infinity (nth k (second_pixel_data al) nan) = true ->
      nth k (valid_mask al) false = true).
Proof.
  intros H1 H2 H3 H4. split; [|split].
  - now apply valid_mask_nth.
  - reflexivity.
  - intros M1 M2 I1 I2. rewrite valid_mask_nth by assumption.
    now rewrite M1, M2, (infinity_notnan _ I1), (infinity_notnan _ I2).
Qed.

Lemma valid_mask_excludes_nan_only_witness :
  nth 0 (valid_mask (Aligned [infinity; nan] [true; true]
                             [neg_infinity; 1] [true; true])) false = true.
Proof.
  apply (valid_mask_excludes_nan_only
           (Aligned [infinity; nan] [true; true] [neg_infinity; 1] [true; true])
           0%nat); simpl; try lia; reflexivity.
Defined.

(** C2 (as stated) fails: pixels whose intensity is +infinity or -infinity
    stay in the valid population. *)
Lemma infinite_pixels_are_valid :
  valid_samples (Aligned [infinity; 1; nan] [true; true; true]
                         [2; neg_infinity; 3] [true; true; true])
  = ([infinity; 1], [2; neg_infinity]).
Proof. reflexivity. Qed.

(** ** An empty above-threshold population *)

(** With no pixel above both thresholds the whole-image overlap
    coefficient and [K1], [K2] are 0.0 / 0.0. *)
Lemma overlap_images_empty td :
  NumPy.any (combined_thresh td) = false ->
  fi_thresh td = [] -> si_thresh td = [] ->
  overlap_images td = (nan, nan, nan).
Proof. intros _ Hf Hs. unfold overlap_images. now rewrite Hf, Hs. Qed.

Lemma threshold_images_empty d1 d2 p fi si td :
  threshold_images d1 d2 p fi si = Some td ->
  NumPy.any (combined_thresh td) = false ->
  fi_thresh td = [] /\ si_thresh td = [].
Proof.
  unfold threshold_images.
  destruct (NumPy.amax fi) as [mf|]; [|discriminate].
  destruct (NumPy.amax si) as [ms|]; [|discriminate].
  intros E H. inversion E; subst; clear E. simpl in *.
  split; now apply bool_index_none.
Qed.

Lemma overlap_images_nothing_above d1 d2 p fi si td :
  threshold_images d1 d2 p fi si = Some td ->
  NumPy.any (combined_thresh td) = false ->
  overlap_images td = (nan, nan, nan).
Proof.
  intros E H. destruct (threshold_images_empty d1 d2 p fi si td E H).
  now apply overlap_images_empty.
Qed.

(** The per-object path tests [numpy.any(combined_thresh)] and reports
    zeros when no object pixel is above both thresholds. *)
Lemma objects_nothing_above op lrange td :
  NumPy.any (o_combined_thresh td) = false ->
  manders_objects op lrange td = (zeros (length lrange), zeros (length lrange))
  /\ overlap_objects op lrange td
     = (zeros (length lrange), zeros (length lrange), zeros (length lrange)).
Proof.
  intros H. unfold manders_objects, overlap_objects. now rewrite H.
Qed.

(** The test is on all the object pixels at once: an object with nothing
    above its thresholds next to one that has gets Manders 0 but Overlap,
    K1 and K2 0.0 / 0.0. *)
Lemma overlap_objects_one_empty_object :
  let op := ObjectPixels [10; 1; 5; 5] [1; 10; 5; 5] [1; 1; 2; 2]%Z in
  exists td,
    threshold_objects NumPy.float64 NumPy.float64 15 op (lrange_of 2) = Some td
    /\ o_combined_thresh td = [false; false; true; true]
    /\ manders_objects op (lrange_of 2) td = ([0; 1], [0; 1])
    /\ overlap_objects op (lrange_of 2) td = ([nan; 1], [nan; 1], [nan; 1]).
Proof. eexists. vm_compute. repeat split. Qed.

(** C1, on the specification's own scenario: for fi = [10, 20, 0, 0],
    si = [0, 0, 10, 20] with full masks and a threshold of 15 percent no
    pixel is above both thresholds; the whole-image path records Manders and
    RWC as 0 but the Overlap coefficient, K1 and K2 as NaN, while the
    per-object path, on the same pixels as one object, records 0 for
    all of them. *)
Theorem overlap_is_nan_when_nothing_is_above_threshold (L : library)
    (d1 d2 : NumPy.dtype) :
  run_image_pair_images L (Settings 15 false true true true false) 255 "A" "B"
    (Image [1; 4]%nat d1 [10; 20; 0; 0] [true; true; true; true])
    (Image [1; 4]%nat d2 [0; 0; 10; 20] [true; true; true; true])
  = Some ([("A", "B", "-", "Manders Coefficient", Fmt3 0);
           ("B", "A", "-", "Manders Coefficient", Fmt3 0);
           ("A", "B", "-", "RWC Coefficient", Fmt3 0);
           ("B", "A", "-", "RWC Coefficient", Fmt3 0);
           ("A", "B", "-", "Overlap Coefficient", Fmt3 nan)],
          [("Correlation_Overlap_A_B", nan);
           ("Correlation_K_A_B", nan);
           ("Correlation_K_B_A", nan);
           ("Correlation_Manders_A_B", 0);
           ("Correlation_Manders_B_A", 0);
           ("Correlation_RWC_A_B", 0);
           ("Correlation_RWC_B_A", 0)])
  /\ (let op := ObjectPixels [10; 20; 0; 0] [0; 0; 10; 20] [1; 1; 1; 1]%Z in
      exists td,
        threshold_objects d1 d2 15 op (lrange_of 1) = Some td
        /\ NumPy.any (o_combined_thresh td) = false
        /\ manders_objects op (lrange_of 1) td = ([0], [0])
        /\ rwc_objects op (lrange_of 1) td = Some ([0], [0])
        /\ overlap_objects op (lrange_of 1) td = ([0], [0], [0])).
Proof.
  split.
  - destruct d1, d2; vm_compute; reflexivity.
  - destruct d1, d2; eexists; vm_compute; repeat split.
Qed.

(** ** No objects, or no valid pixel *)

Lemma object_measurements_empty s f g :
  Forall (fun nv => snd nv = []) (object_measurements s f g object_values_empty).
Proof.
  unfold object_measurements, object_values_empty.
  destruct s as [p [] [] [] [] []]; simpl; repeat constructor.
Qed.

Lemma object_measurements_nan s f g n :
  Forall (fun nv => snd nv = repeat nan n)
         (object_measurements s f g (object_values_nan n)).
Proof.
  unfold object_measurements, object_values_nan.
  destruct s as [p [] [] [] [] []]; simpl; repeat constructor.
Qed.

Lemma object_measurements_every_metric s f g v (vec : list float) :
  ov_corr v = Some vec -> ov_manders v = Some (vec, vec) ->
  ov_rwc v = Some (vec, vec) -> ov_overlap v = Some (vec, vec, vec) ->
  ov_costes v = Some (vec, vec) ->
  every_metric_is s f g vec (object_measurements s f g v).
Proof.
  intros E1 E2 E3 E4 E5. unfold every_metric_is, object_measurements.
  rewrite E1, E2, E3, E4, E5.
  repeat match goal with
         | |- _ /\ _ => split
         | |- _ = true -> _ => intros ->
         end;
    repeat (apply in_or_app; first [left; simpl; tauto|right]); simpl; tauto.
Qed.




Lemma costes_i_visited j :
  (j < 255)%nat ->
  PrimFloat.is_finite (costes_i j) = true /\ (0 <? costes_i j) = true.
Proof.
  intros H. pose proof costes_i_good as G. rewrite forallb_forall in G.
  assert (G' : In j (seq 0 255)) by (apply in_seq; lia).
  apply G in G'. apply andb_true_iff in G' as [G1 G2].
  apply andb_true_iff in G1 as [_ G1]. auto.
Qed.

(** The search from [i = 1] with 255 units of fuel ends on the threshold
    pair of one of the 255 values of [i], after 1 to 255 iterations. *)
Lemma costes_search_ends (L : library) (fi si : list float) (a b : float) :
  exists st j,
    costes_loop (pearsonr L) fi si a b 255 1 (CostesState None 0) = Some st
    /\ (1 <= cs_iterations st <= 255)%nat
    /\ (j < 255)%nat
    /\ cs_thr st = Some (costes_i j, a * costes_i j + b).
Proof.
  destruct (costes_loop_ends (pearsonr L) fi si a b 255 0 (CostesState None 0))
    as (st & E & Hit & H); [reflexivity|].
  destruct H as [[H _]|(_ & Hlt & j & Hj & Ej)].
  - vm_compute in H. discriminate.
  - exists st, j. simpl in *. repeat split; auto; lia.
Qed.

(** C3: the Costes search loop ends within 255 iterations on every sample
    pair and every behaviour of [pearsonr], leaving a threshold pair bound;
    and an iteration in which [pearsonr] raises [ValueError] ends the loop
    on the thresholds of that iteration. *)
Theorem costes_search_terminates (L : library) (fi si : list float) :
  (forall a b, exists st i,
      costes_loop (pearsonr L) fi si a b 255 1 (CostesState None 0) = Some st
      /\ (1 <= cs_iterations st <= 255)%nat
      /\ cs_thr st = Some (i, a * i + b))
  /\ (exists thr_c, costes_search L 255 fi si = Some thr_c)
  /\ (forall a b fuel i st,
        (costes_step <? i) = true ->
        (let combt := NumPy.map2 orb (map (fun f => f <? i) fi)
                                     (map (fun s => s <? a * i + b) si) in
         pearsonr L (NumPy.bool_index fi combt) (NumPy.bool_index si combt))
        = ValueError ->
        costes_loop (pearsonr L) fi si a b (S fuel) i st
        = Some (CostesState (Some (i, a * i + b)) (S (cs_iterations st)))).
Proof.
  split; [|split].
  - intros a b. destruct (costes_search_ends L fi si a b) as (st & j & E & H & _ & T).
    exists st, (costes_i j). auto.
  - unfold costes_search. destruct (costes_line fi si) as [a b].
    destruct (costes_search_ends L fi si a b) as (st & j & E & _ & _ & T).
    rewrite E, T. eauto.
  - intros a b fuel i st Ht Hp. rewrite costes_loop_S, Ht. cbv zeta in *.
    now rewrite Hp.
Qed.

Lemma costes_search_terminates_witness :
  costes_loop Reference.pearsonr [0.5] [0.25] 2 0 7 1 (CostesState None 0)
  = Some (CostesState (Some (1, 2 * 1 + 0)) 1).
Proof.
  apply (proj2 (proj2 (costes_search_terminates Reference.lib [0.5] [0.25]))
           2 0 6%nat 1 (CostesState None 0)); reflexivity.
Defined.

(** ** Zero covariance in the Costes line fit *)

Lemma any_andb_nothing_r (m1 : list bool) {A} (f : A -> bool) (xs : list A) :
  (forall x, f x = false) -> NumPy.any (NumPy.map2 andb m1 (map f xs)) = false.
Proof.
  intros H. revert xs. induction m1 as [|m m1 IH]; intros [|x xs]; simpl; auto.
  rewrite H, andb_false_r. simpl. apply IH.
Qed.

Lemma any_map_nothing {A} (f : A -> bool) (xs : list A) :
  (forall x, f x = false) -> NumPy.any (map f xs) = false.
Proof.
  intros H. induction xs as [|x xs IH]; simpl; auto. now rewrite H.
Qed.

(** Above a NaN threshold for the second image nothing is selected, and
    the second Costes coefficient is 0.0 / 0.0. *)
Lemma costes_images_nan_threshold (L : library) fuel fi si T1 T2 :
  costes_search L fuel fi si = Some (T1, T2) ->
  PrimFloat.is_nan T2 = true ->
  exists C1, costes_images L fuel fi si = Some (C1, nan).
Proof.
  intros E H. unfold costes_images. rewrite E.
  assert (Hn : forall s, (T2 <? s) = false) by (intros s; now apply F64.ltb_nan_l).
  rewrite (bool_index_none si (NumPy.map2 andb _ _))
    by (now apply any_andb_nothing_r).
  rewrite (bool_index_none si (map _ si)) by (now apply any_map_nothing).
  eexists. reflexivity.
Qed.

(** C4 (as amended): a zero covariance is not guarded against: the slope
    [a = num / (2 * covar)] is then NaN or infinite, and when the means of
    the non-zero population are finite with a non-negative mean of the first
    image, the second threshold [a * i + b] is NaN, so that the second Costes
    coefficient is recorded as NaN. *)
Theorem costes_zero_covariance_unguarded (L : library) (fi si : list float) :
  (costes_covar fi si =? 0) = true ->
  (let a := fst (costes_line fi si) in
   PrimFloat.is_nan a || PrimFloat.is_infinity a = true)
  /\ (let xmean := NumPy.mean (fst (nonzero_samples fi si)) in
      let ymean := NumPy.mean (snd (nonzero_samples fi si)) in
      PrimFloat.is_finite xmean = true -> (xmean <? 0) = false ->
      PrimFloat.is_finite ymean = true ->
      (exists T1 T2, costes_search L 255 fi si = Some (T1, T2)
                     /\ PrimFloat.is_nan T2 = true)
      /\ exists C1, costes_images L 255 fi si = Some (C1, nan)).
Proof.
  intros Hc.
  assert (Ha : let a := fst (costes_line fi si) in
               PrimFloat.is_nan a || PrimFloat.is_infinity a = true).
  { unfold costes_line. destruct (nonzero_samples fi si) as [x y]. simpl.
    unfold costes_slope. apply F64.div_by_zero.
    apply F64.mul_zero_r; auto. }
  split; [exact Ha|].
  intros xmean ymean Hx Hx0 Hy.
  assert (Hs : exists T1 T2, costes_search L 255 fi si = Some (T1, T2)
                             /\ PrimFloat.is_nan T2 = true).
  { unfold costes_search. subst xmean ymean.
    unfold costes_line in *. destruct (nonzero_samples fi si) as [x y].
    cbn [fst snd] in *.
    set (a := costes_slope (NumPy.var1 x) (NumPy.var1 y) (costes_covar fi si)) in *.
    destruct (costes_search_ends L fi si a (NumPy.mean y - a * NumPy.mean x))
      as (st & j & E & _ & Hj & T).
    rewrite E, T. do 2 eexists. split; [reflexivity|].
    destruct (costes_i_visited j Hj) as [Hfin Hpos].
    now apply F64.degenerate_line. }
  split; [exact Hs|].
  destruct Hs as (T1 & T2 & E & Hn).
  now apply (costes_images_nan_threshold L 255 fi si T1 T2).
Qed.

Lemma costes_zero_covariance_unguarded_witness :
  exists C1,
    costes_images Reference.lib 255 [0.5; 0.5; 0.5; 0.5] [0.25; 0.75; 0.25; 0.75]
    = Some (C1, nan).
Proof.
  apply (costes_zero_covariance_unguarded Reference.lib
           [0.5; 0.5; 0.5; 0.5] [0.25; 0.75; 0.25; 0.75]);
    vm_compute; reflexivity.
Defined.

(** C4 (as stated) fails: for these six pixels the covariance over the
    non-zero population is exactly 0 and the slope is NaN, yet the search does
    not stop at [i = 1]: Pearson's coefficient of the pixels below the
    thresholds is positive there, so the loop is still running after its first
    iteration; it runs all its 255 iterations, and the NaN reaches the second
    Costes coefficient. *)
Lemma zero_covariance_search_runs_on :
  let fi := [0.5; 0.5; 0.25; 0.75; 0; 0] in
  let si := [0.25; 0.75; 0.5; 0.5; 0; 0] in
  costes_covar fi si = 0
  /\ costes_line fi si = (nan, nan)
  /\ Reference.pearsonr fi si = PearsonR 0.72727272727272729
  /\ costes_loop Reference.pearsonr fi si nan nan 1 1 (CostesState None 0) = None
  /\ costes_loop Reference.pearsonr fi si nan nan 255 1 (CostesState None 0)
     = Some (CostesState (Some (costes_i 254, nan)) 255)
  /\ costes_images Reference.lib 255 fi si = Some (0, nan).
Proof. vm_compute. repeat split. Qed.

(** ** Dense ranks *)

(** C7: the rank image the RWC computation builds for either array of
    valid samples is the array of dense ranks: the rank of a pixel is the
    number of distinct values of the array strictly smaller than its own;
    for [3, 1, 1, 2] the ranks are [2, 0, 0, 1]. *)
Theorem rwc_ranks_are_dense (al : aligned) :
  rank_image (fst (valid_samples al)) (NumPy.lexsort1 (fst (valid_samples al)))
  = map (fun x => Z.of_nat (distinct_below x (fst (valid_samples al))))
        (fst (valid_samples al))
  /\ rank_image (snd (valid_samples al)) (NumPy.lexsort1 (snd (valid_samples al)))
     = map (fun x => Z.of_nat (distinct_below x (snd (valid_samples al))))
           (snd (valid_samples al))
  /\ rank_image [3; 1; 1; 2] (NumPy.lexsort1 [3; 1; 1; 2]) = [2; 0; 0; 1]%Z.
Proof.
  destruct (valid_samples_notnan al) as [Hf Hs].
  split; [|split].
  - now apply lexsort1_rank.
  - now apply lexsort1_rank.
  - reflexivity.
Qed.

(** ** Strict and non-strict thresholds *)

Lemma nth_map_in {A B} (f : A -> B) l k da db :
  (k < length l)%nat -> nth k (map f l) db = f (nth k l da).
Proof.
  intros H. rewrite (nth_indep _ db (f da)) by (now rewrite length_map).
  apply map_nth.
Qed.

Lemma nth_lrange_of n k d : (k < n)%nat -> nth k (lrange_of n) d = (Z.of_nat k + 1)%Z.
Proof.
  intros H. unfold lrange_of.
  rewrite (nth_map_in _ _ _ 0%nat) by (now rewrite length_seq).
  now rewrite seq_nth.
Qed.

Lemma length_lrange_of n : length (lrange_of n) = n.
Proof. unfold lrange_of. now rewrite length_map, length_seq. Qed.

Lemma select_nonempty {A} (xs : list A) lab k :
  (k < length xs)%nat -> (k < length lab)%nat ->
  Ndimage.select xs lab (nth k lab 0%Z) <> [].
Proof.
  unfold Ndimage.select. revert lab k.
  induction xs as [|x xs IH]; intros [|l lab] [|k] Hx Hl; simpl in *; try lia.
  - rewrite Z.eqb_refl. discriminate.
  - destruct (nth k lab 0%Z =? l)%Z; [discriminate|]. apply IH; lia.
Qed.

Lemma amax_nonempty xs : xs <> [] -> exists m, NumPy.amax xs = Some m.
Proof. destruct xs; [congruence|]. simpl. eauto. Qed.

Ltac bind_inv H :=
  repeat match type of H with
         | match ?x with _ => _ end = Some _ =>
             let E := fresh "E" in destruct x eqn:E; try discriminate H
         | (if ?x then _ else _) = Some _ =>
             let E := fresh "E" in destruct x eqn:E; try discriminate H
         end.

Lemma checked_some {A} lab (r x : A) :
  Ndimage.checked lab r = Some x -> x = r /\ lab <> [].
Proof. destruct lab; simpl; [discriminate|]. intros E. inversion E. now split. Qed.

Lemma length_of_label a lab vs :
  Ndimage.of_label a lab = Some vs -> length vs = length lab.
Proof.
  revert vs. induction lab as [|l lab IH]; simpl; intros vs E.
  - now inversion E.
  - destruct (Ndimage.item a (l - 1)); [|discriminate].
    destruct (Ndimage.of_label a lab); [|discriminate].
    inversion E; subst. simpl. now rewrite (IH _ eq_refl).
Qed.

Lemma nth_of_label a lab vs k :
  Ndimage.of_label a lab = Some vs -> (k < length lab)%nat ->
  Ndimage.item a (nth k lab 0%Z - 1) = Some (nth k vs nan).
Proof.
  revert vs k. induction lab as [|l lab IH]; simpl; intros vs k E Hk; [lia|].
  destruct (Ndimage.item a (l - 1)) eqn:El; [|discriminate].
  destruct (Ndimage.of_label a lab) eqn:Er; [|discriminate].
  inversion E; subst. destruct k as [|k]; simpl; auto.
  apply IH; auto. lia.
Qed.

Lemma item_in_range a i :
  (0 <= i < Z.of_nat (length a))%Z -> Ndimage.item a i = nth_error a (Z.to_nat i).
Proof.
  intros H. unfold Ndimage.item.
  destruct (Z.leb_spec 0 i); [|lia].
  destruct (Z.ltb_spec i (Z.of_nat (length a))); [|lia]. reflexivity.
Qed.

(** The per-object threshold of the pixel [k]: the scaled maximum of the
    pixels that carry its label. *)
Lemma nth_object_threshold d c xs lab n k vs :
  Ndimage.of_label (map (NumPy.scale d c) (Ndimage.maximum xs lab (lrange_of n))) lab
  = Some vs ->
  (k < length lab)%nat -> (k < length xs)%nat ->
  (1 <= nth k lab 0 <= Z.of_nat n)%Z ->
  exists M,
    NumPy.amax (Ndimage.select xs lab (nth k lab 0%Z)) = Some M
    /\ nth k vs nan = NumPy.scale d c M.
Proof.
  intros E Hl Hx Hr.
  destruct (amax_nonempty _ (select_nonempty xs lab k Hx Hl)) as [M EM].
  exists M. split; auto.
  pose proof (nth_of_label _ _ _ _ E Hl) as Hi.
  rewrite item_in_range in Hi
    by (unfold Ndimage.maximum; rewrite !length_map, length_lrange_of; lia).
  unfold Ndimage.maximum in Hi. rewrite map_map in Hi.
  rewrite nth_error_map in Hi.
  rewrite (nth_error_nth' _ 0%Z) in Hi by (rewrite length_lrange_of; lia).
  rewrite nth_lrange_of in Hi by lia. cbn [option_map] in Hi.
  replace (Z.of_nat (Z.to_nat (nth k lab 0%Z - 1)) + 1)%Z with (nth k lab 0%Z) in Hi
    by lia.
  rewrite EM in Hi. now inversion Hi.
Qed.

(** What [threshold_objects] returns when it returns. *)
Lemma threshold_objects_some d1 d2 p op lrange td :
  threshold_objects d1 d2 p op lrange = Some td ->
  exists tff_of tss_of,
    Ndimage.of_label
      (map (NumPy.scale d1 (p / 100))
           (Ndimage.maximum (first_pixels op) (labels op) lrange)) (labels op)
    = Some tff_of
    /\ Ndimage.of_label
         (map (NumPy.scale d2 (p / 100))
              (Ndimage.maximum (second_pixels op) (labels op) lrange)) (labels op)
       = Some tss_of
    /\ o_combined_thresh td
       = NumPy.map2 andb
           (NumPy.map2 (fun f t => t <=? f) (first_pixels op) tff_of)
           (NumPy.map2 (fun s t => t <=? s) (second_pixels op) tss_of)
    /\ length (o_tot_fi_thr td) = length lrange
    /\ length (o_tot_si_thr td) = length lrange.
Proof.
  intros H. unfold threshold_objects in H.
  destruct (Ndimage.checked (labels op) (Ndimage.maximum (first_pixels op) _ _))
    as [max1|] eqn:E1; [|discriminate].
  destruct (Ndimage.checked (labels op) (Ndimage.maximum (second_pixels op) _ _))
    as [max2|] eqn:E2; [|discriminate].
  apply checked_some in E1, E2. destruct E1 as [-> _], E2 as [-> _].
  cbv zeta in H.
  destruct (Ndimage.of_label (map (NumPy.scale d1 _) _) _) as [tff_of|] eqn:F1;
    [|discriminate].
  destruct (Ndimage.of_label (map (NumPy.scale d2 _) _) _) as [tss_of|] eqn:F2;
    [|discriminate].
  destruct (Ndimage.checked (NumPy.bool_index (labels op) (NumPy.map2 _ (first_pixels op) _)) _)
    as [t1|] eqn:T1; [|discriminate].
  destruct (Ndimage.checked (NumPy.bool_index (labels op) (NumPy.map2 _ (second_pixels op) _)) _)
    as [t2|] eqn:T2; [|discriminate].
  apply checked_some in T1, T2. destruct T1 as [-> _], T2 as [-> _].
  inversion H; subst; clear H. cbn [o_combined_thresh o_tot_fi_thr o_tot_si_thr].
  exists tff_of, tss_of. unfold Ndimage.sum. rewrite !length_map. repeat split.
Qed.

(** C5 (as amended): over a whole image a pixel is above threshold when
    both intensities are strictly greater than [p * max / 100], the maxima
    taken over the valid population and the threshold rounded to the dtype
    of the pixels, so that a pixel equal to its threshold is not above it;
    within objects, when the thresholds are computed, a pixel is above
    threshold when both intensities are greater than or equal to
    [(p / 100) * max], the product taken in the dtype of the pixels and the
    maxima over the pixels of its own object, so that a pixel equal to its
    threshold in one channel is above threshold exactly when it reaches it
    in the other. *)
Theorem threshold_strict_image_nonstrict_objects (p : float) (d1 d2 : NumPy.dtype) :
  (forall fi si k,
      (k < length fi)%nat -> (k < length si)%nat ->
      exists max_fi max_si td,
        NumPy.amax fi = Some max_fi /\ NumPy.amax si = Some max_si
        /\ threshold_images d1 d2 p fi si = Some td
        /\ nth k (combined_thresh td) false
           = (NumPy.astype d1 (p * max_fi / 100) <? nth k fi nan)
             && (NumPy.astype d2 (p * max_si / 100) <? nth k si nan)
        /\ ((NumPy.astype d1 (p * max_fi / 100) =? nth k fi nan) = true
            \/ (NumPy.astype d2 (p * max_si / 100) =? nth k si nan) = true ->
            nth k (combined_thresh td) false = false))
  /\ (forall op n k td,
        threshold_objects d1 d2 p op (lrange_of n) = Some td ->
        length (labels op) = length (first_pixels op) ->
        length (labels op) = length (second_pixels op) ->
        (k < length (labels op))%nat ->
        (1 <= nth k (labels op) 0 <= Z.of_nat n)%Z ->
        exists max_f max_s,
          NumPy.amax (Ndimage.select (first_pixels op) (labels op) (nth k (labels op) 0%Z))
          = Some max_f
          /\ NumPy.amax (Ndimage.select (second_pixels op) (labels op) (nth k (labels op) 0%Z))
             = Some max_s
          /\ nth k (o_combined_thresh td) false
             = (NumPy.scale d1 (p / 100) max_f <=? nth k (first_pixels op) nan)
               && (NumPy.scale d2 (p / 100) max_s <=? nth k (second_pixels op) nan)
          /\ ((NumPy.scale d1 (p / 100) max_f =? nth k (first_pixels op) nan) = true ->
              nth k (o_combined_thresh td) false
              = (NumPy.scale d2 (p / 100) max_s <=? nth k (second_pixels op) nan))
          /\ ((NumPy.scale d2 (p / 100) max_s =? nth k (second_pixels op) nan) = true ->
              nth k (o_combined_thresh td) false
              = (NumPy.scale d1 (p / 100) max_f <=? nth k (first_pixels op) nan))).
Proof.
  split.
  - intros fi si k Hf Hs.
    destruct fi as [|f0 fi']; [simpl in Hf; lia|].
    destruct si as [|s0 si']; [simpl in Hs; lia|].
    unfold threshold_images. cbn [NumPy.amax].
    do 3 eexists. repeat (split; [reflexivity|]). cbn [combined_thresh].
    rewrite (nth_map2 _ _ _ _ false false) by (now rewrite length_map).
    rewrite !(nth_map_in _ _ _ nan) by assumption.
    split; [reflexivity|].
    match goal with
    | |- (?t1 =? ?x1) = true \/ (?t2 =? ?x2) = true -> _ =>
        pose proof (F64.ltb_eqb_excl t1 x1) as X1;
        pose proof (F64.ltb_eqb_excl t2 x2) as X2;
        intros [E|E]; rewrite E in *;
        destruct (t1 <? x1), (t2 <? x2); simpl in *; auto; discriminate
    end.
  - intros op n k td H L1 L2 Hk Hr.
    destruct (threshold_objects_some _ _ _ _ _ _ H)
      as (tff_of & tss_of & F1 & F2 & Ec & _).
    destruct (nth_object_threshold _ _ _ _ _ k _ F1) as (Mf & EMf & Tf); auto; try lia.
    destruct (nth_object_threshold _ _ _ _ _ k _ F2) as (Ms & EMs & Ts); auto; try lia.
    apply length_of_label in F1, F2.
    exists Mf, Ms. repeat (split; [assumption|]).
    assert (Em : nth k (o_combined_thresh td) false
                 = (NumPy.scale d1 (p / 100) Mf <=? nth k (first_pixels op) nan)
                   && (NumPy.scale d2 (p / 100) Ms <=? nth k (second_pixels op) nan)).
    { rewrite Ec.
      rewrite (nth_map2 _ _ _ _ false false) by (rewrite map2_length; lia).
      rewrite !(nth_map2 _ _ _ _ nan nan) by lia.
      now rewrite Tf, Ts. }
    split; [exact Em|]. rewrite Em.
    split; intros E.
    + rewrite (F64.leb_ltb_eqb (NumPy.scale d1 (p / 100) Mf)), E.
      now rewrite orb_true_r.
    + rewrite (F64.leb_ltb_eqb (NumPy.scale d2 (p / 100) Ms)), E.
      rewrite orb_true_r. apply andb_true_r.
Qed.

Lemma threshold_strict_image_nonstrict_objects_witness :
  (exists max_fi max_si td,
      NumPy.amax [3; 20] = Some max_fi /\ NumPy.amax [1.5; 10] = Some max_si
      /\ threshold_images NumPy.float64 NumPy.float32 15 [3; 20] [1.5; 10] = Some td
      /\ nth 0 (combined_thresh td) false
         = (NumPy.astype NumPy.float64 (15 * max_fi / 100) <? 3)
           && (NumPy.astype NumPy.float32 (15 * max_si / 100) <? 1.5)
      /\ ((NumPy.astype NumPy.float64 (15 * max_fi / 100) =? 3) = true
          \/ (NumPy.astype NumPy.float32 (15 * max_si / 100) =? 1.5) = true ->
          nth 0 (combined_thresh td) false = false))
  /\ (let op := ObjectPixels [3; 20] [1.5; 10] [1; 1]%Z in
      exists td max_f max_s,
        threshold_objects NumPy.float64 NumPy.float32 15 op (lrange_of 1) = Some td
        /\ NumPy.amax (Ndimage.select [3; 20] [1; 1]%Z 1%Z) = Some max_f
        /\ NumPy.amax (Ndimage.select [1.5; 10] [1; 1]%Z 1%Z) = Some max_s
        /\ nth 0 (o_combined_thresh td) false
           = (NumPy.scale NumPy.float64 (15 / 100) max_f <=? 3)
             && (NumPy.scale NumPy.float32 (15 / 100) max_s <=? 1.5)
        /\ ((NumPy.scale NumPy.float64 (15 / 100) max_f =? 3) = true ->
            nth 0 (o_combined_thresh td) false
            = (NumPy.scale NumPy.float32 (15 / 100) max_s <=? 1.5))
        /\ ((NumPy.scale NumPy.float32 (15 / 100) max_s =? 1.5) = true ->
            nth 0 (o_combined_thresh td) false
            = (NumPy.scale NumPy.float64 (15 / 100) max_f <=? 3))).
Proof.
  split.
  - apply (proj1 (threshold_strict_image_nonstrict_objects 15 NumPy.float64 NumPy.float32)
             [3; 20] [1.5; 10] 0%nat);
      simpl; lia.
  - cbv zeta.
    assert (E : threshold_objects NumPy.float64 NumPy.float32 15
                  (ObjectPixels [3; 20] [1.5; 10] [1; 1]%Z) (lrange_of 1)
                = Some (ThresholdedObjects [true; true] [3; 20] [1.5; 10] [23] [11.5]))
      by reflexivity.
    destruct (proj2 (threshold_strict_image_nonstrict_objects 15 NumPy.float64
                       NumPy.float32)
                (ObjectPixels [3; 20] [1.5; 10] [1; 1]%Z) 1%nat 0%nat _ E
                eq_refl eq_refl) as (max_f & max_s & H);
      [simpl; lia|simpl; lia|].
    eexists. exists max_f, max_s. split; [exact E|exact H].
Defined.

(** C5 (as stated) fails where the two roundings of the threshold part:
    with [p = 7] and a maximum of 0.7, [(7 / 100) * 0.7] is
    0.049000000000000002 and [7 * 0.7 / 100] is 0.048999999999999995, so a
    pixel equal to the former is above threshold over the whole image as it
    is within its object, and the two masks agree on it.  And with float32
    pixels, [p = 15] and a maximum of 1, the pixel 0.15000000596046448 is
    greater than [15 * 1 / 100] and is not above threshold, the comparison
    being made in float32. *)
Lemma threshold_modes_agree_at_equality :
  (let fi := [0.049000000000000002; 0.7] in
   (7 / 100) * 0.7 = 0.049000000000000002
   /\ 7 * 0.7 / 100 = 0.048999999999999995
   /\ option_map combined_thresh
        (threshold_images NumPy.float64 NumPy.float64 7 fi fi)
      = Some [true; true]
   /\ option_map o_combined_thresh
        (threshold_objects NumPy.float64 NumPy.float64 7
           (ObjectPixels fi fi [1; 1]%Z) (lrange_of 1))
      = Some [true; true])
  /\ (let fi := [0.15000000596046448; 1] in
      (15 * 1 / 100 <? 0.15000000596046448) = true
      /\ option_map combined_thresh
           (threshold_images NumPy.float32 NumPy.float32 15 fi fi)
         = Some [false; true]).
Proof. vm_compute. repeat split. Qed.

(** With [p = 15] and maxima 20 and 10, where the two roundings of the
    threshold meet, the pixel (3, 1.5) equals its threshold: it is below
    threshold over the whole image and above it within its object. *)
Lemma threshold_modes_differ_at_equality :
  option_map combined_thresh
    (threshold_images NumPy.float64 NumPy.float64 15 [3; 20] [1.5; 10])
  = Some [false; true]
  /\ option_map o_combined_thresh
       (threshold_objects NumPy.float64 NumPy.float64 15
          (ObjectPixels [3; 20] [1.5; 10] [1; 1]%Z) (lrange_of 1))
     = Some [true; true].
Proof. split; reflexivity. Qed.

(** ** One Costes threshold pair for all objects *)

Lemma object_values_of_costes L s d1 d2 fuel f g o fi si op n rows v :
  do_costes s = true ->
  object_values_of L s d1 d2 fuel f g o fi si op n = Some (rows, v) ->
  exists thr_c,
    costes_search L fuel fi si = Some thr_c
    /\ ov_costes v = Some (costes_manders_objects thr_c op (lrange_of n)).
Proof.
  intros Hc H. unfold object_values_of in H. rewrite Hc in H.
  unfold when at 6 in H. unfold costes_objects in H.
  destruct (costes_search L fuel fi si) as [thr_c|] eqn:Es.
  - exists thr_c. split; auto.
    bind_inv H. inversion H; subst. reflexivity.
  - bind_inv H.
Qed.



(** ** Identical images *)

Lemma map2_andb_same (m : list bool) : NumPy.map2 andb m m = m.
Proof. induction m as [|[] m IH]; simpl; congruence. Qed.

Lemma map2_mul_same xs : NumPy.map2 PrimFloat.mul xs xs = map sq xs.
Proof. induction xs as [|x xs IH]; simpl; [|rewrite IH]; reflexivity. Qed.

Lemma map2_mul_ones xs (ws : list float) msk :
  length ws = length xs -> Forall (fun w => w = 1) ws ->
  NumPy.map2 PrimFloat.mul (NumPy.bool_index xs msk) (NumPy.bool_index ws msk)
  = NumPy.bool_index xs msk.
Proof.
  revert ws msk. induction xs as [|x xs IH]; intros [|w ws] [|m msk] Hl Hw;
    simpl in *; try discriminate; auto.
  inversion Hw; subst.
  destruct m; simpl; rewrite ?F64.mul_one, IH; auto.
Qed.

Lemma fold_max_in l : forall x,
  fold_left Z.max l x = x \/ In (fold_left Z.max l x) l.
Proof.
  induction l as [|y l IH]; intros x; simpl; auto.
  destruct (IH (Z.max x y)) as [E|H]; auto.
  rewrite E. destruct (Z.max_spec x y) as [[_ ->]|[_ ->]]; auto.
Qed.

Lemma imax_in l m : NumPy.imax l = Some m -> In m l.
Proof.
  destruct l as [|x l]; [discriminate|]. simpl. intros E. inversion E.
  destruct (fold_max_in l x) as [->|H]; auto.
Qed.

Lemma distinct_le l : (distinct l <= length l)%nat.
Proof.
  induction l as [|x l IH]; simpl; auto. destruct (occurs x l); lia.
Qed.

Lemma filter_length_lt {A} (f : A -> bool) l x :
  In x l -> f x = false -> (length (filter f l) < length l)%nat.
Proof.
  induction l as [|y l IH]; simpl; intros H Hf; [contradiction|].
  destruct H as [->|H].
  - rewrite Hf. pose proof (filter_length_le f l). lia.
  - specialize (IH H Hf). destruct (f y); simpl; lia.
Qed.

(** A dense rank is below the number of pixels. *)
Lemma dense_ranks_bound xs r :
  In r (dense_ranks xs) -> (0 <= r < Z.of_nat (length xs))%Z.
Proof.
  unfold dense_ranks. intros H. apply in_map_iff in H as (x & <- & Hx).
  unfold distinct_below.
  pose proof (distinct_le (filter (fun y => y <? x) xs)).
  pose proof (filter_length_lt (fun y => y <? x) xs x Hx (F64.ltb_irrefl x)).
  lia.
Qed.

(** Equal rank images give every pixel the weight 1.0. *)
Lemma rank_weights_same xs :
  xs <> [] -> (Z.of_nat (length xs) < 2 ^ 53)%Z ->
  exists ws, rank_weights (dense_ranks xs) (dense_ranks xs) = Some ws
             /\ length ws = length xs /\ Forall (fun w => w = 1) ws.
Proof.
  intros Hne Hlen. unfold rank_weights.
  destruct (NumPy.imax (dense_ranks xs)) as [m|] eqn:Em.
  - pose proof (dense_ranks_bound xs m (imax_in _ _ Em)) as Hm.
    eexists. split; [reflexivity|]. split.
    + rewrite length_map, map2_length. unfold dense_ranks.
      rewrite length_map. lia.
    + rewrite map2_same, map_map. apply Forall_forall.
      intros w Hw. apply in_map_iff in Hw as (r & <- & _).
      rewrite Z.sub_diag, Z.max_id, Z.sub_0_r, F64.mul_one.
      apply F64.div_self, F64.Z2F_finite_nonzero. lia.
  - destruct xs; [congruence|discriminate].
Qed.

Lemma threshold_images_same d p fi td :
  threshold_images d d p fi fi = Some td ->
  fi <> []
  /\ si_thresh td = fi_thresh td
  /\ tot_si_thr td = tot_fi_thr td
  /\ tot_fi_thr td = NumPy.sum (fi_thresh td)
  /\ exists msk, combined_thresh td = msk /\ fi_thresh td = NumPy.bool_index fi msk.
Proof.
  unfold threshold_images. destruct (NumPy.amax fi) as [m|] eqn:Em; [|discriminate].
  intros E. inversion E; subst; clear E. cbn.
  rewrite map2_andb_same. repeat split; eauto.
  intros ->. discriminate.
Qed.

Lemma align_same L im :
  align L im im = Some (Aligned (pixel_data im) (mask im) (pixel_data im) (mask im)).
Proof.
  unfold align. rewrite Nat.ltb_irrefl.
  destruct (list_eq_dec Nat.eq_dec (shape im) (shape im)); congruence.
Qed.

(** The correlation and the slope recorded are those of the two library
    routines on the valid samples. *)
Lemma image_values_of_corr_slope L s d1 d2 fuel fi si v :
  do_corr_and_slope s = true ->
  image_values_of L s d1 d2 fuel fi si = Some v ->
  exists slope,
    lstsq_slope L fi si = Some slope
    /\ iv_corr_slope v = Some (corrcoef L fi si, slope).
Proof.
  intros Hc H. unfold image_values_of in H. rewrite Hc in H.
  unfold when at 1 in H. cbv zeta in H.
  destruct (lstsq_slope L fi si) as [slope|] eqn:Es; [|discriminate].
  exists slope. split; auto.
  bind_inv H. inversion H; subst. reflexivity.
Qed.




(** ** Ranks within objects *)

Lemma spike_length {A} (x y : A) n j : (j < n)%nat -> length (spike x y n j) = n.
Proof.
  intros H. unfold spike. rewrite length_app, repeat_length. simpl.
  rewrite repeat_length. lia.
Qed.

Lemma nth_spike {A} (x y d : A) n j k : (k < n)%nat -> (j < n)%nat ->
  nth k (spike x y n j) d = if (k =? j)%nat then y else x.
Proof.
  intros Hk Hj. unfold spike.
  destruct (Nat.eqb_spec k j) as [->|Hne].
  - rewrite app_nth2; rewrite repeat_length; [|lia]. now rewrite Nat.sub_diag.
  - destruct (Nat.lt_ge_cases k j) as [Hlt|Hge].
    + rewrite app_nth1 by (now rewrite repeat_length).
      now apply nth_repeat_lt.
    + rewrite app_nth2; rewrite repeat_length; [|lia].
      destruct (k - j)%nat as [|k'] eqn:E; [lia|]. simpl.
      apply nth_repeat_lt. lia.
Qed.

Lemma filter_repeat_false {A} (f : A -> bool) x n :
  f x = false -> filter f (repeat x n) = [].
Proof. intros H. induction n; simpl; auto. now rewrite H. Qed.

Lemma dense_ranks_ones n : dense_ranks (repeat 1 n) = repeat 0%Z n.
Proof.
  unfold dense_ranks.
  assert (E : forall m, map (fun x => Z.of_nat (distinct_below x (repeat 1 n)))
                            (repeat 1 m) = repeat 0%Z m).
  { induction m; simpl; auto. rewrite IHm. f_equal.
    unfold distinct_below. now rewrite filter_repeat_false. }
  apply E.
Qed.

Lemma dense_ranks_spike n j :
  (j < n)%nat ->
  dense_ranks (spike 1 0 n j) = spike 1%Z 0%Z n j.
Proof.
  intros Hj. unfold dense_ranks.
  assert (E1 : distinct_below 1 (spike 1 0 n j) = 1%nat).
  { unfold distinct_below, spike. rewrite filter_app. simpl.
    now rewrite !filter_repeat_false. }
  assert (E0 : distinct_below 0 (spike 1 0 n j) = 0%nat).
  { unfold distinct_below, spike. rewrite filter_app. simpl.
    now rewrite !filter_repeat_false. }
  assert (E : forall m, map (fun x => Z.of_nat (distinct_below x (spike 1 0 n j)))
                            (repeat 1 m) = repeat 1%Z m).
  { induction m; simpl; auto. now rewrite IHm, E1. }
  unfold spike at 2 3. rewrite map_app. simpl. now rewrite !E, E0.
Qed.

Lemma fold_max_le l : forall x m,
  (x <= m)%Z -> Forall (fun y => (y <= m)%Z) l -> (fold_left Z.max l x <= m)%Z.
Proof.
  induction l as [|y l IH]; intros x m Hx Hl; simpl; auto.
  inversion Hl; subst. apply IH; auto. lia.
Qed.

Lemma fold_max_ge l : forall x, (x <= fold_left Z.max l x)%Z.
Proof.
  induction l as [|y l IH]; intros x; simpl; [lia|].
  specialize (IH (Z.max x y)). lia.
Qed.

Lemma fold_max_ge_in l : forall x y, In y l -> (y <= fold_left Z.max l x)%Z.
Proof.
  induction l as [|z l IH]; intros x y []; simpl.
  - subst. pose proof (fold_max_ge l (Z.max x y)). lia.
  - now apply IH.
Qed.

(** The maximum of an integer array that holds [m] and nothing above it. *)
Lemma imax_intro l m :
  In m l -> Forall (fun y => (y <= m)%Z) l -> NumPy.imax l = Some m.
Proof.
  destruct l as [|x l]; [intros []|]. intros Hin Hle. simpl. f_equal.
  inversion Hle; subst.
  apply Z.le_antisymm.
  - now apply fold_max_le.
  - destruct Hin as [->|Hin].
    + apply fold_max_ge.
    + now apply fold_max_ge_in.
Qed.

Lemma Forall_repeat {A} (P : A -> Prop) x n : P x -> Forall P (repeat x n).
Proof. intros H. induction n; simpl; auto. Qed.

Lemma Forall_spike {A} (P : A -> Prop) x y n j :
  P x -> P y -> Forall P (spike x y n j).
Proof.
  intros Hx Hy. unfold spike. apply Forall_app. split.
  - now apply Forall_repeat.
  - constructor; auto. now apply Forall_repeat.
Qed.

(** For every label map with two differently labelled pixels [i] and [j]
    there are intensities that agree on the whole object of [i] and give the
    pixel [i] different weights. *)
Lemma rwc_weight_depends_on_other_object (lab : list Z) (i j : nat) :
  (i < length lab)%nat -> (j < length lab)%nat ->
  nth i lab 0%Z <> nth j lab 0%Z ->
  (Z.of_nat (length lab) < 2 ^ 53)%Z ->
  let n := length lab in
  let op := ObjectPixels (repeat 1 n) (repeat 1 n) lab in
  let op' := ObjectPixels (repeat 1 n) (spike 1 0 n j) lab in
  (forall k, (k < n)%nat -> nth k lab 0%Z = nth i lab 0%Z ->
             nth k (second_pixels op) nan = nth k (second_pixels op') nan)
  /\ exists w w',
       rwc_weights_objects op = Some w /\ rwc_weights_objects op' = Some w'
       /\ nth i w nan = 1 /\ nth i w' nan = 0.5.
Proof.
  intros Hi Hj Hne Hlen n op op'.
  assert (En : length lab = n) by reflexivity. clearbody n.
  rewrite En in Hi, Hj, Hlen.
  assert (Hij : i <> j) by (intros ->; congruence).
  assert (N1 : Forall notnan (repeat 1 n)) by (now apply Forall_repeat).
  assert (N2 : Forall notnan (spike 1 0 n j)) by (now apply Forall_spike).
  split.
  - intros k Hk Hl. cbn [second_pixels op op'].
    rewrite nth_spike by auto.
    destruct (Nat.eqb_spec k j) as [->|_]; [congruence|].
    now apply nth_repeat_lt.
  - unfold rwc_weights_objects. cbn [first_pixels second_pixels labels op op'].
    rewrite !lexsort2_rank; auto;
      try (now rewrite repeat_length); try (now rewrite spike_length).
    destruct (rank_weights_same (repeat 1 n)) as (w & Ew & Hl & Hw).
    { destruct n; [lia|discriminate]. }
    { now rewrite repeat_length. }
    exists w. rewrite Ew.
    rewrite dense_ranks_ones, dense_ranks_spike by auto.
    unfold rank_weights.
    rewrite (imax_intro (repeat 0%Z n) 0%Z).
    2:{ destruct n; [lia|]. simpl. auto. }
    2:{ apply Forall_repeat. lia. }
    rewrite (imax_intro (spike 1%Z 0%Z n j) 1%Z).
    2:{ replace 1%Z with (nth i (spike 1%Z 0%Z n j) 0%Z) at 1.
        - apply nth_In. now rewrite spike_length.
        - rewrite nth_spike by auto. now destruct (Nat.eqb_spec i j). }
    2:{ apply Forall_spike; lia. }
    eexists. split; [reflexivity|]. split; [reflexivity|]. split.
    + rewrite Forall_forall in Hw. apply Hw, nth_In. rewrite Hl, repeat_length. exact Hi.
    + rewrite (nth_map_in _ _ _ 0%Z)
        by (rewrite map2_length, repeat_length, spike_length; auto; lia).
      rewrite (nth_map2 _ _ _ _ 0%Z 0%Z)
        by (rewrite ?repeat_length, ?spike_length; auto).
      rewrite nth_repeat_lt, nth_spike by auto.
      destruct (Nat.eqb_spec i j); [contradiction|].
      vm_compute. reflexivity.
Qed.

Lemma object_ranks_dense (op : object_pixels) :
  length (labels op) = length (first_pixels op) ->
  length (labels op) = length (second_pixels op) ->
  Forall notnan (first_pixels op) -> Forall notnan (second_pixels op) ->
  rank_image (first_pixels op) (NumPy.lexsort2 (labels op) (first_pixels op))
  = dense_ranks (first_pixels op)
  /\ rank_image (second_pixels op) (NumPy.lexsort2 (labels op) (second_pixels op))
     = dense_ranks (second_pixels op)
  /\ rwc_weights_objects op
     = rank_weights (dense_ranks (first_pixels op)) (dense_ranks (second_pixels op)).
Proof.
  intros L1 L2 N1 N2.
  assert (R1 := lexsort2_rank (labels op) (first_pixels op) L1 N1).
  assert (R2 := lexsort2_rank (labels op) (second_pixels op) L2 N2).
  repeat split; auto.
  unfold rwc_weights_objects. now rewrite R1, R2.
Qed.

(** C10: within objects the two rank images are the dense ranks of the
    pooled pixels of all objects, whatever their labels, and the weights are
    built from them with one [R]; and for every label map in which pixels
    [i] and [j] belong to different objects there are two images that agree
    on the whole object of [i] and give the pixel [i] the weights 1.0 and
    0.5: the weight depends on the intensities of the other object. *)
Theorem object_ranks_are_pooled :
  (forall op : object_pixels,
      length (labels op) = length (first_pixels op) ->
      length (labels op) = length (second_pixels op) ->
      Forall notnan (first_pixels op) -> Forall notnan (second_pixels op) ->
      rank_image (first_pixels op) (NumPy.lexsort2 (labels op) (first_pixels op))
      = dense_ranks (first_pixels op)
      /\ rank_image (second_pixels op) (NumPy.lexsort2 (labels op) (second_pixels op))
         = dense_ranks (second_pixels op)
      /\ rwc_weights_objects op
         = rank_weights (dense_ranks (first_pixels op))
                        (dense_ranks (second_pixels op)))
  /\ (forall (lab : list Z) (i j : nat),
        (i < length lab)%nat -> (j < length lab)%nat ->
        nth i lab 0%Z <> nth j lab 0%Z ->
        (Z.of_nat (length lab) < 2 ^ 53)%Z ->
        let n := length lab in
        let op := ObjectPixels (repeat 1 n) (repeat 1 n) lab in
        let op' := ObjectPixels (repeat 1 n) (spike 1 0 n j) lab in
        (forall k, (k < n)%nat -> nth k lab 0%Z = nth i lab 0%Z ->
                   nth k (second_pixels op) nan = nth k (second_pixels op') nan)
        /\ exists w w',
             rwc_weights_objects op = Some w /\ rwc_weights_objects op' = Some w'
             /\ nth i w nan = 1 /\ nth i w' nan = 0.5).
Proof.
  split.
  - apply object_ranks_dense.
  - apply rwc_weight_depends_on_other_object.
Qed.

Lemma object_ranks_are_pooled_witness :
  rank_image [2; 1; 2] (NumPy.lexsort2 [1; 2; 2]%Z [2; 1; 2]) = dense_ranks [2; 1; 2]
  /\ exists w w',
       rwc_weights_objects (ObjectPixels [1; 1; 1] [1; 1; 1] [1; 2; 2]%Z) = Some w
       /\ rwc_weights_objects (ObjectPixels [1; 1; 1] [1; 0; 1] [1; 2; 2]%Z) = Some w'
       /\ nth 0 w nan = 1 /\ nth 0 w' nan = 0.5.
Proof.
  split.
  - apply (proj1 object_ranks_are_pooled (ObjectPixels [2; 1; 2] [2; 3; 3] [1; 2; 2]%Z));
      try reflexivity; repeat constructor.
  - apply (proj2 object_ranks_are_pooled [1; 2; 2]%Z 0%nat 1%nat);
      simpl; try lia; discriminate.
Defined.

(** ** The whole-image run returns *)

Lemma bool_index_nonempty {A} (xs : list A) msk :
  NumPy.any msk = true -> (length msk <= length xs)%nat ->
  NumPy.bool_index xs msk <> [].
Proof.
  revert msk. induction xs as [|x xs IH]; intros [|m msk] H Hl; simpl in *;
    try discriminate; try lia.
  destruct m; [discriminate|]. apply IH; auto. lia.
Qed.

Lemma rank_image_length a Rank : length (rank_image a Rank) = length a.
Proof. unfold rank_image. now rewrite scatter_length, repeat_length. Qed.

Lemma imax_nonempty l : l <> [] -> exists m, NumPy.imax l = Some m.
Proof. destruct l; [congruence|]. simpl. eauto. Qed.

Lemma rwc_images_returns fi si td :
  fi <> [] -> si <> [] -> exists r, rwc_images fi si td = Some r.
Proof.
  intros Hf Hs. unfold rwc_images, rank_weights.
  destruct (imax_nonempty (rank_image fi (NumPy.lexsort1 fi))) as [m1 ->].
  { intros E. apply (f_equal (@length _)) in E. rewrite rank_image_length in E.
    destruct fi; [congruence|discriminate]. }
  destruct (imax_nonempty (rank_image si (NumPy.lexsort1 si))) as [m2 ->].
  { intros E. apply (f_equal (@length _)) in E. rewrite rank_image_length in E.
    destruct si; [congruence|discriminate]. }
  eauto.
Qed.

Lemma costes_images_returns L fi si : exists C, costes_images L 255 fi si = Some C.
Proof.
  unfold costes_images, costes_search. destruct (costes_line fi si) as [a b].
  destruct (costes_search_ends L fi si a b) as (st & j & E & _ & _ & T).
  rewrite E, T. eauto.
Qed.

(** With the fuel for 255 iterations of the Costes search, the families
    past the correlation return on samples that are not empty. *)
Lemma image_values_of_returns L s d1 d2 fi si :
  fi <> [] -> si <> [] ->
  (do_corr_and_slope s = true -> lstsq_slope L fi si <> None) ->
  exists v, image_values_of L s d1 d2 255 fi si = Some v.
Proof.
  intros Hf Hs Hl.
  destruct (amax_nonempty fi Hf) as [mf Ef].
  destruct (amax_nonempty si Hs) as [ms Es].
  unfold image_values_of, threshold_images. rewrite Ef, Es.
  destruct (costes_images_returns L fi si) as [C EC].
  destruct s as [p c m r o k]; cbn [do_corr_and_slope do_manders do_rwc do_overlap
                                     do_costes thr] in *.
  assert (Ec : c = true -> exists slope, lstsq_slope L fi si = Some slope).
  { intros Hc. destruct (lstsq_slope L fi si); [eauto|]. now destruct (Hl Hc). }
  destruct c; [destruct (Ec eq_refl) as [slope Esl]|]; clear Ec Hl;
    cbn [when]; cbv zeta; rewrite ?Esl;
  (destruct m, r, o, k; cbn [when orb];
    rewrite ?EC;
    repeat match goal with
           | |- context [rwc_images fi si ?td] =>
               let E := fresh in
               destruct (rwc_images_returns fi si td Hf Hs) as [? E]; rewrite E
           end;
    eauto).
Qed.

(** With the fuel for 255 iterations of the Costes search,
    [run_image_pair_images] returns exactly when the two images align and
    the least-squares fit, where it is called, returns. *)
Lemma run_image_pair_images_returns L s f g first_image second_image :
  (exists r, run_image_pair_images L s 255 f g first_image second_image = Some r)
  <-> exists al,
        align L first_image second_image = Some al
        /\ (do_corr_and_slope s = true -> NumPy.any (valid_mask al) = true ->
            lstsq_slope L (fst (valid_samples al)) (snd (valid_samples al)) <> None).
Proof.
  unfold run_image_pair_images.
  destruct (align L first_image second_image) as [al|];
    [|split; [intros [r H]; discriminate|intros (al & H & _); discriminate]].
  destruct (NumPy.any (valid_mask al)) eqn:Em.
  - unfold valid_samples. cbn [fst snd].
    set (fi := NumPy.bool_index (first_pixel_data al) (valid_mask al)).
    set (si := NumPy.bool_index (second_pixel_data al) (valid_mask al)).
    assert (Hf : fi <> [])
      by (apply bool_index_nonempty; auto; rewrite valid_mask_length; lia).
    assert (Hs : si <> [])
      by (apply bool_index_nonempty; auto; rewrite valid_mask_length; lia).
    split.
    + intros [r H]. exists al. split; [reflexivity|]. intros Hc _ El.
      fold fi si in El. unfold image_values_of in H. rewrite Hc in H.
      cbn [when] in H. cbv zeta in H. rewrite El in H. discriminate.
    + intros (al' & E & Hl). inversion E; subst al'.
      destruct (image_values_of_returns L s (dtype first_image) (dtype second_image)
                  fi si Hf Hs) as [v ->]; eauto.
  - split; [|eauto]. intros _. exists al. split; [reflexivity|].
    intros _ H. congruence.
Qed.

(** * The module around the metrics: settings, image pairs, columns *)

(** ** The image pairs *)

Lemma length_flat_map_seq (len : nat -> nat) {A} (f : nat -> list A) (k : nat) :
  (forall i, length (f i) = len i) ->
  length (flat_map f (seq 0 k))
  = fold_right (fun i acc => len i + acc)%nat 0%nat (seq 0 k).
Proof.
  intros Hf. induction (seq 0 k) as [|i l IH]; simpl; [reflexivity|].
  rewrite length_app, Hf, IH. reflexivity.
Qed.

Lemma pairs_sum (n k : nat) :
  (k <= n - 1)%nat ->
  (2 * fold_right (fun i acc => (n - (i + 1)) + acc) 0 (seq 0 k) + k * (k + 1)
   = 2 * k * n)%nat.
Proof.
  induction k as [|k IH]; intros Hk; [reflexivity|].
  rewrite seq_S, fold_right_app. simpl fold_right.
  assert (E : forall l a,
             (fold_right (fun i acc => (n - (i + 1)) + acc) a l
              = fold_right (fun i acc => (n - (i + 1)) + acc) 0 l + a)%nat).
  { induction l as [|x l IHl]; intros a; simpl; [reflexivity|].
    rewrite IHl. lia. }
  rewrite E. specialize (IH ltac:(lia)). nia.
Qed.

Lemma length_get_image_pairs (m : module_settings) :
  (2 * length (get_image_pairs m) = image_count m * (image_count m - 1))%nat.
Proof.
  unfold get_image_pairs.
  rewrite (length_flat_map_seq (fun i => image_count m - (i + 1))%nat).
  - pose proof (pairs_sum (image_count m) (image_count m - 1) (le_n _)). nia.
  - intros i. rewrite length_map, length_seq. reflexivity.
Qed.

Lemma in_get_image_pairs (m : module_settings) (a b : string) :
  In (a, b) (get_image_pairs m) <->
  exists i j gi gj,
    (i < j)%nat /\
    nth_error (image_groups m) i = Some gi /\
    nth_error (image_groups m) j = Some gj /\
    a = image_name gi /\ b = image_name gj.
Proof.
  unfold get_image_pairs, image_count. rewrite in_flat_map. split.
  - intros (i & Hi & Hin). apply in_map_iff in Hin as (j & E & Hj).
    apply in_seq in Hi. apply in_seq in Hj. inversion E; subst.
    exists i, j. eexists. eexists.
    split; [lia|]. split; [apply nth_error_nth'; lia|].
    split; [apply nth_error_nth'; lia|]. split; reflexivity.
  - intros (i & j & gi & gj & Hij & Hi & Hj & -> & ->).
    assert (Lj : (j < length (image_groups m))%nat)
      by (apply nth_error_Some; congruence).
    exists i. split; [apply in_seq; lia|].
    apply in_map_iff. exists j. split; [|apply in_seq; lia].
    rewrite (nth_error_nth _ _ _ Hi), (nth_error_nth _ _ _ Hj). reflexivity.
Qed.

Lemma NoDup_flat_map {A B} (f : A -> list B) (l : list A) :
  NoDup l ->
  (forall x, In x l -> NoDup (f x)) ->
  (forall x y b, In x l -> In y l -> In b (f x) -> In b (f y) -> x = y) ->
  NoDup (flat_map f l).
Proof.
  induction 1 as [|x l Hx Hl IH]; intros Hf Hd; simpl; [constructor|].
  assert (IH' : NoDup (flat_map f l)).
  { apply IH; intros; [apply Hf; right; assumption|].
    eapply Hd; eauto; right; assumption. }
  clear IH.
  assert (Hfx := Hf x (or_introl eq_refl)).
  assert (Hdis : forall b, In b (f x) -> ~ In b (flat_map f l)).
  { intros b Hb Hin. apply in_flat_map in Hin as (y & Hy & Hby).
    assert (x = y) by (eapply Hd; eauto; [left; reflexivity|right; assumption]).
    subst. contradiction. }
  clear Hf Hd. induction (f x) as [|b l' IHl']; simpl; [exact IH'|].
  inversion Hfx; subst. constructor.
  - rewrite in_app_iff. intros [H|H]; [contradiction|].
    apply (Hdis b); [left; reflexivity|exact H].
  - apply IHl'; [assumption|]. intros b' Hb'. apply Hdis. right. exact Hb'.
Qed.

Lemma NoDup_map_in {A B} (f : A -> B) (l : list A) :
  (forall x y, In x l -> In y l -> f x = f y -> x = y) ->
  NoDup l -> NoDup (map f l).
Proof.
  intros Hinj. induction 1 as [|x l Hx Hl IH]; simpl; constructor.
  - intros Hin. apply in_map_iff in Hin as (y & E & Hy).
    assert (y = x) by (apply Hinj; [right; assumption|left; reflexivity|assumption]).
    subst. contradiction.
  - apply IH. intros; apply Hinj; try right; assumption.
Qed.

Lemma NoDup_names_nth (m : module_settings) (i j : nat) gi gj :
  NoDup (map image_name (image_groups m)) ->
  nth_error (image_groups m) i = Some gi ->
  nth_error (image_groups m) j = Some gj ->
  image_name gi = image_name gj -> i = j.
Proof.
  intros Hnd Hi Hj E.
  rewrite NoDup_nth_error in Hnd. apply Hnd.
  - rewrite length_map. apply nth_error_Some. congruence.
  - rewrite !nth_error_map, Hi, Hj. simpl. congruence.
Qed.

(** X1: [n] images give [n * (n - 1) / 2] image pairs. *)
Theorem get_image_pairs_count (m : module_settings) :
  (2 * length (get_image_pairs m) = image_count m * (image_count m - 1))%nat.
Proof. apply length_get_image_pairs. Qed.

(** X2: the pairs [get_image_pairs] yields are exactly the names of the
    image groups at two positions [i < j], the earlier image first. *)
Theorem get_image_pairs_spec (m : module_settings) (a b : string) :
  In (a, b) (get_image_pairs m) <->
  exists i j gi gj,
    (i < j)%nat /\
    nth_error (image_groups m) i = Some gi /\
    nth_error (image_groups m) j = Some gj /\
    a = image_name gi /\ b = image_name gj.
Proof. apply in_get_image_pairs. Qed.

(** X3: when the image names differ from one another, no pair is yielded
    twice, no image is paired with itself and no pair comes in both
    orders. *)
Theorem get_image_pairs_distinct (m : module_settings) :
  NoDup (map image_name (image_groups m)) ->
  NoDup (get_image_pairs m) /\
  forall a b, In (a, b) (get_image_pairs m) ->
              a <> b /\ ~ In (b, a) (get_image_pairs m).
Proof.
  intros Hnd. split.
  - unfold get_image_pairs, image_count. apply NoDup_flat_map.
    + apply seq_NoDup.
    + intros i Hi. apply in_seq in Hi.
      apply NoDup_map_in; [|apply seq_NoDup].
      intros j j' Hj Hj' E. apply in_seq in Hj, Hj'. inversion E as [E'].
      eapply (NoDup_names_nth m j j'); eauto; apply nth_error_nth'; lia.
    + intros i i' [a b] Hi Hi' Hb Hb'. apply in_seq in Hi, Hi'.
      apply in_map_iff in Hb as (j & E & Hj), Hb' as (j' & E' & Hj').
      apply in_seq in Hj, Hj'. inversion E as [[Ea Eb]]. inversion E' as [[Ea' Eb']].
      eapply (NoDup_names_nth m i i' _ _ Hnd);
        [apply nth_error_nth'; lia|apply nth_error_nth'; lia|].
      rewrite Ea, Ea'. reflexivity.
  - intros a b Hab. apply in_get_image_pairs in Hab
      as (i & j & gi & gj & Hij & Hi & Hj & -> & ->). split.
    + intros E. pose proof (NoDup_names_nth m i j gi gj Hnd Hi Hj E). lia.
    + intros Hba. apply in_get_image_pairs in Hba
        as (i' & j' & gi' & gj' & Hij' & Hi' & Hj' & E1 & E2).
      pose proof (NoDup_names_nth m j i' gj gi' Hnd Hj Hi' E1).
      pose proof (NoDup_names_nth m i j' gi gj' Hnd Hi Hj' E2). lia.
Qed.

Lemma get_image_pairs_distinct_witness :
  NoDup (get_image_pairs Example.both) /\
  forall a b, In (a, b) (get_image_pairs Example.both) ->
              a <> b /\ ~ In (b, a) (get_image_pairs Example.both).
Proof.
  apply (get_image_pairs_distinct Example.both).
  simpl. repeat constructor; simpl; intuition discriminate.
Defined.

(** ** Preparing the settings *)

Lemma slice_index_nonneg {A} (l : list A) (k : Z) :
  (0 <= k)%Z -> slice_index l k = Z.to_nat k.
Proof. intros H. unfold slice_index. destruct (Z.ltb_spec k 0); [lia|reflexivity]. Qed.

Lemma slice_index_neg {A} (l : list A) (k : Z) :
  (k < 0)%Z -> slice_index l k = (length l - Z.to_nat (- k))%nat.
Proof. intros H. unfold slice_index. destruct (Z.ltb_spec k 0); lia. Qed.

Lemma slice_to_from {A} (l : list A) (k : Z) : slice_to l k ++ slice_from l k = l.
Proof. apply firstn_skipn. Qed.

(** The loop that adds image groups stops on the count asked for: the
    groups it finds are kept and the new ones carry no image name yet. *)
Lemma add_images_while_spec (K : constants) (n : Z) (fuel : nat) :
  forall m,
    (Z.to_nat (n - Z.of_nat (length (image_groups m))) <= fuel)%nat ->
    let m' := add_images_while K fuel n m in
    map image_name (image_groups m')
    = map image_name (image_groups m)
      ++ repeat (NONE K) (Z.to_nat (n - Z.of_nat (length (image_groups m)))) /\
    (exists fresh, image_groups m' = image_groups m ++ fresh) /\
    object_groups m' = object_groups m /\
    images_or_objects m' = images_or_objects m /\
    do_all m' = do_all m /\ metrics m' = metrics m.
Proof.
  induction fuel as [|fuel IH]; intros m Hf; cbn zeta.
  - simpl. replace (Z.to_nat _) with O by lia. simpl. rewrite app_nil_r.
    repeat split; try reflexivity. exists []. symmetry. apply app_nil_r.
  - simpl. destruct (Z.ltb_spec (Z.of_nat (length (image_groups m))) n) as [Hlt|Hge].
    + specialize (IH (add_image K true m)). cbn zeta in IH.
      assert (Hlen : length (image_groups (add_image K true m))
                     = S (length (image_groups m))).
      { simpl. rewrite length_app. simpl. lia. }
      rewrite Hlen in IH.
      destruct IH as (E1 & (fresh & E2) & E3 & E4 & E5 & E6); [lia|].
      rewrite E1, E2, E3, E4, E5, E6. simpl.
      repeat split; try reflexivity.
      * rewrite map_app, <- app_assoc. f_equal. simpl.
        replace (Z.to_nat (n - Z.of_nat (length (image_groups m))))
          with (S (Z.to_nat (n - Z.of_nat (S (length (image_groups m)))))) by lia.
        reflexivity.
      * rewrite <- app_assoc. eexists. reflexivity.
    + replace (Z.to_nat _) with O by lia. simpl. rewrite app_nil_r.
      repeat split; try reflexivity. exists []. symmetry. apply app_nil_r.
Qed.

Lemma add_objects_while_spec (K : constants) (n : Z) (fuel : nat) :
  forall m,
    (Z.to_nat (n - Z.of_nat (length (object_groups m))) <= fuel)%nat ->
    let m' := add_objects_while K fuel n m in
    object_groups m'
    = object_groups m
      ++ repeat (ObjectGroup true (NONE K) true)
           (Z.to_nat (n - Z.of_nat (length (object_groups m)))) /\
    image_groups m' = image_groups m /\
    images_or_objects m' = images_or_objects m /\
    do_all m' = do_all m /\ metrics m' = metrics m.
Proof.
  induction fuel as [|fuel IH]; intros m Hf; cbn zeta.
  - simpl. replace (Z.to_nat _) with O by lia. simpl. rewrite app_nil_r.
    repeat split; reflexivity.
  - simpl. destruct (Z.ltb_spec (Z.of_nat (length (object_groups m))) n) as [Hlt|Hge].
    + specialize (IH (add_object K true m)). cbn zeta in IH.
      assert (Hlen : length (object_groups (add_object K true m))
                     = S (length (object_groups m))).
      { simpl. rewrite length_app. simpl. lia. }
      rewrite Hlen in IH.
      destruct IH as (E1 & E3 & E4 & E5 & E6); [lia|].
      rewrite E1, E3, E4, E5, E6. simpl.
      repeat split; try reflexivity.
      rewrite <- app_assoc. f_equal. simpl.
      replace (Z.to_nat (n - Z.of_nat (length (object_groups m))))
        with (S (Z.to_nat (n - Z.of_nat (S (length (object_groups m)))))) by lia.
      reflexivity.
    + replace (Z.to_nat _) with O by lia. simpl. rewrite app_nil_r.
      repeat split; reflexivity.
Qed.

Lemma add_images_while_done (K : constants) (n : Z) (fuel : nat) (m : module_settings) :
  (n <= Z.of_nat (length (image_groups m)))%Z -> add_images_while K fuel n m = m.
Proof.
  intros H. destruct fuel; simpl; [reflexivity|].
  destruct (Z.ltb_spec (Z.of_nat (length (image_groups m))) n); [lia|reflexivity].
Qed.

Lemma add_objects_while_done (K : constants) (n : Z) (fuel : nat) (m : module_settings) :
  (n <= Z.of_nat (length (object_groups m)))%Z -> add_objects_while K fuel n m = m.
Proof.
  intros H. destruct fuel; simpl; [reflexivity|].
  destruct (Z.ltb_spec (Z.of_nat (length (object_groups m))) n); [lia|reflexivity].
Qed.

(** The groups [prepare_settings] leaves, when it returns. *)
Lemma prepare_settings_returned (K : constants) (int : string -> option Z)
    (setting_values : list string) (m m' : module_settings) :
  prepare_settings K int setting_values m = Returned m' ->
  exists v0 v1 rest n k,
    setting_values = v0 :: v1 :: rest /\ int v0 = Some n /\ int v1 = Some k /\
    (2 <= n)%Z /\
    map image_name (image_groups m')
    = map image_name (slice_to (image_groups m) n)
      ++ repeat (NONE K)
           (Z.to_nat (n - Z.of_nat (length (slice_to (image_groups m) n)))) /\
    object_groups m'
    = slice_to (object_groups m) k
      ++ repeat (ObjectGroup true (NONE K) true)
           (Z.to_nat (k - Z.of_nat (length (slice_to (object_groups m) k)))) /\
    (exists fresh, image_groups m' = slice_to (image_groups m) n ++ fresh) /\
    images_or_objects m' = images_or_objects m /\
    do_all m' = do_all m /\ metrics m' = metrics m.
Proof.
  unfold prepare_settings. intros H.
  destruct setting_values as [|v0 [|v1 rest]]; simpl in H.
  - discriminate.
  - destruct (int v0); discriminate.
  - destruct (int v0) as [n|] eqn:E0; [|discriminate].
    destruct (int v1) as [k|] eqn:E1; [|discriminate].
    destruct (Z.ltb_spec n 2) as [|Hn]; [discriminate|].
    injection H as <-.
    exists v0, v1, rest, n, k. repeat (split; [first [reflexivity|assumption]|]).
    match goal with
    | |- context [add_objects_while K ?f k ?m3] =>
        pose proof (add_objects_while_spec K k f m3) as Ho
    end.
    cbn zeta in Ho.
    match type of Ho with
    | context [add_images_while K ?f n ?m1] =>
        pose proof (add_images_while_spec K n f m1) as Hi
    end.
    cbn zeta in Hi.
    cbn [image_groups object_groups images_or_objects do_all metrics] in Hi, Ho.
    destruct Hi as (I1 & I2 & I3 & I4 & I5 & I6); [lia|].
    destruct Ho as (O1 & O2 & O3 & O4 & O5).
    { rewrite I3. unfold slice_to. rewrite length_firstn.
      unfold slice_index. destruct (Z.ltb_spec k 0); lia. }
    rewrite O1, O2, O3, O4, O5, I1, I3, I4, I5, I6.
    repeat split; try reflexivity. exact I2.
Qed.

Lemma prepare_settings_returns (K : constants) (int : string -> option Z)
    (v0 v1 : string) (rest : list string) (m : module_settings) (n k : Z) :
  int v0 = Some n -> int v1 = Some k -> (2 <= n)%Z ->
  exists m', prepare_settings K int (v0 :: v1 :: rest) m = Returned m'.
Proof.
  intros E0 E1 Hn. unfold prepare_settings. simpl. rewrite E0, E1.
  destruct (Z.ltb_spec n 2); [lia|]. eexists. reflexivity.
Qed.

(** X4: with both counts readable, [prepare_settings] raises [ValueError]
    exactly when fewer than two images are asked for, and returns
    otherwise. *)
Theorem prepare_settings_needs_two_images (K : constants)
    (int : string -> option Z) (v0 v1 : string) (rest : list string)
    (m : module_settings) (n k : Z) :
  int v0 = Some n -> int v1 = Some k ->
  ((n < 2)%Z <-> prepare_settings K int (v0 :: v1 :: rest) m = Raised ExcValueError) /\
  ((2 <= n)%Z <-> exists m', prepare_settings K int (v0 :: v1 :: rest) m = Returned m').
Proof.
  intros E0 E1. unfold prepare_settings. simpl. rewrite E0, E1.
  destruct (Z.ltb_spec n 2) as [Hn|Hn]; split; split; intros H;
    try reflexivity; try lia; try discriminate.
  - destruct H as [m' H]. discriminate.
  - eexists. reflexivity.
Qed.

Lemma prepare_settings_needs_two_images_witness :
  ((1 < 2)%Z <->
   prepare_settings cellprofiler_constants int_decimal ["1"; "1"]
     (create_settings cellprofiler_constants) = Raised ExcValueError) /\
  ((2 <= 1)%Z <->
   exists m', prepare_settings cellprofiler_constants int_decimal ["1"; "1"]
                (create_settings cellprofiler_constants) = Returned m').
Proof.
  apply (prepare_settings_needs_two_images cellprofiler_constants int_decimal
           "1" "1" [] (create_settings cellprofiler_constants) 1 1);
    reflexivity.
Defined.

(** X5: when [prepare_settings] returns, the module has exactly the image
    and object counts read from the setting values; the names of the groups
    it had are kept in order, the groups added are named [NONE], and the
    other settings are untouched. *)
Theorem prepare_settings_group_counts (K : constants)
    (int : string -> option Z) (v0 v1 : string) (rest : list string)
    (m m' : module_settings) (n k : Z) :
  int v0 = Some n -> int v1 = Some k -> (0 <= k)%Z ->
  prepare_settings K int (v0 :: v1 :: rest) m = Returned m' ->
  Z.of_nat (image_count m') = n /\
  Z.of_nat (object_count m') = k /\
  map image_name (image_groups m')
  = firstn (Z.to_nat n) (map image_name (image_groups m))
    ++ repeat (NONE K) (Z.to_nat n - image_count m) /\
  map object_name (object_groups m')
  = firstn (Z.to_nat k) (map object_name (object_groups m))
    ++ repeat (NONE K) (Z.to_nat k - object_count m) /\
  images_or_objects m' = images_or_objects m /\
  do_all m' = do_all m /\ metrics m' = metrics m.
Proof.
  intros E0 E1 Hk H.
  apply prepare_settings_returned in H
    as (v0' & v1' & rest' & n' & k' & E & E0' & E1' & Hn & HI & HO & _ & H3 & H4 & H5).
  injection E as <- <- <-. rewrite E0 in E0'. rewrite E1 in E1'.
  injection E0' as <-. injection E1' as <-.
  unfold slice_to in HI, HO.
  rewrite !slice_index_nonneg in HI by lia. rewrite !slice_index_nonneg in HO by lia.
  rewrite length_firstn in HI. rewrite length_firstn in HO.
  assert (LI : length (map image_name (image_groups m')) = Z.to_nat n).
  { rewrite HI, length_app, length_map, length_firstn, repeat_length. lia. }
  assert (LO : length (object_groups m') = Z.to_nat k).
  { rewrite HO, length_app, length_firstn, repeat_length. lia. }
  rewrite length_map in LI. unfold image_count, object_count.
  repeat split; try assumption; try lia.
  - rewrite HI, firstn_map. f_equal. f_equal. lia.
  - rewrite HO, map_app, firstn_map, map_repeat. simpl. f_equal. f_equal. lia.
Qed.

Lemma prepare_settings_group_counts_witness :
  exists m',
    prepare_settings cellprofiler_constants int_decimal ["3"; "0"; "DNA"]
      (create_settings cellprofiler_constants) = Returned m' /\
    Z.of_nat (image_count m') = 3%Z /\ Z.of_nat (object_count m') = 0%Z.
Proof.
  eexists. split; [reflexivity|].
  pose proof (prepare_settings_group_counts cellprofiler_constants int_decimal
                "3" "0" ["DNA"] (create_settings cellprofiler_constants) _ 3 0
                eq_refl eq_refl ltac:(lia) eq_refl) as H.
  split; [exact (proj1 H)|exact (proj1 (proj2 H))].
Defined.

(** X6: a negative object count is not rejected: [prepare_settings] returns
    and drops that many object groups from the end of the list. *)
Theorem prepare_settings_negative_object_count (K : constants)
    (int : string -> option Z) (v0 v1 : string) (rest : list string)
    (m : module_settings) (n k : Z) :
  int v0 = Some n -> int v1 = Some k -> (2 <= n)%Z -> (k < 0)%Z ->
  exists m',
    prepare_settings K int (v0 :: v1 :: rest) m = Returned m' /\
    object_groups m'
    = firstn (object_count m - Z.to_nat (- k)) (object_groups m).
Proof.
  intros E0 E1 Hn Hk.
  destruct (prepare_settings_returns K int v0 v1 rest m n k E0 E1 Hn) as [m' H].
  exists m'. split; [exact H|].
  apply prepare_settings_returned in H
    as (v0' & v1' & rest' & n' & k' & E & E0' & E1' & _ & _ & HO & _).
  injection E as <- <- <-. rewrite E1 in E1'. injection E1' as <-.
  rewrite HO. unfold slice_to. rewrite slice_index_neg by lia.
  match goal with |- context [repeat _ ?c] => replace c with O by lia end.
  simpl. apply app_nil_r.
Qed.

Lemma prepare_settings_negative_object_count_witness :
  exists m',
    prepare_settings cellprofiler_constants int_decimal ["2"; "-1"]
      (create_settings cellprofiler_constants) = Returned m' /\
    object_groups m'
    = firstn (object_count (create_settings cellprofiler_constants) - Z.to_nat (- -1))
        (object_groups (create_settings cellprofiler_constants)).
Proof.
  apply (prepare_settings_negative_object_count cellprofiler_constants int_decimal
           "2" "-1" [] (create_settings cellprofiler_constants) 2 (-1));
    [reflexivity|reflexivity|lia|lia].
Defined.

(** X7: setting values that carry the module's own counts leave the module
    as it is. *)
Theorem prepare_settings_round_trip (K : constants)
    (int : string -> option Z) (v0 v1 : string) (rest : list string)
    (m : module_settings) :
  int v0 = Some (Z.of_nat (image_count m)) ->
  int v1 = Some (Z.of_nat (object_count m)) ->
  (2 <= image_count m)%nat ->
  prepare_settings K int (v0 :: v1 :: rest) m = Returned m.
Proof.
  intros E0 E1 Hn. unfold prepare_settings. simpl. rewrite E0, E1.
  destruct (Z.ltb_spec (Z.of_nat (image_count m)) 2) as [|_]; [lia|].
  unfold slice_to. rewrite !slice_index_nonneg by lia. rewrite !Nat2Z.id.
  unfold image_count. rewrite firstn_all.
  rewrite add_images_while_done by (simpl; lia).
  cbn [image_groups object_groups images_or_objects do_all metrics].
  unfold object_count. rewrite firstn_all.
  rewrite add_objects_while_done by (simpl; lia).
  destruct m; reflexivity.
Qed.

Lemma prepare_settings_round_trip_witness :
  prepare_settings cellprofiler_constants int_decimal ["2"; "1"; "DNA"; "Actin"]
    (create_settings cellprofiler_constants)
  = Returned (create_settings cellprofiler_constants).
Proof.
  apply (prepare_settings_round_trip cellprofiler_constants int_decimal "2" "1"
           ["DNA"; "Actin"] (create_settings cellprofiler_constants));
    [reflexivity|reflexivity|vm_compute; lia].
Defined.

(** X8: a module [prepare_settings] has accepted always has an image pair
    to measure. *)
Theorem prepare_settings_leaves_pairs (K : constants)
    (int : string -> option Z) (setting_values : list string)
    (m m' : module_settings) :
  prepare_settings K int setting_values m = Returned m' ->
  (1 <= length (get_image_pairs m'))%nat.
Proof.
  intros H.
  apply prepare_settings_returned in H
    as (v0 & v1 & rest & n & k & E & E0 & E1 & Hn & HI & _).
  assert (L : Z.of_nat (image_count m') = n).
  { unfold image_count. rewrite <- (length_map image_name), HI.
    rewrite length_app, length_map, repeat_length.
    unfold slice_to. rewrite length_firstn, slice_index_nonneg by lia. lia. }
  pose proof (length_get_image_pairs m'). nia.
Qed.

Lemma prepare_settings_leaves_pairs_witness :
  (1 <= length (get_image_pairs (create_settings cellprofiler_constants)))%nat.
Proof.
  apply (prepare_settings_leaves_pairs cellprofiler_constants int_decimal
           ["2"; "1"] (create_settings cellprofiler_constants)).
  reflexivity.
Defined.

(** ** Upgrading saved settings *)

(** X9: [upgrade_settings] raises [NotImplementedError] exactly for a
    MATLAB pipeline or a revision below 2. *)
Theorem upgrade_settings_not_implemented (int : string -> option Z)
    (setting_values : list string) (variable_revision_number : Z)
    (from_matlab : bool) :
  upgrade_settings int setting_values variable_revision_number from_matlab
  = Raised ExcNotImplementedError
  <-> from_matlab = true \/ (variable_revision_number < 2)%Z.
Proof.
  unfold upgrade_settings. destruct from_matlab; [tauto|].
  destruct (Z.ltb_spec variable_revision_number 2) as [H|H]; [tauto|].
  split; [|intros [?|?]; [discriminate|lia]].
  destruct (variable_revision_number =? 2)%Z; [|discriminate].
  destruct (nth_error setting_values 0); [|discriminate].
  destruct (int s); discriminate.
Qed.

(** X10: an upgrade that returns loses and reorders nothing: from
    revision 2 the new values are the old ones with ["15.0"] inserted at one
    place and the revision becomes 3; from a later revision nothing
    changes. *)
Theorem upgrade_settings_keeps_values (int : string -> option Z)
    (setting_values new_values : list string)
    (variable_revision_number new_revision : Z) (from_matlab new_matlab : bool) :
  upgrade_settings int setting_values variable_revision_number from_matlab
  = Returned (new_values, new_revision, new_matlab) ->
  new_matlab = false /\ (3 <= new_revision)%Z /\
  ((variable_revision_number = 2%Z /\ new_revision = 3%Z /\
    exists before after,
      setting_values = before ++ after /\
      new_values = before ++ "15.0" :: after)
   \/ (variable_revision_number = new_revision /\ new_values = setting_values)).
Proof.
  unfold upgrade_settings. destruct from_matlab; [discriminate|].
  destruct (Z.ltb_spec variable_revision_number 2) as [H|H]; [discriminate|].
  destruct (Z.eqb_spec variable_revision_number 2) as [E|E].
  - destruct (nth_error setting_values 0); [|discriminate].
    destruct (int s) as [image_count|]; [|discriminate].
    intros [= <- <- <-]. split; [reflexivity|]. split; [lia|]. left.
    split; [exact E|]. split; [reflexivity|].
    exists (slice_to setting_values (image_count + 2)),
           (slice_from setting_values (image_count + 2)).
    split; [symmetry; apply slice_to_from|reflexivity].
  - intros [= <- <- <-]. split; [reflexivity|]. split; [lia|]. right.
    split; reflexivity.
Qed.

Lemma upgrade_settings_keeps_values_witness :
  exists before after,
    ["2"; "1"; "DNA"; "Actin"; "Both"; "Nuclei"] = before ++ after /\
    ["2"; "1"; "DNA"; "Actin"; "15.0"; "Both"; "Nuclei"] = before ++ "15.0" :: after.
Proof.
  destruct (upgrade_settings_keeps_values int_decimal
              ["2"; "1"; "DNA"; "Actin"; "Both"; "Nuclei"]
              ["2"; "1"; "DNA"; "Actin"; "15.0"; "Both"; "Nuclei"] 2 3 false false
              eq_refl) as (_ & _ & [(_ & _ & H)|(H & _)]).
  - exact H.
  - discriminate H.
Defined.

(** X11: for revision-2 values that start with a count of [n] images and
    hold at least the counts and the [n] image names, the threshold ["15.0"]
    is inserted at index [n + 2], right after the image names; the values
    before keep their index and the values after move up by one. *)
Theorem upgrade_settings_threshold_position (int : string -> option Z)
    (v0 : string) (rest : list string) (image_count : Z) :
  int v0 = Some image_count ->
  (0 <= image_count)%Z ->
  (Z.to_nat image_count + 1 <= length rest)%nat ->
  exists new_values,
    upgrade_settings int (v0 :: rest) 2 false = Returned (new_values, 3%Z, false) /\
    length new_values = S (length (v0 :: rest)) /\
    nth_error new_values (Z.to_nat image_count + 2) = Some "15.0" /\
    (forall i, (i < Z.to_nat image_count + 2)%nat ->
               nth_error new_values i = nth_error (v0 :: rest) i) /\
    (forall i, (Z.to_nat image_count + 2 <= i)%nat ->
               nth_error new_values (S i) = nth_error (v0 :: rest) i).
Proof.
  intros E Hn Hlen. unfold upgrade_settings.
  cbn [nth_error Z.ltb Z.eqb Z.compare Pos.compare Pos.compare_cont].
  rewrite E. eexists. split; [reflexivity|].
  unfold slice_to, slice_from. rewrite slice_index_nonneg by lia.
  replace (Z.to_nat (image_count + 2)) with (Z.to_nat image_count + 2)%nat by lia.
  set (idx := (Z.to_nat image_count + 2)%nat).
  set (l := v0 :: rest).
  assert (Hl : (idx <= length l)%nat) by (unfold idx, l; cbn [length]; lia).
  assert (Lf : length (firstn idx l) = idx) by (rewrite length_firstn; lia).
  repeat split.
  - rewrite length_app, Lf. cbn [app length]. rewrite length_skipn. fold l. lia.
  - rewrite nth_error_app2 by lia. rewrite Lf, Nat.sub_diag. reflexivity.
  - intros i Hi. rewrite nth_error_app1 by lia. rewrite nth_error_firstn.
    destruct (Nat.ltb_spec i idx); [reflexivity|lia].
  - intros i Hi.
    change (nth_error (firstn idx l ++ ["15.0"] ++ skipn idx l) (S i) = nth_error l i).
    rewrite nth_error_app2 by lia. rewrite Lf.
    replace (S i - idx)%nat with (S (i - idx)) by lia. simpl.
    rewrite nth_error_skipn. f_equal. lia.
Qed.

Lemma upgrade_settings_threshold_position_witness :
  exists new_values,
    upgrade_settings int_decimal ["2"; "1"; "DNA"; "Actin"; "Both"; "Nuclei"] 2 false
    = Returned (new_values, 3%Z, false) /\
    nth_error new_values 4 = Some "15.0".
Proof.
  destruct (upgrade_settings_threshold_position int_decimal "2"
              ["1"; "DNA"; "Actin"; "Both"; "Nuclei"] 2 eq_refl
              ltac:(lia) ltac:(simpl; lia)) as (nv & H1 & _ & H2 & _).
  exists nv. split; [exact H1|exact H2].
Defined.

(** X12: upgrading what an upgrade returned changes nothing more. *)
Theorem upgrade_settings_idempotent (int : string -> option Z)
    (setting_values new_values : list string)
    (variable_revision_number new_revision : Z) (from_matlab new_matlab : bool) :
  upgrade_settings int setting_values variable_revision_number from_matlab
  = Returned (new_values, new_revision, new_matlab) ->
  upgrade_settings int new_values new_revision new_matlab
  = Returned (new_values, new_revision, new_matlab).
Proof.
  unfold upgrade_settings. destruct from_matlab; [discriminate|].
  destruct (Z.ltb_spec variable_revision_number 2) as [H|H]; [discriminate|].
  destruct (Z.eqb_spec variable_revision_number 2) as [E|E].
  - destruct (nth_error setting_values 0); [|discriminate].
    destruct (int s) as [image_count|]; [|discriminate].
    intros [= <- <- <-]. reflexivity.
  - intros [= <- <- <-].
    destruct (Z.ltb_spec variable_revision_number 2); [lia|].
    destruct (Z.eqb_spec variable_revision_number 2); [lia|]. reflexivity.
Qed.

Lemma upgrade_settings_idempotent_witness :
  upgrade_settings int_decimal ["2"; "1"; "DNA"; "Actin"; "15.0"; "Both"; "Nuclei"]
    3 false
  = Returned (["2"; "1"; "DNA"; "Actin"; "15.0"; "Both"; "Nuclei"], 3%Z, false).
Proof.
  apply (upgrade_settings_idempotent int_decimal
           ["2"; "1"; "DNA"; "Actin"; "Both"; "Nuclei"] _ 2 3 false false).
  reflexivity.
Defined.

(** ** The list of settings *)

(** X13: [settings] lists the image count first and the object count
    second, the places [prepare_settings] reads them from, then the image
    names, and the threshold at index [image_count + 2], the place
    [upgrade_settings] inserts it at; there are ten settings besides the
    names. *)
Theorem settings_layout (m : module_settings) :
  length (settings_of m) = (image_count m + object_count m + 10)%nat /\
  nth_error (settings_of m) 0 = Some (CountSetting (image_count m)) /\
  nth_error (settings_of m) 1 = Some (CountSetting (object_count m)) /\
  (forall i g, nth_error (image_groups m) i = Some g ->
               nth_error (settings_of m) (i + 2) = Some (NameSetting (image_name g))) /\
  nth_error (settings_of m) (image_count m + 2)
  = Some (FloatSetting (thr (metrics m))).
Proof.
  unfold settings_of, image_count, object_count. repeat split.
  - rewrite !length_app, !length_map. cbn [length]. lia.
  - intros i g Hi. replace (i + 2)%nat with (S (S i)) by lia.
    cbn [app nth_error].
    assert (Li : (i < length (image_groups m))%nat)
      by (apply nth_error_Some; congruence).
    rewrite nth_error_app1 by (rewrite length_map; exact Li).
    rewrite nth_error_map, Hi. reflexivity.
  - replace (length (image_groups m) + 2)%nat
      with (S (S (length (image_groups m)))) by lia.
    cbn [app nth_error].
    rewrite nth_error_app2 by (rewrite length_map; lia).
    rewrite length_map, Nat.sub_diag. reflexivity.
Qed.

(** ** The measurements recorded and the columns declared *)

Lemma when_flag {A} (flag : bool) (c : option A) (r : option A) :
  when flag c = Some r -> (flag = true -> r <> None) /\ (flag = false -> r = None).
Proof.
  unfold when. destruct flag.
  - destruct c; [|discriminate]. intros [= <-]. split; congruence.
  - intros [= <-]. split; congruence.
Qed.

(** The names of the image measurements of a pair, as [pair_columns] lists
    them. *)
Lemma image_measurements_names (K : constants) (s : settings) (f g : string)
    (v : image_values) :
  (do_corr_and_slope s = true -> iv_corr_slope v <> None) ->
  (do_overlap s = true -> iv_overlap v <> None) ->
  (do_manders s = true -> iv_manders v <> None) ->
  (do_rwc s = true -> iv_rwc v <> None) ->
  (do_costes s = true -> iv_costes v <> None) ->
  map (fun nv => (IMAGE K, fst nv)) (image_measurements s f g v)
  = map fst (pair_columns K s true (IMAGE K) f g).
Proof.
  intros H1 H2 H3 H4 H5. unfold image_measurements, pair_columns.
  rewrite !map_app. repeat f_equal.
  - destruct (do_corr_and_slope s); [|reflexivity].
    destruct (iv_corr_slope v) as [[]|]; [reflexivity|]. now destruct H1.
  - destruct (do_overlap s); [|reflexivity].
    destruct (iv_overlap v) as [[[]]|]; [reflexivity|]. now destruct H2.
  - destruct (do_manders s); [|reflexivity].
    destruct (iv_manders v) as [[]|]; [reflexivity|]. now destruct H3.
  - destruct (do_rwc s); [|reflexivity].
    destruct (iv_rwc v) as [[]|]; [reflexivity|]. now destruct H4.
  - destruct (do_costes s); [|reflexivity].
    destruct (iv_costes v) as [[]|]; [reflexivity|]. now destruct H5.
Qed.

Lemma image_values_of_bound (L : library) (s : settings) (d1 d2 : NumPy.dtype)
    (fuel : nat) (fi si : list float) (v : image_values) :
  image_values_of L s d1 d2 fuel fi si = Some v ->
  (do_corr_and_slope s = true -> iv_corr_slope v <> None) /\
  (do_overlap s = true -> iv_overlap v <> None) /\
  (do_manders s = true -> iv_manders v <> None) /\
  (do_rwc s = true -> iv_rwc v <> None) /\
  (do_costes s = true -> iv_costes v <> None).
Proof.
  unfold image_values_of. intros H.
  destruct (when (do_corr_and_slope s) _) as [corr_slope|] eqn:Ecs; [|discriminate].
  destruct (when (do_manders s || do_rwc s || do_overlap s) _) as [td|]; [|discriminate].
  destruct (when (do_manders s) _) as [manders|] eqn:Em; [|discriminate].
  destruct (when (do_rwc s) _) as [rwc|] eqn:Er; [|discriminate].
  destruct (when (do_overlap s) _) as [overlap|] eqn:Eo; [|discriminate].
  destruct (when (do_costes s) _) as [costes|] eqn:Ec; [|discriminate].
  injection H as <-. cbn [iv_corr_slope iv_overlap iv_manders iv_rwc iv_costes].
  apply when_flag in Ecs, Em, Er, Eo, Ec.
  repeat split; tauto.
Qed.

Lemma run_image_pair_images_names (K : constants) (L : library) (s : settings)
    (fuel : nat) (f g : string) (first_image second_image : image)
    (rows : list row) (recorded : list (string * float)) :
  run_image_pair_images L s fuel f g first_image second_image = Some (rows, recorded) ->
  map (fun nv => (IMAGE K, fst nv)) recorded
  = map fst (pair_columns K s true (IMAGE K) f g).
Proof.
  unfold run_image_pair_images. intros H.
  destruct (align L first_image second_image) as [al|]; [|discriminate].
  cbv zeta in H. destruct (NumPy.any _).
  - destruct (valid_samples _) as [fi si].
    destruct (image_values_of L s _ _ fuel fi si) as [v|] eqn:Ev; [|discriminate].
    injection H as <- <-.
    apply image_values_of_bound in Ev as (H1 & H2 & H3 & H4 & H5).
    apply image_measurements_names; assumption.
  - injection H as <- <-.
    apply image_measurements_names; intros _; discriminate.
Qed.

Lemma object_measurements_names (K : constants) (s : settings) (f g o : string)
    (v : object_values) :
  (do_corr_and_slope s = true -> ov_corr v <> None) ->
  (do_overlap s = true -> ov_overlap v <> None) ->
  (do_manders s = true -> ov_manders v <> None) ->
  (do_rwc s = true -> ov_rwc v <> None) ->
  (do_costes s = true -> ov_costes v <> None) ->
  Permutation (map (fun nv => (o, fst nv)) (object_measurements s f g v))
              (map fst (pair_columns K s false o f g)).
Proof.
  intros H1 H2 H3 H4 H5. unfold object_measurements, pair_columns.
  rewrite !map_app.
  set (A := map _ (match do_corr_and_slope s, ov_corr v with
                   | true, Some _ => _ | _, _ => _ end)).
  set (A' := map fst (if do_corr_and_slope s then _ else _)).
  set (M := map _ (match do_manders s, ov_manders v with
                   | true, Some _ => _ | _, _ => _ end)).
  set (M' := map fst (if do_manders s then _ else _)).
  set (R := map _ (match do_rwc s, ov_rwc v with
                   | true, Some _ => _ | _, _ => _ end)).
  set (R' := map fst (if do_rwc s then _ else _)).
  set (O := map _ (match do_overlap s, ov_overlap v with
                   | true, Some _ => _ | _, _ => _ end)).
  set (O' := map fst (if do_overlap s then _ else _)).
  set (C := map _ (match do_costes s, ov_costes v with
                   | true, Some _ => _ | _, _ => _ end)).
  set (C' := map fst (if do_costes s then _ else _)).
  assert (EA : A = A').
  { unfold A, A'. destruct (do_corr_and_slope s); [|reflexivity].
    destruct (ov_corr v); [reflexivity|]. now destruct H1. }
  assert (EO : O = O').
  { unfold O, O'. destruct (do_overlap s); [|reflexivity].
    destruct (ov_overlap v) as [[[]]|]; [reflexivity|]. now destruct H2. }
  assert (EM : M = M').
  { unfold M, M'. destruct (do_manders s); [|reflexivity].
    destruct (ov_manders v) as [[]|]; [reflexivity|]. now destruct H3. }
  assert (ER : R = R').
  { unfold R, R'. destruct (do_rwc s); [|reflexivity].
    destruct (ov_rwc v) as [[]|]; [reflexivity|]. now destruct H4. }
  assert (EC : C = C').
  { unfold C, C'. destruct (do_costes s); [|reflexivity].
    destruct (ov_costes v) as [[]|]; [reflexivity|]. now destruct H5. }
  rewrite <- EA, <- EO, <- EM, <- ER, <- EC.
  apply Permutation_app_head.
  rewrite !app_assoc. apply Permutation_app_tail.
  rewrite <- (app_assoc O M R). apply Permutation_app_comm.
Qed.

Lemma object_values_of_bound (L : library) (s : settings) (d1 d2 : NumPy.dtype)
    (fuel : nat) (f g o : string) (fi si : list float) (op : object_pixels)
    (n : nat) (rows : list row) (v : object_values) :
  object_values_of L s d1 d2 fuel f g o fi si op n = Some (rows, v) ->
  (do_corr_and_slope s = true -> ov_corr v <> None) /\
  (do_overlap s = true -> ov_overlap v <> None) /\
  (do_manders s = true -> ov_manders v <> None) /\
  (do_rwc s = true -> ov_rwc v <> None) /\
  (do_costes s = true -> ov_costes v <> None).
Proof.
  unfold object_values_of. intros H. cbv zeta in H.
  destruct (when (do_corr_and_slope s) _) as [corr|] eqn:Eco; [|discriminate].
  cbn beta iota in H.
  destruct (match corr with Some c => _ | None => _ end) as [rows_corr|];
    [|discriminate].
  cbn beta iota in H.
  destruct (when (do_manders s || do_rwc s || do_overlap s) _) as [td|];
    [|discriminate].
  cbn beta iota in H.
  destruct (when (do_manders s) _) as [manders|] eqn:Em; [|discriminate].
  cbn beta iota in H.
  destruct (match manders with Some p => _ | None => _ end) as [rows_manders|];
    [|discriminate].
  cbn beta iota in H.
  destruct (when (do_rwc s) _) as [rwc|] eqn:Er; [|discriminate].
  cbn beta iota in H.
  destruct (match rwc with Some p => _ | None => _ end) as [rows_rwc|]; [|discriminate].
  cbn beta iota in H.
  destruct (when (do_overlap s) _) as [overlap|] eqn:Eo; [|discriminate].
  cbn beta iota in H.
  destruct (match overlap with Some p => _ | None => _ end) as [rows_overlap|];
    [|discriminate].
  cbn beta iota in H.
  destruct (when (do_costes s) _) as [costes|] eqn:Ec; [|discriminate].
  cbn beta iota in H.
  destruct (match costes with Some p => _ | None => _ end) as [rows_costes|];
    [|discriminate].
  injection H as <- <-. cbn [ov_corr ov_overlap ov_manders ov_rwc ov_costes].
  apply when_flag in Eco, Em, Er, Eo, Ec.
  repeat split; tauto.
Qed.

Lemma run_image_pair_objects_names (K : constants) (L : library) (s : settings)
    (fuel : nat) (f g o : string) (first_image second_image : image)
    (objs : objects) (rows : list row) (recorded : list (string * list float)) :
  run_image_pair_objects L s fuel f g o first_image second_image objs
  = Some (rows, recorded) ->
  Permutation (map (fun nv => (o, fst nv)) recorded)
              (map fst (pair_columns K s false o f g)).
Proof.
  unfold run_image_pair_objects, object_branches. intros H.
  destruct (object_samples L objs first_image second_image) as [op|];
    [|discriminate].
  destruct (align L first_image second_image) as [al|]; [|discriminate].
  cbv zeta in H.
  destruct (count objs =? 0)%nat.
  - injection H as <- <-.
    apply object_measurements_names; intros _; discriminate.
  - destruct (negb _).
    + injection H as <- <-.
      apply object_measurements_names; intros _; discriminate.
    + destruct (valid_samples _) as [fi si].
      destruct (object_values_of _ _ _ _ _ _ _ _ _ _ _ _) as [[result v]|] eqn:Ev;
        [|discriminate].
      injection H as <- <-.
      apply object_values_of_bound in Ev as (H1 & H2 & H3 & H4 & H5).
      apply object_measurements_names; assumption.
Qed.

Lemma for_each_names {A} (f : A -> option (list row * list measurement))
    (names : A -> list (string * string)) (xs : list A) :
  (forall x rows recorded,
      In x xs -> f x = Some (rows, recorded) ->
      Permutation (map fst recorded) (names x)) ->
  forall rows recorded,
    for_each f xs = Some (rows, recorded) ->
    Permutation (map fst recorded) (flat_map names xs).
Proof.
  induction xs as [|x xs IH]; intros Hf rows recorded H; simpl in H.
  - injection H as <- <-. constructor.
  - destruct (f x) as [[r1 rec1]|] eqn:E1; [|discriminate].
    destruct (for_each f xs) as [[r2 rec2]|] eqn:E2; [|discriminate].
    injection H as <- <-. simpl. rewrite map_app.
    apply Permutation_app.
    + apply (Hf x r1); [left; reflexivity|exact E1].
    + apply (IH (fun y r rec Hy => Hf y r rec (or_intror Hy)) r2). reflexivity.
Qed.

Lemma flat_map_nth_seq {A B} (h : A -> list B) (l : list A) (d : A) :
  flat_map (fun i => h (nth i l d)) (seq 0 (length l)) = flat_map h l.
Proof.
  rewrite (flat_map_concat_map h l), (flat_map_concat_map _ (seq 0 _)).
  f_equal. rewrite <- (map_map (fun i => nth i l d) h). f_equal.
  apply nth_ext with (d := d) (d' := d).
  - rewrite length_map, length_seq. reflexivity.
  - intros n Hn. rewrite length_map, length_seq in Hn.
    rewrite (nth_indep _ d (nth 0 l d)) by (rewrite length_map, length_seq; exact Hn).
    rewrite (map_nth (fun i => nth i l d)).
    rewrite seq_nth by exact Hn. reflexivity.
Qed.

Lemma map_fst_flat_map {A B C} (h : A -> list (B * C)) (l : list A) :
  map fst (flat_map h l) = flat_map (fun x => map fst (h x)) l.
Proof.
  induction l as [|x l IH]; simpl; [reflexivity|].
  rewrite map_app, IH. reflexivity.
Qed.

Lemma run_pair_names (K : constants) (L : library) (m : module_settings)
    (fuel : nat) (w : workspace) (f g : string) (rows : list row)
    (recorded : list measurement) :
  run_pair K L m fuel w (f, g) = Some (rows, recorded) ->
  Permutation
    (map fst recorded)
    (map fst
       ((if wants_images m
         then pair_columns K (metrics m) true (IMAGE K) f g else [])
        ++ (if wants_objects m
            then flat_map (fun o => pair_columns K (metrics m) false o f g)
                          (map object_name (object_groups m))
            else []))).
Proof.
  unfold run_pair. intros H.
  destruct (if wants_images m then _ else _) as [[r1 rec1]|] eqn:E1; [|discriminate].
  destruct (if wants_objects m then _ else _) as [[r2 rec2]|] eqn:E2; [|discriminate].
  injection H as <- <-. rewrite !map_app. apply Permutation_app.
  - destruct (wants_images m); [|injection E1 as <- <-; constructor].
    unfold run_images in E1.
    destruct (image_set w f) as [im1|]; [|discriminate].
    destruct (image_set w g) as [im2|]; [|discriminate].
    destruct (run_image_pair_images _ _ _ _ _ _ _) as [[r rec]|] eqn:E; [|discriminate].
    injection E1 as <- <-.
    rewrite map_map. cbv beta iota. cbn [fst].
    rewrite (run_image_pair_images_names K L _ _ _ _ _ _ _ _ E).
    apply Permutation_refl.
  - destruct (wants_objects m); [|injection E2 as <- <-; constructor].
    cbv beta iota.
    apply Permutation_trans
      with (flat_map (fun o => map fst (pair_columns K (metrics m) false o f g))
                     (map object_name (object_groups m))).
    + eapply for_each_names with (rows := r2); [|exact E2].
      intros o r rec _ Ho. unfold run_objects in Ho.
      destruct (image_set w f) as [im1|]; [|discriminate].
      destruct (image_set w g) as [im2|]; [|discriminate].
      destruct (object_set w o) as [objs|]; [|discriminate].
      destruct (run_image_pair_objects _ _ _ _ _ _ _ _ _) as [[r' rec']|] eqn:E;
        [|discriminate].
      injection Ho as <- <-. rewrite map_map. cbn [fst].
      apply (run_image_pair_objects_names K L _ _ _ _ _ _ _ _ _ _ E).
    + unfold column. rewrite map_fst_flat_map. apply Permutation_refl.
Qed.

Lemma get_measurement_columns_by_name (K : constants) (m : module_settings) :
  get_measurement_columns K m
  = flat_map
      (fun pair : string * string =>
         (if wants_images m
          then pair_columns K (metrics m) true (IMAGE K) (fst pair) (snd pair)
          else [])
         ++ (if wants_objects m
             then flat_map
                    (fun o => pair_columns K (metrics m) false o (fst pair) (snd pair))
                    (map object_name (object_groups m))
             else []))
      (get_image_pairs m).
Proof.
  unfold get_measurement_columns.
  induction (get_image_pairs m) as [|[f g] l IH]; [reflexivity|].
  cbn [flat_map fst snd]. rewrite IH. f_equal. f_equal.
  destruct (wants_objects m); [|reflexivity].
  unfold object_count.
  rewrite (flat_map_nth_seq
             (fun og => pair_columns K (metrics m) false (object_name og) f g)).
  rewrite !flat_map_concat_map, map_map. reflexivity.
Qed.

(** X14: when [run] ends without an exception, the measurements it added
    are the declared columns: the (object, feature) pairs recorded are a
    rearrangement of those [get_measurement_columns] lists, so no declared
    column is left without a value and no undeclared one is written. *)
Theorem run_records_declared_columns (K : constants) (L : library)
    (m : module_settings) (fuel : nat) (w : workspace) (rows : list row)
    (recorded : list measurement) :
  run K L m fuel w = Some (rows, recorded) ->
  Permutation (map fst recorded) (map fst (get_measurement_columns K m)).
Proof.
  unfold run. intros H. rewrite get_measurement_columns_by_name.
  unfold column. rewrite map_fst_flat_map.
  eapply for_each_names with (rows := rows); [|exact H].
  intros [f g] r rec _ Hp. apply (run_pair_names K L m fuel w f g r rec Hp).
Qed.

(** ** The columns declared and the names discovered *)

Lemma get_categories_image (K : constants) (m : module_settings) :
  wants_images m = true -> get_categories K m (IMAGE K) = ["Correlation"].
Proof.
  intros H. unfold get_categories. rewrite String.eqb_refl, H. reflexivity.
Qed.

Lemma get_categories_object (K : constants) (m : module_settings) (o : string) :
  wants_objects m = true -> o <> IMAGE K ->
  In o (map object_name (object_groups m)) ->
  get_categories K m o = ["Correlation"].
Proof.
  intros H Ho Hin. unfold get_categories.
  destruct (String.eqb_spec o (IMAGE K)) as [|_]; [contradiction|].
  rewrite H. unfold str_in.
  replace (existsb _ _) with true; [reflexivity|].
  symmetry. apply existsb_exists. exists o. split; [exact Hin|apply String.eqb_refl].
Qed.

Lemma get_categories_inv (K : constants) (m : module_settings) (o : string) :
  get_categories K m o <> [] ->
  get_categories K m o = ["Correlation"] /\
  ((o = IMAGE K /\ wants_images m = true)
   \/ (o <> IMAGE K /\ wants_objects m = true /\
       In o (map object_name (object_groups m)))).
Proof.
  unfold get_categories.
  destruct (String.eqb_spec o (IMAGE K)) as [E|E]; cbn [negb andb orb].
  - destruct (wants_images m); cbn [orb]; [intros _; split; [reflexivity|]; left; tauto|].
    intros H. now destruct H.
  - destruct (wants_objects m); cbn [andb]; [|intros H; now destruct H].
    destruct (str_in _ _) eqn:Es; [|intros H; now destruct H].
    intros _. split; [reflexivity|]. right. repeat split; try assumption.
    unfold str_in in Es. apply existsb_exists in Es as (x & Hx & Ex).
    apply String.eqb_eq in Ex. subst. exact Hx.
Qed.


Ltac name_measurement :=
  first
    [ exists "Correlation"; split; [simpl; tauto|]; solve [left; reflexivity]
    | exists "Slope"; split; [simpl; tauto|]; solve [left; reflexivity]
    | exists "Overlap"; split; [simpl; tauto|]; solve [left; reflexivity]
    | exists "K"; split; [simpl; tauto|];
      solve [left; reflexivity | right; split; reflexivity]
    | exists "Manders"; split; [simpl; tauto|];
      solve [left; reflexivity | right; split; reflexivity]
    | exists "RWC"; split; [simpl; tauto|];
      solve [left; reflexivity | right; split; reflexivity]
    | exists "Costes"; split; [simpl; tauto|];
      solve [left; reflexivity | right; split; reflexivity] ].

(** The columns of one image pair for one name, by measurement. *)
Lemma pair_columns_in (K : constants) (m : module_settings) (o f g : string)
    (c : column) :
  get_categories K m o = ["Correlation"] ->
  (In c (pair_columns K (metrics m) (String.eqb o (IMAGE K)) o f g) <->
   exists meas,
     In meas (get_measurements K m o "Correlation") /\
     (c = (o, ("Correlation_" ++ meas ++ "_" ++ f ++ "_" ++ g)%string, COLTYPE_FLOAT K)
      \/ (str_in meas ["K"; "Manders"; "RWC"; "Costes"] = true /\
          c = (o, ("Correlation_" ++ meas ++ "_" ++ g ++ "_" ++ f)%string,
               COLTYPE_FLOAT K)))).
Proof.
  intros Hc. unfold get_measurements, pair_columns,
    F_CORRELATION_FORMAT, F_SLOPE_FORMAT, F_OVERLAP_FORMAT, F_K_FORMAT,
    F_MANDERS_FORMAT, F_RWC_FORMAT, F_COSTES_FORMAT, fmt2.
  rewrite Hc.
  destruct (list_eq_dec string_dec ["Correlation"] ["Correlation"]) as [_|N];
    [|now destruct N].
  destruct (metrics m) as [p [] [] [] [] []], (String.eqb o (IMAGE K));
    cbn [do_corr_and_slope do_manders do_rwc do_overlap do_costes app];
    (split;
     [ intros H; cbn [In] in H;
       repeat (destruct H as [H|H]; [subst c; name_measurement|]);
       contradiction
     | intros (meas & Hm & H); cbn [In] in Hm;
       repeat (destruct Hm as [Hm|Hm];
               [subst meas;
                destruct H as [->|[Ha ->]];
                [cbn [In]; tauto|first [discriminate Ha|cbn [In]; tauto]]|]);
       contradiction ]).
Qed.

Lemma get_measurement_images_in (K : constants) (m : module_settings)
    (o meas imgs : string) :
  In meas (get_measurements K m o "Correlation") ->
  (In imgs (get_measurement_images K m o "Correlation" meas) <->
   exists f g,
     In (f, g) (get_image_pairs m) /\
     (imgs = (f ++ "_" ++ g)%string
      \/ (str_in meas ["K"; "Manders"; "RWC"; "Costes"] = true /\
          imgs = (g ++ "_" ++ f)%string))).
Proof.
  intros Hm. unfold get_measurement_images.
  replace (str_in meas (get_measurements K m o "Correlation")) with true.
  2:{ symmetry. apply existsb_exists. exists meas. split; [exact Hm|].
      apply String.eqb_refl. }
  rewrite in_flat_map. split.
  - intros ([f g] & Hp & Hin). exists f, g. split; [exact Hp|].
    destruct Hin as [<-|Hin]; [left; reflexivity|].
    destruct (str_in meas _); [|contradiction].
    destruct Hin as [<-|[]]. right. split; reflexivity.
  - intros (f & g & Hp & H). exists (f, g). split; [exact Hp|].
    destruct H as [->|[Ha ->]]; [left; reflexivity|].
    right. rewrite Ha. left. reflexivity.
Qed.

Lemma get_measurements_nonempty (K : constants) (m : module_settings)
    (o category meas : string) :
  In meas (get_measurements K m o category) -> get_categories K m o <> [].
Proof.
  unfold get_measurements. intros H E. rewrite E in H.
  destruct (list_eq_dec string_dec [] [category]); [discriminate|contradiction].
Qed.

(** X15: a column is declared exactly when [get_measurements] and
    [get_measurement_images] name it: its type is [COLTYPE_FLOAT] and its
    feature is [Correlation_<measurement>_<images>] for a measurement and an
    image pairing the two functions return for its object name.  No object
    may carry the name of the image measurements. *)
Theorem declared_columns_are_discoverable (K : constants) (m : module_settings)
    (o feature t : string) :
  ~ In (IMAGE K) (map object_name (object_groups m)) ->
  (In (o, feature, t) (get_measurement_columns K m) <->
   t = COLTYPE_FLOAT K /\
   exists meas imgs,
     In meas (get_measurements K m o "Correlation") /\
     In imgs (get_measurement_images K m o "Correlation" meas) /\
     feature = ("Correlation_" ++ meas ++ "_" ++ imgs)%string).
Proof.
  intros Hno. rewrite get_measurement_columns_by_name, in_flat_map. split.
  - intros ([f g] & Hp & Hin). cbn [fst snd] in Hin.
    apply in_app_or in Hin.
    assert (H : exists name,
               get_categories K m name = ["Correlation"] /\
               In (o, feature, t)
                  (pair_columns K (metrics m) (String.eqb name (IMAGE K)) name f g)).
    { destruct Hin as [Hin|Hin].
      - destruct (wants_images m) eqn:Ew; [|contradiction].
        exists (IMAGE K). rewrite String.eqb_refl.
        split; [apply get_categories_image; exact Ew|exact Hin].
      - destruct (wants_objects m) eqn:Ew; [|contradiction].
        apply in_flat_map in Hin as (name & Hname & Hin).
        exists name.
        assert (Hne : name <> IMAGE K) by (intros ->; contradiction).
        split; [apply get_categories_object; assumption|].
        destruct (String.eqb_spec name (IMAGE K)); [contradiction|exact Hin]. }
    destruct H as (name & Hc & H).
    apply (pair_columns_in K m name f g _ Hc) in H as (meas & Hm & H).
    assert (Hi := get_measurement_images_in K m name meas).
    destruct H as [H|[Ha H]]; injection H as -> -> ->;
      (split; [reflexivity|]); exists meas; eexists;
      (split; [exact Hm|]); (split; [|reflexivity]);
      apply Hi; try exact Hm; exists f, g; (split; [exact Hp|]).
    + left. reflexivity.
    + right. split; [exact Ha|reflexivity].
  - intros (-> & meas & imgs & Hm & Hi & ->).
    apply (get_measurement_images_in K m o meas imgs Hm) in Hi
      as (f & g & Hp & Hi).
    exists (f, g). split; [exact Hp|]. cbn [fst snd].
    destruct (get_categories_inv K m o (get_measurements_nonempty K m o _ _ Hm))
      as (Hc & Ho).
    assert (H : In (o, ("Correlation_" ++ meas ++ "_" ++ imgs)%string, COLTYPE_FLOAT K)
                   (pair_columns K (metrics m) (String.eqb o (IMAGE K)) o f g)).
    { apply (pair_columns_in K m o f g _ Hc). exists meas. split; [exact Hm|].
      destruct Hi as [->|[Ha ->]]; [left; reflexivity|right; split; [exact Ha|reflexivity]]. }
    apply in_or_app. destruct Ho as [(-> & Ew)|(Hne & Ew & Hin)].
    + left. rewrite Ew. rewrite String.eqb_refl in H. exact H.
    + right. rewrite Ew. apply in_flat_map. exists o. split; [exact Hin|].
      destruct (String.eqb_spec o (IMAGE K)); [contradiction|exact H].
Qed.

Lemma declared_columns_are_discoverable_witness :
  In ("Image", "Correlation_K_Actin_DNA", "float")
     (get_measurement_columns cellprofiler_constants Example.both)
  <-> "float" = COLTYPE_FLOAT cellprofiler_constants /\
      exists meas imgs,
        In meas (get_measurements cellprofiler_constants Example.both
                   "Image" "Correlation") /\
        In imgs (get_measurement_images cellprofiler_constants Example.both
                   "Image" "Correlation" meas) /\
        "Correlation_K_Actin_DNA" = ("Correlation_" ++ meas ++ "_" ++ imgs)%string.
Proof.
  apply (declared_columns_are_discoverable cellprofiler_constants Example.both).
  simpl. intros [H|[]]. discriminate H.
Defined.

Lemma run_records_declared_columns_witness :
  exists rows recorded,
    run cellprofiler_constants Reference.lib Example.both 255
      Example.images_and_objects = Some (rows, recorded) /\
    Permutation (map fst recorded)
      (map fst (get_measurement_columns cellprofiler_constants Example.both)).
Proof.
  eexists. eexists. split; [vm_compute; reflexivity|].
  eapply (run_records_declared_columns cellprofiler_constants Reference.lib
            Example.both 255 Example.images_and_objects).
  vm_compute. reflexivity.
Defined.

(** ** Running the module *)

Lemma for_each_returns {A} (f : A -> option (list row * list measurement))
    (xs : list A) :
  (exists r, for_each f xs = Some r) <-> (forall x, In x xs -> exists r, f x = Some r).
Proof.
  induction xs as [|x xs IH]; simpl.
  - split; [intros _ x []|intros _; eauto].
  - split.
    + intros [r H] y [<-|Hy].
      * destruct (f x) as [r1|]; [eauto|discriminate].
      * apply IH; [|exact Hy].
        destruct (f x) as [[r1 rec1]|]; [|discriminate].
        destruct (for_each f xs) as [r2|]; [eauto|discriminate].
    + intros H. destruct (H x (or_introl eq_refl)) as [[r1 rec1] ->].
      destruct (proj2 IH (fun y Hy => H y (or_intror Hy))) as [[r2 rec2] ->].
      eauto.
Qed.

(** X16: measuring across entire images only, and with the 255 iterations
    the Costes search may take, [run] ends without an exception exactly
    when, for every image pair, the workspace holds both images, the two
    align, and the least-squares fit, where it is called, returns. *)
Theorem run_images_only_returns (K : constants) (L : library)
    (m : module_settings) (w : workspace) :
  images_or_objects m = M_IMAGES ->
  ((exists r, run K L m 255 w = Some r) <->
   forall f g, In (f, g) (get_image_pairs m) ->
     exists first_image second_image al,
       image_set w f = Some first_image
       /\ image_set w g = Some second_image
       /\ align L first_image second_image = Some al
       /\ (do_corr_and_slope (metrics m) = true ->
           NumPy.any (valid_mask al) = true ->
           lstsq_slope L (fst (valid_samples al)) (snd (valid_samples al)) <> None)).
Proof.
  intros Hm. unfold run. rewrite for_each_returns.
  assert (Hp : forall f g,
             (exists r, run_pair K L m 255 w (f, g) = Some r) <->
             exists first_image second_image al,
               image_set w f = Some first_image
               /\ image_set w g = Some second_image
               /\ align L first_image second_image = Some al
               /\ (do_corr_and_slope (metrics m) = true ->
                   NumPy.any (valid_mask al) = true ->
                   lstsq_slope L (fst (valid_samples al)) (snd (valid_samples al))
                   <> None)).
  { intros f g. unfold run_pair, wants_images, wants_objects. rewrite Hm.
    cbn [String.eqb Ascii.eqb Bool.eqb M_IMAGES M_OBJECTS M_IMAGES_AND_OBJECTS
         orb andb].
    unfold run_images.
    destruct (image_set w f) as [im1|];
      [|split; [intros [r H]; discriminate|intros (? & ? & ? & H & _); discriminate]].
    destruct (image_set w g) as [im2|];
      [|split; [intros [r H]; discriminate
               |intros (? & ? & ? & _ & H & _); discriminate]].
    pose proof (run_image_pair_images_returns L (metrics m) f g im1 im2) as R.
    destruct (run_image_pair_images L (metrics m) 255 f g im1 im2) as [[rows rec]|].
    - split; [|eauto]. intros _.
      destruct (proj1 R (ex_intro _ _ eq_refl)) as (al & Hal & Hl).
      exists im1, im2, al. auto.
    - split; [intros [r H]; discriminate|].
      intros (i1 & i2 & al & E1 & E2 & Hal & Hl).
      inversion E1; inversion E2; subst.
      destruct (proj2 R (ex_intro _ al (conj Hal Hl))) as [r H]. discriminate. }
  split.
  - intros H f g Hin. apply Hp. apply H. exact Hin.
  - intros H [f g] Hin. apply Hp. apply H. exact Hin.
Qed.

Lemma run_images_only_returns_witness :
  exists r, run cellprofiler_constants Reference.lib Example.images_only 255
              Example.images_and_objects = Some r.
Proof.
  apply (proj2 (run_images_only_returns cellprofiler_constants Reference.lib
                  Example.images_only Example.images_and_objects eq_refl)).
  intros f g [E|[]]. inversion E; subst.
  exists Example.DNA, Example.Actin. eexists.
  repeat split; try reflexivity. intros _ _. vm_compute. discriminate.
Defined.

(** X17: when the two images align and no pixel of the pair is valid, no
    row is reported and every image measurement is recorded as NaN, one for
    each declared column. *)
Theorem image_measurements_nan_without_valid_pixels (K : constants) (L : library)
    (s : settings) (fuel : nat) (f g : string) (first_image second_image : image)
    (al : aligned) :
  align L first_image second_image = Some al ->
  NumPy.any (valid_mask al) = false ->
  exists recorded,
    run_image_pair_images L s fuel f g first_image second_image = Some ([], recorded) /\
    Forall (fun nv => PrimFloat.is_nan (snd nv) = true) recorded /\
    map (fun nv => (IMAGE K, fst nv)) recorded
    = map fst (pair_columns K s true (IMAGE K) f g).
Proof.
  intros Hal H. unfold run_image_pair_images. rewrite Hal. cbv zeta.
  rewrite H. eexists.
  split; [reflexivity|]. split.
  - unfold image_measurements, image_values_nan.
    destruct s as [p [] [] [] [] []]; simpl; repeat constructor.
  - unfold image_measurements, image_values_nan, pair_columns.
    destruct s as [p [] [] [] [] []]; reflexivity.
Qed.

Lemma image_measurements_nan_without_valid_pixels_witness :
  exists recorded,
    run_image_pair_images Reference.lib (metrics Example.both) 255 "DNA" "Actin"
      (Image [1; 2]%nat NumPy.float64 [0.5; 0.25] [false; false])
      (Image [1; 2]%nat NumPy.float64 [0.5; 0.75] [true; true])
    = Some ([], recorded) /\
    Forall (fun nv => PrimFloat.is_nan (snd nv) = true) recorded.
Proof.
  destruct (image_measurements_nan_without_valid_pixels cellprofiler_constants
              Reference.lib (metrics Example.both) 255 "DNA" "Actin"
              (Image [1; 2]%nat NumPy.float64 [0.5; 0.25] [false; false])
              (Image [1; 2]%nat NumPy.float64 [0.5; 0.75] [true; true])
              _ eq_refl eq_refl) as (recorded & H1 & H2 & _).
  exists recorded. split; [exact H1|exact H2].
Defined.

(** ** Exchanging the two images *)

Lemma SFmul_comm (x y : spec_float) : SFmul prec emax x y = SFmul prec emax y x.
Proof.
  destruct x as [sx|sx| |sx mx ex], y as [sy|sy| |sy my ey]; try reflexivity;
    unfold SFmul; rewrite ?(xorb_comm sx sy); try reflexivity.
  rewrite (Pos.mul_comm mx my).
  replace (IntDef.Z.add ex ey) with (IntDef.Z.add ey ex); [reflexivity|].
  change IntDef.Z.add with Z.add. apply Z.add_comm.
Qed.

Lemma float_mul_comm (x y : float) : x * y = y * x.
Proof. apply Prim2SF_inj. rewrite !mul_spec. apply SFmul_comm. Qed.

Lemma map2_comm {A C} (f : A -> A -> C) (xs ys : list A) :
  (forall x y, f x y = f y x) -> NumPy.map2 f xs ys = NumPy.map2 f ys xs.
Proof.
  intros Hf. revert ys. induction xs as [|x xs IH]; intros [|y ys]; simpl;
    try reflexivity.
  rewrite IH, Hf. reflexivity.
Qed.

Lemma rank_weights_comm (r1 r2 : list Z) : rank_weights r2 r1 = rank_weights r1 r2.
Proof.
  unfold rank_weights.
  destruct (NumPy.imax r1) as [m1|], (NumPy.imax r2) as [m2|]; try reflexivity.
  cbn. rewrite (Z.max_comm m2 m1).
  rewrite (map2_comm (fun a b => Z.abs (a - b)) r2 r1); [reflexivity|].
  intros x y. lia.
Qed.

(** X18: exchanging the two images exchanges the two Manders coefficients,
    the two rank-weighted coefficients and K1 with K2, and leaves the
    Overlap coefficient unchanged, bit for bit. *)
Theorem swapping_images_swaps_coefficients (d1 d2 : NumPy.dtype) (p : float)
    (fi si : list float) (td : thresholded) :
  threshold_images d1 d2 p fi si = Some td ->
  exists td',
    threshold_images d2 d1 p si fi = Some td' /\
    manders_images td' = (snd (manders_images td), fst (manders_images td)) /\
    overlap_images td'
    = (fst (fst (overlap_images td)), snd (overlap_images td),
       snd (fst (overlap_images td))) /\
    rwc_images si fi td'
    = option_map (fun r => (snd r, fst r)) (rwc_images fi si td).
Proof.
  unfold threshold_images. intros H.
  destruct (NumPy.amax fi) as [max_fi|]; [|discriminate].
  destruct (NumPy.amax si) as [max_si|]; [|discriminate].
  cbn in H. injection H as <-. eexists. split; [reflexivity|].
  rewrite (map2_comm andb (map _ si) (map _ fi)) by apply andb_comm.
  split; [reflexivity|]. split.
  - unfold overlap_images.
    cbn [fi_thresh si_thresh combined_thresh tot_fi_thr tot_si_thr fst snd].
    rewrite (map2_comm PrimFloat.mul (NumPy.bool_index si _)) by apply float_mul_comm.
    rewrite (float_mul_comm (NumPy.sum (map sq (NumPy.bool_index si _)))).
    reflexivity.
  - unfold rwc_images.
    cbn [fi_thresh si_thresh combined_thresh tot_fi_thr tot_si_thr].
    rewrite (rank_weights_comm (rank_image fi _)).
    destruct (rank_weights _ _) as [weight|]; reflexivity.
Qed.

Lemma swapping_images_swaps_coefficients_witness :
  exists td',
    threshold_images NumPy.float32 NumPy.float64 15 [0.25; 1] [0.5; 0.75] = Some td' /\
    manders_images td' = (1, 1).
Proof.
  destruct (swapping_images_swaps_coefficients NumPy.float64 NumPy.float32 15
              [0.5; 0.75] [0.25; 1] _ eq_refl)
    as (td' & H1 & H2 & _).
  exists td'. split; [exact H1|]. rewrite H2. vm_compute. reflexivity.
Defined.

(** ** One entry per object *)

Lemma when_inv {A} (flag : bool) (c : option A) (r : option A) :
  when flag c = Some r -> r = if flag then c else None.
Proof.
  unfold when. destruct flag; [|congruence].
  destruct c; [|discriminate]. congruence.
Qed.

(** The vectors [object_values_of] binds, when it returns. *)
Lemma object_values_of_fields (L : library) (s : settings) (d1 d2 : NumPy.dtype)
    (fuel : nat) (f g o : string) (fi si : list float) (op : object_pixels)
    (n : nat) (rows : list row) (v : object_values) :
  object_values_of L s d1 d2 fuel f g o fi si op n = Some (rows, v) ->
  let lrange := lrange_of n in
  (forall c, ov_corr v = Some c -> correlation_objects op lrange = Some c) /\
  (forall r, ov_manders v = Some r ->
             exists td, threshold_objects d1 d2 (thr s) op lrange = Some td
                        /\ r = manders_objects op lrange td) /\
  (forall r, ov_rwc v = Some r ->
             exists td, threshold_objects d1 d2 (thr s) op lrange = Some td
                        /\ rwc_objects op lrange td = Some r) /\
  (forall r, ov_overlap v = Some r ->
             exists td, threshold_objects d1 d2 (thr s) op lrange = Some td
                        /\ r = overlap_objects op lrange td) /\
  (forall r, ov_costes v = Some r ->
             costes_objects L fuel fi si op lrange = Some r).
Proof.
  unfold object_values_of. intros H. cbv zeta in H.
  destruct (when (do_corr_and_slope s) _) as [corr|] eqn:Eco; [|discriminate].
  cbn beta iota in H.
  destruct (match corr with Some c => _ | None => _ end) as [rows_corr|];
    [|discriminate].
  cbn beta iota in H.
  destruct (when (do_manders s || do_rwc s || do_overlap s) _) as [td|] eqn:Etd;
    [|discriminate].
  cbn beta iota in H.
  destruct (when (do_manders s) _) as [manders|] eqn:Em; [|discriminate].
  cbn beta iota in H.
  destruct (match manders with Some p => _ | None => _ end) as [rows_manders|];
    [|discriminate].
  cbn beta iota in H.
  destruct (when (do_rwc s) _) as [rwc|] eqn:Er; [|discriminate].
  cbn beta iota in H.
  destruct (match rwc with Some p => _ | None => _ end) as [rows_rwc|]; [|discriminate].
  cbn beta iota in H.
  destruct (when (do_overlap s) _) as [overlap|] eqn:Eo; [|discriminate].
  cbn beta iota in H.
  destruct (match overlap with Some p => _ | None => _ end) as [rows_overlap|];
    [|discriminate].
  cbn beta iota in H.
  destruct (when (do_costes s) _) as [costes|] eqn:Ec; [|discriminate].
  cbn beta iota in H.
  destruct (match costes with Some p => _ | None => _ end) as [rows_costes|];
    [|discriminate].
  injection H as <- <-. cbn [ov_corr ov_overlap ov_manders ov_rwc ov_costes].
  apply when_inv in Eco, Etd, Em, Er, Eo, Ec. cbv zeta.
  assert (Htd : forall td', td = Some td' ->
                            threshold_objects d1 d2 (thr s) op (lrange_of n) = Some td').
  { intros td' ->. destruct (_ || _); [now symmetry|discriminate]. }
  repeat split.
  - intros c ->. destruct (do_corr_and_slope s); [now symmetry|discriminate].
  - intros r ->. destruct (do_manders s); [|discriminate].
    destruct td as [td'|]; [|discriminate]. exists td'. split; [now apply Htd|].
    now inversion Em.
  - intros r ->. destruct (do_rwc s); [|discriminate].
    destruct td as [td'|]; [|discriminate]. exists td'. split; [now apply Htd|].
    now symmetry.
  - intros r ->. destruct (do_overlap s); [|discriminate].
    destruct td as [td'|]; [|discriminate]. exists td'. split; [now apply Htd|].
    now inversion Eo.
  - intros r ->. destruct (do_costes s); [now symmetry|discriminate].
Qed.

Lemma length_ndimage_sum input lab index :
  length (Ndimage.sum input lab index) = length index.
Proof. unfold Ndimage.sum. apply length_map. Qed.

Lemma length_zeros n : length (zeros n) = n.
Proof. apply repeat_length. Qed.

Lemma length_map2_div n xs ys :
  length xs = n -> length ys = n -> length (NumPy.map2 PrimFloat.div xs ys) = n.
Proof. intros Hx Hy. rewrite map2_length, Hx, Hy. apply Nat.min_id. Qed.

Lemma length_correlation_objects op lrange c :
  correlation_objects op lrange = Some c -> length c = length lrange.
Proof.
  unfold correlation_objects. intros H. bind_inv H. cbv zeta in H. bind_inv H.
  inversion H; subst; clear H.
  rewrite map2_length, length_ndimage_sum.
  unfold Ndimage.count. rewrite length_map. apply Nat.min_id.
Qed.

Lemma length_threshold_objects d1 d2 p op lrange td :
  threshold_objects d1 d2 p op lrange = Some td ->
  length (o_tot_fi_thr td) = length lrange /\
  length (o_tot_si_thr td) = length lrange.
Proof.
  intros H. destruct (threshold_objects_some _ _ _ _ _ _ H)
    as (? & ? & _ & _ & _ & H1 & H2). auto.
Qed.

Lemma length_manders_objects op lrange td :
  length (o_tot_fi_thr td) = length lrange ->
  length (o_tot_si_thr td) = length lrange ->
  let r := manders_objects op lrange td in
  length (fst r) = length lrange /\ length (snd r) = length lrange.
Proof.
  intros H1 H2. cbv zeta. unfold manders_objects.
  destruct (NumPy.any _); cbn [fst snd].
  - split; apply length_map2_div; auto using length_ndimage_sum.
  - split; apply length_zeros.
Qed.

Lemma length_rwc_objects op lrange td r :
  length (o_tot_fi_thr td) = length lrange ->
  length (o_tot_si_thr td) = length lrange ->
  rwc_objects op lrange td = Some r ->
  length (fst r) = length lrange /\ length (snd r) = length lrange.
Proof.
  intros H1 H2. unfold rwc_objects.
  destruct (rwc_weights_objects op); [|discriminate]. cbv beta iota zeta.
  destruct (NumPy.any (o_combined_thresh _)); intros [= <-]; cbn [fst snd].
  - split; apply length_map2_div; auto using length_ndimage_sum.
  - split; apply length_zeros.
Qed.

Lemma length_overlap_objects op lrange td :
  let r := overlap_objects op lrange td in
  length (fst (fst r)) = length lrange /\ length (snd (fst r)) = length lrange
  /\ length (snd r) = length lrange.
Proof.
  cbv zeta. unfold overlap_objects.
  destruct (NumPy.any _); cbn [fst snd].
  - repeat split; apply length_map2_div; auto using length_ndimage_sum.
    rewrite length_map, map2_length, !length_ndimage_sum. apply Nat.min_id.
  - repeat split; apply length_zeros.
Qed.

Lemma length_costes_manders_objects thr_c op lrange :
  let r := costes_manders_objects thr_c op lrange in
  length (fst r) = length lrange /\ length (snd r) = length lrange.
Proof.
  cbv zeta. unfold costes_manders_objects. destruct thr_c as [t1 t2].
  cbv zeta.
  destruct (NumPy.any (NumPy.map2 andb _ _)); cbn [fst snd];
    [|split; apply length_zeros].
  split; apply length_map2_div; auto using length_ndimage_sum.
  - destruct (NumPy.any _); auto using length_ndimage_sum, length_zeros.
  - destruct (NumPy.any _); auto using length_ndimage_sum, length_zeros.
Qed.

Lemma object_measurements_lengths (s : settings) (f g : string)
    (v : object_values) (n : nat) :
  (forall c, ov_corr v = Some c -> length c = n) ->
  (forall r, ov_manders v = Some r -> length (fst r) = n /\ length (snd r) = n) ->
  (forall r, ov_rwc v = Some r -> length (fst r) = n /\ length (snd r) = n) ->
  (forall r, ov_overlap v = Some r ->
             length (fst (fst r)) = n /\ length (snd (fst r)) = n
             /\ length (snd r) = n) ->
  (forall r, ov_costes v = Some r -> length (fst r) = n /\ length (snd r) = n) ->
  Forall (fun nv => length (snd nv) = n) (object_measurements s f g v).
Proof.
  intros H1 H2 H3 H4 H5. unfold object_measurements.
  repeat (apply Forall_app; split).
  - destruct (do_corr_and_slope s); [|constructor].
    destruct (ov_corr v) as [c|]; [|constructor].
    repeat constructor. apply H1. reflexivity.
  - destruct (do_manders s); [|constructor].
    destruct (ov_manders v) as [[a b]|]; [|constructor].
    destruct (H2 _ eq_refl). repeat constructor; assumption.
  - destruct (do_rwc s); [|constructor].
    destruct (ov_rwc v) as [[a b]|]; [|constructor].
    destruct (H3 _ eq_refl). repeat constructor; assumption.
  - destruct (do_overlap s); [|constructor].
    destruct (ov_overlap v) as [[[a b] c]|]; [|constructor].
    destruct (H4 _ eq_refl) as (? & ? & ?). repeat constructor; assumption.
  - destruct (do_costes s); [|constructor].
    destruct (ov_costes v) as [[a b]|]; [|constructor].
    destruct (H5 _ eq_refl). repeat constructor; assumption.
Qed.

(** X19: every per-object measurement [run_image_pair_objects] records
    holds one value per object, whichever branch computed it. *)
Theorem object_measurements_one_value_per_object (L : library) (s : settings)
    (fuel : nat) (f g o : string) (first_image second_image : image)
    (objs : objects) (rows : list row) (recorded : list (string * list float)) :
  run_image_pair_objects L s fuel f g o first_image second_image objs
  = Some (rows, recorded) ->
  Forall (fun nv => length (snd nv) = count objs) recorded.
Proof.
  unfold run_image_pair_objects, object_branches. intros H.
  destruct (object_samples L objs first_image second_image) as [op|];
    [|discriminate].
  destruct (align L first_image second_image) as [al|]; [|discriminate].
  cbv zeta in H.
  destruct (Nat.eqb_spec (count objs) 0) as [E0|E0].
  - injection H as <- <-. rewrite E0.
    apply object_measurements_lengths; unfold object_values_empty; cbn;
      intros r [= <-]; auto.
  - destruct (negb _).
    + injection H as <- <-.
      apply object_measurements_lengths; unfold object_values_nan; cbn;
        intros r [= <-]; cbn; rewrite ?repeat_length; auto.
    + destruct (valid_samples _) as [fi si].
      destruct (object_values_of _ _ _ _ _ _ _ _ _ _ _ _) as [[result v]|] eqn:Ev;
        [|discriminate].
      injection H as <- <-.
      apply object_values_of_fields in Ev as (F1 & F2 & F3 & F4 & F5).
      cbv zeta in F1, F2, F3, F4, F5.
      pose proof (length_lrange_of (count objs)) as Ln.
      set (lr := lrange_of (count objs)) in *.
      apply object_measurements_lengths.
      * intros c Hc. apply F1, length_correlation_objects in Hc. congruence.
      * intros r Hr. apply F2 in Hr as (td & Htd & ->).
        apply length_threshold_objects in Htd as [H1 H2].
        rewrite <- Ln. now apply length_manders_objects.
      * intros r Hr. apply F3 in Hr as (td & Htd & Hr).
        apply length_threshold_objects in Htd as [H1 H2].
        rewrite <- Ln. now apply (length_rwc_objects op lr td).
      * intros r Hr. apply F4 in Hr as (td & Htd & ->).
        rewrite <- Ln. apply length_overlap_objects.
      * intros r Hr. apply F5 in Hr. unfold costes_objects in Hr.
        destruct (costes_search L fuel fi si) as [thr_c|]; [|discriminate].
        injection Hr as <-. rewrite <- Ln.
        apply length_costes_manders_objects.
Qed.

Lemma object_measurements_one_value_per_object_witness :
  exists rows recorded,
    run_image_pair_objects Reference.lib (metrics Example.both) 255
      "DNA" "Actin" "Nuclei" Example.DNA Example.Actin Example.Nuclei
    = Some (rows, recorded) /\
    Forall (fun nv => length (snd nv) = count Example.Nuclei) recorded.
Proof.
  eexists. eexists. split; [vm_compute; reflexivity|].
  eapply (object_measurements_one_value_per_object Reference.lib
            (metrics Example.both) 255 "DNA" "Actin" "Nuclei"
            Example.DNA Example.Actin Example.Nuclei).
  vm_compute. reflexivity.
Defined.

(** ** Objects without pixels *)

Lemma select_absent {A} (xs : list A) (lab : list Z) (l : Z) :
  ~ In l lab -> Ndimage.select xs lab l = [].
Proof.
  unfold Ndimage.select. revert xs.
  induction lab as [|l' lab IH]; intros [|x xs] H; simpl; try reflexivity.
  destruct (Z.eqb_spec l l') as [->|_]; [destruct H; left; reflexivity|].
  apply IH. intros Hin. apply H. right. exact Hin.
Qed.

(** X20: when the per-object correlation is computed, some pixel being
    left inside an object, an object none of whose pixels is left by the
    masks gets NaN as its correlation. *)
Theorem correlation_nan_for_object_without_pixels (op : object_pixels)
    (n k : nat) (corr : list float) :
  correlation_objects op (lrange_of n) = Some corr ->
  (k < n)%nat ->
  ~ In (Z.of_nat k + 1)%Z (labels op) ->
  nth k corr 0 = nan.
Proof.
  unfold correlation_objects. intros H Hk Hno.
  bind_inv H. cbv zeta in H. bind_inv H. inversion H; subst; clear H.
  rewrite (nth_map2 _ _ _ _ 0 0%Z).
  - unfold Ndimage.count at 1.
    rewrite (nth_map_in _ _ _ 0%Z) by (rewrite length_lrange_of; exact Hk).
    rewrite nth_lrange_of by exact Hk.
    rewrite select_absent by exact Hno. reflexivity.
  - unfold Ndimage.sum. rewrite length_map, length_lrange_of. exact Hk.
  - unfold Ndimage.count. rewrite length_map, length_lrange_of. exact Hk.
Qed.

Lemma correlation_nan_for_object_without_pixels_witness :
  exists corr,
    correlation_objects (ObjectPixels [0.5; 0.25] [0.5; 0.75] [1; 1]%Z) (lrange_of 2)
    = Some corr
    /\ nth 1 corr 0 = nan.
Proof.
  eexists. split; [vm_compute; reflexivity|].
  eapply (correlation_nan_for_object_without_pixels
            (ObjectPixels [0.5; 0.25] [0.5; 0.75] [1; 1]%Z) 2 1);
    [vm_compute; reflexivity|lia|].
  simpl. intros [H|[H|[]]]; discriminate H.
Defined.

(** ** An object set named like the image measurements *)

(** X22: with the image measurements off, an object set that carries the
    name of the image measurements gets its columns declared, but
    [get_categories] and [get_measurements] return nothing for it. *)
Theorem object_named_like_image_is_hidden (K : constants) (m : module_settings)
    (f g : string) :
  wants_images m = false -> wants_objects m = true ->
  In (IMAGE K) (map object_name (object_groups m)) ->
  In (f, g) (get_image_pairs m) ->
  do_corr_and_slope (metrics m) = true ->
  In (IMAGE K, F_CORRELATION_FORMAT f g, COLTYPE_FLOAT K)
     (get_measurement_columns K m) /\
  get_categories K m (IMAGE K) = [] /\
  forall category, get_measurements K m (IMAGE K) category = [].
Proof.
  intros Hi Ho Hin Hp Hc. split; [|split].
  - rewrite get_measurement_columns_by_name. apply in_flat_map.
    exists (f, g). split; [exact Hp|]. cbn [fst snd]. apply in_or_app. right.
    rewrite Ho. apply in_flat_map. exists (IMAGE K). split; [exact Hin|].
    unfold pair_columns. rewrite Hc. left. reflexivity.
  - unfold get_categories. rewrite String.eqb_refl, Hi. reflexivity.
  - intros category. unfold get_measurements, get_categories.
    rewrite String.eqb_refl, Hi. cbn [andb orb negb].
    destruct (list_eq_dec string_dec [] [category]); [discriminate|reflexivity].
Qed.

Lemma object_named_like_image_is_hidden_witness :
  In ("Image", "Correlation_Correlation_DNA_Actin", "float")
     (get_measurement_columns cellprofiler_constants
        (ModuleSettings (image_groups Example.both) [ObjectGroup false "Image" false]
           M_OBJECTS true (metrics Example.both))) /\
  get_categories cellprofiler_constants
    (ModuleSettings (image_groups Example.both) [ObjectGroup false "Image" false]
       M_OBJECTS true (metrics Example.both)) "Image" = [].
Proof.
  destruct (object_named_like_image_is_hidden cellprofiler_constants
              (ModuleSettings (image_groups Example.both)
                 [ObjectGroup false "Image" false] M_OBJECTS true
                 (metrics Example.both))
              "DNA" "Actin" eq_refl eq_refl (or_introl eq_refl)
              (or_introl eq_refl) eq_refl) as (H1 & H2 & _).
  split; [exact H1|exact H2].
Defined.

(** ** A module without objects *)

(** X23: [prepare_settings] accepts an object count of zero, and on the
    module it leaves [help_settings] raises [IndexError]: it indexes the
    first object group, and there is none. *)
Theorem help_settings_fails_without_objects (K : constants)
    (int : string -> option Z) (v0 v1 : string) (rest : list string)
    (m : module_settings) (n : Z) :
  int v0 = Some n -> int v1 = Some 0%Z -> (2 <= n)%Z ->
  exists m',
    prepare_settings K int (v0 :: v1 :: rest) m = Returned m' /\
    object_groups m' = [] /\
    help_settings m' = Raised ExcIndexError.
Proof.
  intros E0 E1 Hn.
  destruct (prepare_settings_returns K int v0 v1 rest m n 0 E0 E1 Hn) as [m' H].
  exists m'. split; [exact H|].
  apply prepare_settings_returned in H
    as (v0' & v1' & rest' & n' & k' & E & E0' & E1' & _ & _ & HO & _).
  injection E as <- <- <-. rewrite E1 in E1'. injection E1' as <-.
  unfold slice_to in HO. rewrite slice_index_nonneg in HO by lia.
  simpl in HO. split; [exact HO|].
  unfold help_settings. rewrite HO.
  destruct (nth_error (image_groups m') 0); reflexivity.
Qed.

Lemma help_settings_fails_without_objects_witness :
  exists m',
    prepare_settings cellprofiler_constants int_decimal ["2"; "0"]
      (create_settings cellprofiler_constants) = Returned m' /\
    object_groups m' = [] /\
    help_settings m' = Raised ExcIndexError.
Proof.
  apply (help_settings_fails_without_objects cellprofiler_constants int_decimal
           "2" "0" [] (create_settings cellprofiler_constants) 2);
    [reflexivity|reflexivity|lia].
Defined.
